(** * bcskins-inspect: the inspect coordinator and the bot worker

    A shallow embedding of [src/modules/inspect/inspect.service.ts]
    (class [InspectService]), of the two Mongoose schemas it writes to
    ([asset.schema.ts], [history.schema.ts]) and of
    [BotWorker.initializeBots] from the worker thread, followed by the
    properties of the specification that concern them.

    Layout: JavaScript values, SHA-1, schemas, the persistence store,
    the admission queue, the service as an event-driven state machine,
    the bot worker; then the theorems. *)

From Stdlib Require Import ZArith String Ascii DecimalString.
From stdpp Require Import gmap strings list fin_maps numbers.

Local Open Scope string_scope.
Local Open Scope list_scope.
Local Open Scope Z_scope.

(* ===================================================================== *)
(** ** JavaScript values                                                  *)
(* ===================================================================== *)

Module Js.

(** A JavaScript number, held as the finite decimal [coef * 10^expo]
    that [Number.prototype.toString] prints for it.  The service never
    does arithmetic on the numbers of an inspect result: it tests them
    for truthiness, compares them ([===], [>]) and prints them, and all
    of these are functions of that decimal.  [-0] is identified with
    [0] (equal under [===], both falsy, both printed as "0"). *)
Record num := Num { coef : Z; expo : Z }.

Definition of_Z (z : Z) : num := Num z 0.

Fixpoint strip10 (fuel : nat) (c e : Z) : Z * Z :=
  match fuel with
  | O => (c, e)
  | S f =>
      if c =? 0 then (0, 0)
      else if c mod 10 =? 0 then strip10 f (c / 10) (e + 1)
      else (c, e)
  end.

(** Canonical form: no trailing zero digit in the coefficient. *)
Definition norm (x : num) : Z * Z :=
  strip10 (S (Z.to_nat (Z.log2 (Z.abs (coef x))))) (coef x) (expo x).

(** [x === y] on numbers. *)
Definition num_eqb (x y : num) : bool :=
  let '(cx, ex) := norm x in
  let '(cy, ey) := norm y in
  (cx =? cy) && (ex =? ey).

(** [x < y] on numbers. *)
Definition num_ltb (x y : num) : bool :=
  let m := Z.min (expo x) (expo y) in
  coef x * 10 ^ (expo x - m) <? coef y * 10 ^ (expo y - m).

(** ToBoolean on a number: only zero is falsy (NaN is not a decimal). *)
Definition num_truthy (x : num) : bool := negb (coef x =? 0).

Definition dec (n : Z) : string :=
  DecimalString.NilZero.string_of_uint (N.to_uint (Z.to_N n)).

Fixpoint zeros (n : nat) : string :=
  match n with O => EmptyString | S k => String "0" (zeros k) end.

(** Number::toString (ECMA-262 6.1.6.1.20) for radix 10: with [k]
    digits and decimal point position [n], plain notation is used for
    [-6 < n <= 21] and exponent notation otherwise. *)
Definition num_to_string (x : num) : string :=
  let '(c, e) := norm x in
  if c =? 0 then "0"
  else
    let sign := if c <? 0 then "-" else EmptyString in
    let ds := dec (Z.abs c) in
    let k := Z.of_nat (String.length ds) in
    let n := k + e in
    let body :=
      if (k <=? n) && (n <=? 21) then ds +:+ zeros (Z.to_nat (n - k))
      else if (0 <? n) && (n <=? 21) then
        substring 0 (Z.to_nat n) ds +:+ "." +:+
        substring (Z.to_nat n) (Z.to_nat (k - n)) ds
      else if (-6 <? n) && (n <=? 0) then
        "0." +:+ zeros (Z.to_nat (- n)) +:+ ds
      else
        let es := (if n - 1 <? 0 then "-" else "+") +:+ dec (Z.abs (n - 1)) in
        if k =? 1 then ds +:+ "e" +:+ es
        else substring 0 1 ds +:+ "." +:+
             substring 1 (Z.to_nat (k - 1)) ds +:+ "e" +:+ es
    in sign +:+ body.

(** The dynamically typed values the service handles where the source
    says [any]: owner ids, proof tokens and the fields of the objects
    it returns. *)
Inductive value :=
| VUndefined
| VNull
| VBool (b : bool)
| VNum (n : num)
| VStr (s : string).

(** ToBoolean. *)
Definition truthy (v : value) : bool :=
  match v with
  | VUndefined | VNull => false
  | VBool b => b
  | VNum n => num_truthy n
  | VStr s => negb (String.eqb s EmptyString)
  end.

(** [v === w]. *)
Definition strict_eq (v w : value) : bool :=
  match v, w with
  | VUndefined, VUndefined => true
  | VNull, VNull => true
  | VBool a, VBool b => Bool.eqb a b
  | VNum a, VNum b => num_eqb a b
  | VStr a, VStr b => String.eqb a b
  | _, _ => false
  end.

(** [v?.toString()]: undefined when [v] is null or undefined. *)
Definition opt_to_string (v : value) : option string :=
  match v with
  | VUndefined | VNull => None
  | VBool b => Some (if b then "true" else "false")
  | VNum n => Some (num_to_string n)
  | VStr s => Some s
  end.

(** [v?.toString().startsWith(p)] followed by ToBoolean. *)
Definition opt_starts_with (p : string) (v : value) : bool :=
  match opt_to_string v with
  | Some s => String.prefix p s
  | None => false
  end.

(** A field of a decoded protobuf message: a number or [null]. *)
Definition field := option num.

(** [f === g] on two fields. *)
Definition field_eq (f g : field) : bool :=
  match f, g with
  | None, None => true
  | Some a, Some b => num_eqb a b
  | _, _ => false
  end.

(** ToNumber on a field, as the relational operators apply it:
    [null] becomes [+0]. *)
Definition to_number (f : field) : num :=
  match f with Some n => n | None => of_Z 0 end.

(** [f > g]. *)
Definition field_gt (f g : field) : bool := num_ltb (to_number g) (to_number f).

(** ToBoolean on a field. *)
Definition field_truthy (f : field) : bool :=
  match f with Some n => num_truthy n | None => false end.

(** [f || 0]. *)
Definition or_zero (f : field) : num :=
  match f with
  | Some n => if num_truthy n then n else of_Z 0
  | None => of_Z 0
  end.

(** [f === null ? 0 : f]. *)
Definition null_to_zero (f : field) : field :=
  match f with Some n => Some n | None => Some (of_Z 0) end.

(** [xs.join(sep)] on an array of numbers. *)
Fixpoint join (sep : string) (xs : list num) : string :=
  match xs with
  | [] => EmptyString
  | [x] => num_to_string x
  | x :: rest => num_to_string x +:+ sep +:+ join sep rest
  end.

Definition is_digit (c : ascii) : bool :=
  let n := Z.of_nat (nat_of_ascii c) in (48 <=? n) && (n <=? 57).

(** A string is held as the list of its code units, which are taken to
    be below 256.  The WhiteSpace and LineTerminator characters in that
    range: TAB, LF, VT, FF, CR, SP and NBSP. *)
Definition is_space (c : ascii) : bool :=
  let n := nat_of_ascii c in
  (n =? 32)%nat || ((9 <=? n)%nat && (n <=? 13)%nat) || (n =? 160)%nat.

Fixpoint skip_spaces (s : string) : string :=
  match s with
  | String c r => if is_space c then skip_spaces r else s
  | EmptyString => s
  end.

Fixpoint digits_prefix (acc : option Z) (s : string) : option Z :=
  match s with
  | String c r =>
      if is_digit c
      then digits_prefix
             (Some (10 * default 0 acc + (Z.of_nat (nat_of_ascii c) - 48))) r
      else acc
  | EmptyString => acc
  end.

Definition hex_digit (c : ascii) : option Z :=
  let n := Z.of_nat (nat_of_ascii c) in
  if (48 <=? n) && (n <=? 57) then Some (n - 48)
  else if (97 <=? n) && (n <=? 102) then Some (n - 87)
  else if (65 <=? n) && (n <=? 70) then Some (n - 55)
  else None.

Fixpoint hex_prefix (acc : option Z) (s : string) : option Z :=
  match s with
  | String c r =>
      match hex_digit c with
      | Some d => hex_prefix (Some (16 * default 0 acc + d)) r
      | None => acc
      end
  | EmptyString => acc
  end.

Definition signed (s : string) : bool * string :=
  match s with
  | String "-" r => (true, r)
  | String "+" r => (false, r)
  | r => (false, r)
  end.

(** The Number value nearest to the integer [a >= 0], as an integer:
    [a] itself below 2^53, and beyond it [a] rounded to 53 significant
    bits, a tie going to the even one.  An integer of 2^1024 or more
    has no finite Number value; no id is that long, and this function
    then answers as if the exponent had no upper limit. *)
Definition round53 (a : Z) : Z :=
  if a <? 2 ^ 53 then a
  else
    let e := Z.log2 a - 52 in
    let q := Z.shiftr a e in
    let r := a - Z.shiftl q e in
    let half := 2 ^ (e - 1) in
    let m := if (half <? r) || ((r =? half) && Z.odd q) then q + 1 else q in
    Z.shiftl m e.

(** The decimal that Number::toString prints for the integral Number
    value [v >= 2^53]: among the multiples of a power of ten whose
    Number value is [v], one of the highest power; of the two around
    [v] the closer one, and on a tie the one with the even digit
    string.  [j] is the power to start from. *)
Fixpoint shortest (j : nat) (v : Z) : num :=
  match j with
  | O => Num v 0
  | S j' =>
      let p := 10 ^ Z.of_nat j in
      let lo := v / p * p in
      let hi := lo + p in
      let ok_lo := (0 <? lo) && (round53 lo =? v) in
      let ok_hi := round53 hi =? v in
      let lower :=
        (v - lo <? hi - v) || ((v - lo =? hi - v) && Z.even (lo / p)) in
      if ok_lo && (negb ok_hi || lower) then Num (lo / p) (Z.of_nat j)
      else if ok_hi then Num (hi / p) (Z.of_nat j)
      else shortest j' v
  end.

(** The Number value of the integer [z]. *)
Definition Number_of_Z (z : Z) : num :=
  let a := Z.abs z in
  if a <? 2 ^ 53 then Num z 0
  else
    let d := shortest (Z.to_nat (Z.log2 a)) (round53 a) in
    Num (Z.sgn z * coef d) (expo d).

Definition with_sign (neg : bool) (z : option Z) : option Z :=
  if neg then Z.opp <$> z else z.

(** [parseInt(s, 10)]: leading white space, an optional sign, then the
    longest prefix of decimal digits, and the Number value of the
    integer they spell; [None] stands for NaN. *)
Definition parseInt10 (s : string) : option Z :=
  let '(neg, r) := signed (skip_spaces s) in
  with_sign neg (round53 <$> digits_prefix None r).

(** [parseInt(s)] without a radix: as above, except that a [0x] or
    [0X] prefix selects radix 16. *)
Definition parseInt (s : string) : option Z :=
  let '(neg, r) := signed (skip_spaces s) in
  match r with
  | String "0" (String "x" h) | String "0" (String "X" h) =>
      with_sign neg (round53 <$> hex_prefix None h)
  | _ => with_sign neg (round53 <$> digits_prefix None r)
  end.

Fixpoint all_digits (s : string) : bool :=
  match s with
  | String c r => is_digit c && all_digits r
  | EmptyString => true
  end.

Fixpoint drop_spaces_end (s : string) : string :=
  match s with
  | String c r =>
      match drop_spaces_end r with
      | EmptyString => if is_space c then EmptyString else String c EmptyString
      | r' => String c r'
      end
  | EmptyString => EmptyString
  end.

(** [Number(s)] on a string (StringToNumber), for the strings that
    spell an integer in decimal, as the fields of a descriptor do:
    white space around, an optional sign, decimal digits; the empty
    string and white space alone give 0.  [None] stands for NaN, which
    is also the answer here for a numeric literal with a fraction, an
    exponent or a radix prefix and for [Infinity], which no id is. *)
Definition Number_of_string (s : string) : option num :=
  let t := drop_spaces_end (skip_spaces s) in
  match t with
  | EmptyString => Some (of_Z 0)
  | _ =>
      let '(neg, r) := signed t in
      match r with
      | EmptyString => None
      | _ =>
          if all_digits r
          then Number_of_Z <$> with_sign neg (digits_prefix None r)
          else None
      end
  end.

End Js.

(* ===================================================================== *)
(** ** SHA-1 (FIPS 180-4), as [createHash('sha1')] computes it            *)
(* ===================================================================== *)

Module Sha1.

Definition w32 (x : Z) : Z := x mod 2 ^ 32.

Definition rotl (n x : Z) : Z :=
  w32 (Z.lor (Z.shiftl x n) (Z.shiftr x (32 - n))).

Definition bytes_of_string (s : string) : list Z :=
  map (fun c => Z.of_nat (nat_of_ascii c)) (list_ascii_of_string s).

(** The 64-bit big-endian encoding of the message length in bits. *)
Definition length_bytes (bits : Z) : list Z :=
  map (fun i => Z.shiftr bits (8 * (7 - Z.of_nat i)) mod 256) (seq 0 8).

(** Padding: one [0x80] byte, zero bytes up to 56 modulo 64, then the
    length. *)
Definition pad (msg : list Z) : list Z :=
  let l := Z.of_nat (length msg) in
  let z := (55 - l) mod 64 in
  msg ++ [128] ++ repeat 0 (Z.to_nat z) ++ length_bytes (8 * l).

Fixpoint words (bs : list Z) : list Z :=
  match bs with
  | a :: b :: c :: d :: rest =>
      (Z.shiftl a 24 + Z.shiftl b 16 + Z.shiftl c 8 + d) :: words rest
  | _ => []
  end.

Fixpoint blocks (fuel : nat) (ws : list Z) : list (list Z) :=
  match fuel, ws with
  | S f, _ :: _ => take 16 ws :: blocks f (drop 16 ws)
  | _, _ => []
  end.

Definition f_t (t : nat) (b c d : Z) : Z :=
  if (t <? 20)%nat then Z.lor (Z.land b c) (Z.land (Z.lxor b (2 ^ 32 - 1)) d)
  else if (t <? 40)%nat then Z.lxor (Z.lxor b c) d
  else if (t <? 60)%nat then
    Z.lor (Z.lor (Z.land b c) (Z.land b d)) (Z.land c d)
  else Z.lxor (Z.lxor b c) d.

Definition k_t (t : nat) : Z :=
  if (t <? 20)%nat then 0x5a827999
  else if (t <? 40)%nat then 0x6ed9eba1
  else if (t <? 60)%nat then 0x8f1bbcdc
  else 0xca62c1d6.

Record regs := Regs { ra : Z; rb : Z; rc : Z; rd : Z; re : Z }.

(** One round.  [win] holds the message schedule [W t .. W (t+15)]. *)
Definition round (st : regs * list Z) (t : nat) : regs * list Z :=
  let '(Regs a b c d e, win) := st in
  let w := nth 0 win 0 in
  let next :=
    rotl 1 (Z.lxor (Z.lxor (Z.lxor (nth 13 win 0) (nth 8 win 0))
                           (nth 2 win 0)) w) in
  let tmp := w32 (rotl 5 a + f_t t b c d + e + k_t t + w) in
  (Regs tmp a (rotl 30 b) c d, drop 1 win ++ [next]).

Definition compress (h : regs) (block : list Z) : regs :=
  let '(Regs a b c d e, _) := foldl round (h, block) (seq 0 80) in
  Regs (w32 (ra h + a)) (w32 (rb h + b)) (w32 (rc h + c))
       (w32 (rd h + d)) (w32 (re h + e)).

Definition h0 : regs :=
  Regs 0x67452301 0xefcdab89 0x98badcfe 0x10325476 0xc3d2e1f0.

Definition hex_char (n : Z) : ascii :=
  ascii_of_nat (Z.to_nat (if n <? 10 then 48 + n else 87 + n)).

Definition hex_word (w : Z) : string :=
  string_of_list_ascii
    (map (fun i => hex_char (Z.shiftr w (4 * (7 - Z.of_nat i)) mod 16))
         (seq 0 8)).

(** [createHash('sha1').update(s).digest('hex')]. *)
Definition digest_hex (s : string) : string :=
  let bs := pad (bytes_of_string s) in
  let '(Regs a b c d e) :=
    foldl compress h0 (blocks (length bs) (words bs)) in
  hex_word a +:+ hex_word b +:+ hex_word c +:+ hex_word d +:+ hex_word e.

End Sha1.

(* ===================================================================== *)
(** ** Schemas: [history.schema.ts], [asset.schema.ts]                    *)
(* ===================================================================== *)

Module Schema.
Import Js.

(** [enum HistoryType]. *)
Inductive HistoryType :=
| TRADE | TRADE_BOT | TRADE_CANCELLED
| MARKET_LISTING | MARKET_BUY | MARKET_RELISTING | MARKET_CANCELLED
| STICKER_APPLY | STICKER_REMOVE | STICKER_CHANGE | STICKER_SCRAPE
| UNBOXED | CRAFTED | TRADED_UP | PURCHASED_INGAME | DROPPED
| NAMETAG_ADDED | NAMETAG_REMOVED
| KEYCHAIN_ADDED | KEYCHAIN_REMOVED | KEYCHAIN_CHANGED
| STORAGE_UNIT_STORED | STORAGE_UNIT_RETRIEVED | GIFT_RECEIVED | GIFT_SENT
| CONTRACT_LISTED | CONTRACT_COMPLETED | CONTRACT_CANCELLED
| UNKNOWN.

Definition code (t : HistoryType) : Z :=
  match t with
  | TRADE => 1 | TRADE_BOT => 2 | TRADE_CANCELLED => 3
  | MARKET_LISTING => 4 | MARKET_BUY => 5 | MARKET_RELISTING => 6
  | MARKET_CANCELLED => 7
  | STICKER_APPLY => 8 | STICKER_REMOVE => 9 | STICKER_CHANGE => 10
  | STICKER_SCRAPE => 11
  | UNBOXED => 12 | CRAFTED => 13 | TRADED_UP => 14
  | PURCHASED_INGAME => 15 | DROPPED => 16
  | NAMETAG_ADDED => 17 | NAMETAG_REMOVED => 18
  | KEYCHAIN_ADDED => 19 | KEYCHAIN_REMOVED => 20 | KEYCHAIN_CHANGED => 21
  | STORAGE_UNIT_STORED => 22 | STORAGE_UNIT_RETRIEVED => 23
  | GIFT_RECEIVED => 24 | GIFT_SENT => 25
  | CONTRACT_LISTED => 26 | CONTRACT_COMPLETED => 27
  | CONTRACT_CANCELLED => 28
  | UNKNOWN => 99
  end.

(** A sticker or keychain of an inspect result ([StickerKeychain]). *)
Record Sticker := {
  slot : field;
  sticker_id : field;
  wear : field;
  scale : field;
  rotation : field;
  tint_id : field;
  offset_x : field;
  offset_y : field;
  offset_z : field;
  pattern : field;
}.

(** The inspect result raised by the game transport: the decoded item
    preview block.  Every scalar is a number or [null]; the two arrays
    may be missing. *)
Record InspectResponse := {
  itemid : string;
  defindex : field;
  paintindex : field;
  rarity : field;
  quality : field;
  paintwear : field;
  paintseed : field;
  killeaterscoretype : field;
  killeatervalue : field;
  customname : option string;
  stickers : option (list Sticker);
  inventory : field;
  origin : field;
  questid : field;
  dropreason : field;
  musicindex : field;
  entindex : field;
  petindex : field;
  keychains : option (list Sticker);
}.

(** The owner and proof token handed to [handleInspectResult]. *)
Record InspectData := { ms : value; d : string }.

(** A document of [inspect_assets]: the paths [saveAsset] sets. *)
Record Asset := {
  a_uniqueId : string;
  a_ms : value;
  a_d : string;
  a_assetId : Z;
  a_paintSeed : field;
  a_paintIndex : field;
  a_paintWear : field;
  a_customName : option string;
  a_defIndex : field;
  a_origin : field;
  a_rarity : field;
  a_questId : field;
  a_stickers : option (list Sticker);
  a_quality : field;
  a_keychains : option (list Sticker);
  a_killeaterScoreType : field;
  a_killeaterValue : field;
  a_inventory : field;
  a_petIndex : field;
  a_musicIndex : field;
  a_entIndex : field;
  a_dropReason : field;
}.

(** A document of [inspect_history]. *)
Record History := {
  h_uniqueId : string;
  h_assetId : Z;
  h_prevAssetId : option Z;
  h_owner : value;
  h_prevOwner : value;
  h_d : string;
  h_stickers : option (list Sticker);
  h_keychains : option (list Sticker);
  h_prevStickers : option (list Sticker);
  h_prevKeychains : option (list Sticker);
  h_type : HistoryType;
}.

(** The cast of a value to a path that the schema declares [Number]
    (Mongoose's [castNumber]): [null] and [undefined] stay, the empty
    string becomes [null], a string or a boolean goes through
    [Number(...)], and NaN is a cast error, [None]. *)
Definition cast_Number (v : value) : option value :=
  match v with
  | VUndefined => Some VUndefined
  | VNull => Some VNull
  | VBool b => Some (VNum (of_Z (if b then 1 else 0)))
  | VNum n => Some (VNum n)
  | VStr s =>
      if String.eqb s EmptyString then Some VNull
      else VNum <$> Number_of_string s
  end.

(** The update [{ $set: assetData }] as the Asset schema casts it:
    [ms] is declared [Number]; the paths that [assetData] holds as
    numbers or strings already are as they are. *)
Definition cast_asset (a : Asset) : option Asset :=
  match cast_Number (a_ms a) with
  | None => None
  | Some ms' =>
      Some {| a_uniqueId := a_uniqueId a;
              a_ms := ms';
              a_d := a_d a;
              a_assetId := a_assetId a;
              a_paintSeed := a_paintSeed a;
              a_paintIndex := a_paintIndex a;
              a_paintWear := a_paintWear a;
              a_customName := a_customName a;
              a_defIndex := a_defIndex a;
              a_origin := a_origin a;
              a_rarity := a_rarity a;
              a_questId := a_questId a;
              a_stickers := a_stickers a;
              a_quality := a_quality a;
              a_keychains := a_keychains a;
              a_killeaterScoreType := a_killeaterScoreType a;
              a_killeaterValue := a_killeaterValue a;
              a_inventory := a_inventory a;
              a_petIndex := a_petIndex a;
              a_musicIndex := a_musicIndex a;
              a_entIndex := a_entIndex a;
              a_dropReason := a_dropReason a |}
  end.

(** The document as the History schema casts it: [owner] and
    [prevOwner] are declared [Number]. *)
Definition cast_history (h : History) : option History :=
  match cast_Number (h_owner h), cast_Number (h_prevOwner h) with
  | Some owner', Some prevOwner' =>
      Some {| h_uniqueId := h_uniqueId h;
              h_assetId := h_assetId h;
              h_prevAssetId := h_prevAssetId h;
              h_owner := owner';
              h_prevOwner := prevOwner';
              h_d := h_d h;
              h_stickers := h_stickers h;
              h_keychains := h_keychains h;
              h_prevStickers := h_prevStickers h;
              h_prevKeychains := h_prevKeychains h;
              h_type := h_type h |}
  | _, _ => None
  end.

(** The validators of the History schema that a document built by
    [saveHistory] can fail: [owner] is required, and [d] has
    [maxlength: 64]. *)
Definition valid_history (h : History) : bool :=
  match h_owner h with
  | VUndefined | VNull => false
  | _ => (String.length (h_d h) <=? 64)%nat
  end.

(** What [saveHistory] and [getHistoryType] read from their [history]
    argument, which the source types [any]: the properties [owner],
    [ms], [assetId], [stickers] and [keychains]. *)
Record Prior := {
  p_owner : value;
  p_ms : value;
  p_assetId : option Z;
  p_stickers : option (list Sticker);
  p_keychains : option (list Sticker);
}.

(** The [history] that [findHistory] returns is a document of the
    asset collection.  The Asset schema declares no [owner] path, so
    reading [history.owner] on it yields [undefined]. *)
Definition prior_of_asset (a : Asset) : Prior :=
  {| p_owner := VUndefined;
     p_ms := a_ms a;
     p_assetId := Some (a_assetId a);
     p_stickers := a_stickers a;
     p_keychains := a_keychains a |}.

End Schema.

(* ===================================================================== *)
(** ** The persistence store (Mongoose models of the two collections)     *)
(* ===================================================================== *)

Module Store.
Import Js Schema.

(** A thrown JavaScript [Error], by its message. *)
Record Error := Err { message : string }.

Inductive result (A : Type) :=
| Ok (a : A)
| Throw (e : Error).
Arguments Ok {A} a.
Arguments Throw {A} e.

(** Both collections in insertion order, which is also the order of
    [createdAt].  The store may refuse any operation (outage, violated
    unique index): the [n]-th operation issued fails when [fails n]
    holds.  Casts and validators are those of the schemas. *)
Record t := {
  assets : list Asset;
  histories : list History;
  ops : nat;
  fails : nat -> bool;
}.

Definition empty (f : nat -> bool) : t :=
  {| assets := []; histories := []; ops := 0; fails := f |}.

(** Computations that await store operations and may throw. *)
Definition M (A : Type) : Type := t -> result A * t.

Definition ret {A} (a : A) : M A := fun st => (Ok a, st).
Definition throw {A} (e : Error) : M A := fun st => (Throw e, st).
Definition bind {A B} (m : M A) (k : A -> M B) : M B :=
  fun st =>
    match m st with
    | (Ok a, st') => k a st'
    | (Throw e, st') => (Throw e, st')
    end.

(** [try { m } catch (e) { h e }]. *)
Definition try_catch {A} (m : M A) (h : Error -> M A) : M A :=
  fun st =>
    match m st with
    | (Ok a, st') => (Ok a, st')
    | (Throw e, st') => h e st'
    end.

Definition tick (st : t) : t :=
  {| assets := assets st; histories := histories st;
     ops := S (ops st); fails := fails st |}.

(** One awaited operation on a collection. *)
Definition operation {A} (body : t -> result A * t) : M A :=
  fun st =>
    if fails st (ops st)
    then (Throw (Err "store operation failed"), tick st)
    else body (tick st).

(** A query or update whose [assetId] is NaN is rejected by the cast. *)
Definition cast_assetId {A} (n : option Z) (body : Z -> t -> result A * t)
  : t -> result A * t :=
  fun st =>
    match n with
    | Some k => body k st
    | None => (Throw (Err "Cast to Number failed"), st)
    end.

(** [assetModel.findOne({ assetId }).exec()]. *)
Definition asset_findOne_assetId (n : option Z) : M (option Asset) :=
  operation (cast_assetId n (fun k st =>
    (Ok (find (fun a => a_assetId a =? k) (assets st)), st))).

(** [assetModel.findOne(filter).sort({ createdAt: -1 }).exec()]: the
    most recently created match. *)
Definition asset_findLatest (filter : Asset -> bool) : M (option Asset) :=
  operation (fun st => (Ok (find filter (rev (assets st))), st)).

Fixpoint replace_first (p : Asset -> bool) (new : Asset) (l : list Asset)
  : option (list Asset) :=
  match l with
  | [] => None
  | a :: rest =>
      if p a then Some (new :: rest)
      else cons a <$> replace_first p new rest
  end.

(** [assetModel.findOneAndUpdate({ uniqueId }, { $set: data },
    { upsert: true, new: true }).exec()]. *)
Definition asset_upsert (n : option Z) (data : Z -> Asset) : M Asset :=
  operation (cast_assetId n (fun k st =>
    match cast_asset (data k) with
    | None => (Throw (Err "Cast to Number failed"), st)
    | Some doc =>
        let same := fun a => String.eqb (a_uniqueId a) (a_uniqueId doc) in
        let docs :=
          match replace_first same doc (assets st) with
          | Some l => l
          | None => assets st ++ [doc]
          end in
        (Ok doc, {| assets := docs; histories := histories st;
                    ops := ops st; fails := fails st |})
    end)).

(** [historyModel.findOne({ assetId }).exec()]. *)
Definition history_findOne_assetId (n : option Z) : M (option History) :=
  operation (cast_assetId n (fun k st =>
    (Ok (find (fun h => h_assetId h =? k) (histories st)), st))).

(** [historyModel.create(doc)]: the document is cast and validated,
    then inserted. *)
Definition history_create (n : option Z) (doc : Z -> History) : M unit :=
  operation (cast_assetId n (fun k st =>
    match cast_history (doc k) with
    | None => (Throw (Err "Cast to Number failed"), st)
    | Some h =>
        if valid_history h
        then (Ok tt, {| assets := assets st;
                        histories := histories st ++ [h];
                        ops := ops st; fails := fails st |})
        else (Throw (Err "History validation failed"), st)
    end)).

End Store.

Declare Scope store_scope.
Delimit Scope store_scope with store.
Notation "'let!' x ':=' m 'in' k" := (Store.bind m (fun x => k))
  (at level 10, x name, m at level 100, k at level 200) : store_scope.
Notation "'do!' m 'in' k" := (Store.bind m (fun _ => k))
  (at level 10, m at level 100, k at level 200) : store_scope.

(* ===================================================================== *)
(** ** Handles shared by the queue and the coordinator                    *)
(* ===================================================================== *)

Module Handle.
Import Js.

(** The descriptor [{ s, a, d, m }] produced by the parser. *)
Record Link := { l_s : string; l_a : string; l_d : string; l_m : string }.

Inductive Priority := high | normal | low.

(** The [resolve]/[reject] pair stored with a queue entry: either the
    one of the promise returned to the caller, or the handlers of
    [processInspectionInBackground], which only log and count. *)
Inductive Completion :=
| Caller (promise : nat)
| Background (assetId : string).

(** The object handed to [queueService.add]. *)
Record QueueItem := {
  q_ms : string;
  q_d : string;
  q_completion : Completion;
  q_timeoutId : nat;
  q_retryCount : Z;
  q_inspectUrl : Link;
  q_priority : Priority;
}.

(** [new HttpException(message, status)]. *)
Record HttpException := { message : string; status : Z }.

Definition TOO_MANY_REQUESTS : Z := 429.
Definition INTERNAL_SERVER_ERROR : Z := 500.
Definition GATEWAY_TIMEOUT : Z := 504.

End Handle.

(* ===================================================================== *)
(** ** The admission queue                                                *)
(* ===================================================================== *)

Module QueueService.
Import Handle.

(** Modelled from the spec: [queue.service.ts] (class [QueueService])
    is not among the sources; only its callers are.  Section 4.3 gives
    its contract: [add(assetId, entry)] answers Ok, Coalesced or Full,
    the capacity is [MAX_QUEUE_SIZE] (default 100), entries are keyed
    by asset id, and a submission for an asset already queued attaches
    its completion to the existing entry.  The deadline that an entry
    carries is the timer [q_timeoutId] of its item, which the caller
    arms with [QUEUE_TIMEOUT] before it adds the entry; what happens
    when it expires is [expire] below. *)
Record Entry := { item : QueueItem; attached : list Completion }.

Record t := { entries : gmap string Entry; capacity : nat }.

Inductive Added := AddedOk | Coalesced | Full.

Definition empty (max : nat) : t := {| entries := ∅; capacity := max |}.

Definition size (q : t) : nat := size (entries q).

Definition isFull (q : t) : bool := (capacity q <=? size q)%nat.

Definition add (assetId : string) (i : QueueItem) (q : t) : Added * t :=
  match entries q !! assetId with
  | Some e =>
      (Coalesced,
       {| entries :=
            <[assetId := {| item := item e;
                            attached := attached e ++ [q_completion i] |}]>
              (entries q);
          capacity := capacity q |})
  | None =>
      if isFull q then (Full, q)
      else (AddedOk,
            {| entries :=
                 <[assetId := {| item := i; attached := [q_completion i] |}]>
                   (entries q);
               capacity := capacity q |})
  end.

Definition remove (assetId : string) (q : t) : t :=
  {| entries := delete assetId (entries q); capacity := capacity q |}.

(** Modelled from the spec: the paragraph "Timeouts" of section 4.3.
    "On expiry, the entry is removed, all attached completions receive
    InspectTimeout": the completions to notify, and the queue without
    the entry.  The callers under [src/] never ask the queue for this;
    they arm the timer of an entry themselves, with the callbacks
    modelled in [InspectService.fire]. *)
Definition expire (assetId : string) (q : t) : list Completion * t :=
  match entries q !! assetId with
  | Some e => (attached e, remove assetId q)
  | None => ([], q)
  end.

(** [getQueueMetrics().items]: the priority of every entry. *)
Definition metrics_items (q : t) : list Priority :=
  (fun e => q_priority (item e.2)) <$> map_to_list (entries q).

End QueueService.

(* ===================================================================== *)
(** ** [InspectService]                                                   *)
(* ===================================================================== *)

Module InspectService.
Import Js Schema Handle.
Local Open Scope store_scope.

(** The argument of [generateUniqueId]. *)
Record UniqueIdItem := {
  paintSeed : field;
  paintIndex : field;
  paintWear : field;
  defIndex : field;
  u_origin : field;
  u_rarity : field;
  questId : field;
  u_quality : field;
  dropReason : field;
}.

Definition generateUniqueId (item : UniqueIdItem) : string :=
  let values :=
    [ or_zero (paintSeed item);
      or_zero (paintIndex item);
      or_zero (paintWear item);
      or_zero (defIndex item) ] in
  let stringToHash := join "-" values in
  substring 0 8 (Sha1.digest_hex stringToHash).

(** The callback of [previousStickers.find] for one current sticker. *)
Definition same_placement (current prev : Sticker) : bool :=
  field_eq (offset_x prev) (offset_x current) &&
  field_eq (offset_y prev) (offset_y current) &&
  field_eq (offset_z prev) (offset_z current) &&
  field_eq (rotation prev) (rotation current) &&
  field_eq (slot prev) (slot current) &&
  field_eq (sticker_id prev) (sticker_id current).

(** The [for (const current of currentStickers)] loop, from the
    sticker [rest] starts with; [n] is [currentStickers.length]. *)
Fixpoint scan_stickers (n : nat) (previousStickers rest : list Sticker)
  : option HistoryType :=
  match rest with
  | [] => None
  | current :: rest' =>
      match find (same_placement current) previousStickers with
      | None =>
          if (n =? length previousStickers)%nat
          then Some STICKER_CHANGE
          else Some STICKER_REMOVE
      | Some previous =>
          if negb (field_eq (wear current) (wear previous)) then
            if field_gt (wear current) (wear previous)
            then Some STICKER_SCRAPE
            else Some STICKER_CHANGE
          else scan_stickers n previousStickers rest'
      end
  end.

Definition detectStickerChanges
    (currentStickers previousStickers : option (list Sticker))
  : option HistoryType :=
  match currentStickers, previousStickers with
  | Some cur, Some prev =>
      if (length prev <? length cur)%nat then Some STICKER_APPLY
      else if (length cur <? length prev)%nat then Some STICKER_REMOVE
      else scan_stickers (length cur) prev cur
  | _, _ => None
  end.

Definition json_field (f : field) : string :=
  match f with Some n => num_to_string n | None => "null" end.

Definition json_key (name : string) (f : field) : string :=
  String (ascii_of_nat 34) name +:+ String (ascii_of_nat 34) ":" +:+
  json_field f.

Definition json_sticker (k : Sticker) : string :=
  "{" +:+ json_key "slot" (slot k) +:+
  "," +:+ json_key "sticker_id" (sticker_id k) +:+
  "," +:+ json_key "wear" (wear k) +:+
  "," +:+ json_key "scale" (scale k) +:+
  "," +:+ json_key "rotation" (rotation k) +:+
  "," +:+ json_key "tint_id" (tint_id k) +:+
  "," +:+ json_key "offset_x" (offset_x k) +:+
  "," +:+ json_key "offset_y" (offset_y k) +:+
  "," +:+ json_key "offset_z" (offset_z k) +:+
  "," +:+ json_key "pattern" (pattern k) +:+ "}".

Fixpoint json_elements (l : list Sticker) : string :=
  match l with
  | [] => EmptyString
  | [k] => json_sticker k
  | k :: rest => json_sticker k +:+ "," +:+ json_elements rest
  end.

(** [JSON.stringify] of an array of stickers or keychains. *)
Definition json_stringify (l : list Sticker) : string :=
  "[" +:+ json_elements l +:+ "]".

Definition detectKeychainChanges
    (currentKeychains previousKeychains : option (list Sticker))
  : option HistoryType :=
  match currentKeychains, previousKeychains with
  | Some cur, Some prev =>
      if (length cur =? 0)%nat && (0 <? length prev)%nat
      then Some KEYCHAIN_REMOVED
      else if (0 <? length cur)%nat && (length prev =? 0)%nat
      then Some KEYCHAIN_ADDED
      else if negb (String.eqb (json_stringify cur) (json_stringify prev))
      then Some KEYCHAIN_CHANGED
      else None
  | _, _ => None
  end.

Definition field_is (f : field) (z : Z) : bool := field_eq f (Some (of_Z z)).

Definition getHistoryType
    (response : InspectResponse) (history : option Prior)
    (inspectData : InspectData) : HistoryType :=
  match history with
  | None =>
      if field_is (origin response) 8 then TRADED_UP
      else if field_is (origin response) 4 then DROPPED
      else if field_is (origin response) 1 then PURCHASED_INGAME
      else if field_is (origin response) 2 then UNBOXED
      else if field_is (origin response) 3 then CRAFTED
      else UNKNOWN
  | Some h =>
      let owner := p_owner h in
      if negb (strict_eq owner (ms inspectData))
         && opt_starts_with "7656" owner
      then TRADE
      else if negb (strict_eq owner (ms inspectData))
              && (truthy owner && negb (opt_starts_with "7656" owner))
      then MARKET_BUY
      else if truthy owner && opt_starts_with "7656" owner
              && negb (opt_starts_with "7656" (ms inspectData))
      then MARKET_LISTING
      else if strict_eq owner (ms inspectData) then
        match detectStickerChanges (stickers response) (p_stickers h) with
        | Some stickerChanges => stickerChanges
        | None =>
            match detectKeychainChanges (keychains response) (p_keychains h) with
            | Some keychainChanges => keychainChanges
            | None => UNKNOWN
            end
        end
      else UNKNOWN
  end.

(** The filter of [findHistory]. *)
Definition same_item (response : InspectResponse) (a : Asset) : bool :=
  field_eq (a_paintWear a) (paintwear response) &&
  field_eq (a_paintIndex a) (paintindex response) &&
  field_eq (a_defIndex a) (defindex response) &&
  field_eq (a_paintSeed a) (paintseed response) &&
  field_eq (a_origin a) (origin response) &&
  field_eq (a_questId a) (questid response) &&
  field_eq (a_rarity a) (rarity response).

Definition findHistory (response : InspectResponse)
  : Store.M (option Asset) :=
  Store.asset_findLatest (same_item response).

Definition saveHistory
    (response : InspectResponse) (history : option Prior)
    (inspectData : InspectData) (uniqueId : string) : Store.M unit :=
  let! existing := Store.history_findOne_assetId (parseInt (itemid response)) in
  match existing with
  | Some _ => Store.ret tt
  | None =>
      Store.history_create (parseInt (itemid response)) (fun assetId =>
        {| h_uniqueId := uniqueId;
           h_assetId := assetId;
           h_prevAssetId := h ← history; p_assetId h;
           h_owner := ms inspectData;
           h_prevOwner := from_option p_ms VUndefined history;
           h_d := d inspectData;
           h_stickers := stickers response;
           h_keychains := keychains response;
           h_prevStickers := h ← history; p_stickers h;
           h_prevKeychains := h ← history; p_keychains h;
           h_type := getHistoryType response history inspectData |})
  end.

Definition assetData
    (response : InspectResponse) (inspectData : InspectData)
    (uniqueId : string) (assetId : Z) : Asset :=
  {| a_uniqueId := uniqueId;
     a_ms := ms inspectData;
     a_d := d inspectData;
     a_assetId := assetId;
     a_paintSeed := null_to_zero (paintseed response);
     a_paintIndex := null_to_zero (paintindex response);
     a_paintWear := null_to_zero (paintwear response);
     a_customName := customname response;
     a_defIndex := defindex response;
     a_origin := origin response;
     a_rarity := rarity response;
     a_questId := questid response;
     a_stickers := stickers response;
     a_quality := quality response;
     a_keychains := keychains response;
     a_killeaterScoreType := killeaterscoretype response;
     a_killeaterValue := killeatervalue response;
     a_inventory := inventory response;
     a_petIndex := petindex response;
     a_musicIndex := musicindex response;
     a_entIndex := entindex response;
     a_dropReason := dropreason response |}.

Definition saveAsset
    (response : InspectResponse) (inspectData : InspectData)
    (uniqueId : string) : Store.M (option Asset) :=
  do! Store.asset_upsert (parseInt (itemid response))
        (assetData response inspectData uniqueId) in
  Store.asset_findOne_assetId (parseInt (itemid response)).

(** The guard of [handleInspectResult] in front of the history write. *)
Definition history_guard (response : InspectResponse) : bool :=
  field_truthy (paintseed response) &&
  negb (field_eq (paintwear response) None) &&
  negb (field_eq (paintindex response) None).

Definition uniqueId_of (response : InspectResponse) : string :=
  generateUniqueId
    {| paintSeed := paintseed response;
       paintIndex := null_to_zero (paintindex response);
       paintWear := null_to_zero (paintwear response);
       defIndex := defindex response;
       u_origin := origin response;
       u_rarity := rarity response;
       questId := questid response;
       u_quality := quality response;
       dropReason := dropreason response |}.

(** The query object of the HTTP handler ([inspect.dto.ts] is not
    among the sources): the inspect link or its four parts, and the
    three optional flags the service reads. *)
Record InspectDto := {
  url : option string;
  dto_s : option string;
  dto_a : option string;
  dto_d : option string;
  dto_m : option string;
  refresh : bool;
  reply : option bool;
  lowPriority : bool;
}.

Section Collaborators.

(** [FormatService.formatResponse] and [ParseService.parse] are not
    among the sources; both are taken as given.  The parser either
    returns a descriptor or throws. *)
Context {Formatted : Type}.
Variable formatResponse : Asset -> Formatted.
Variable parse : InspectDto -> HttpException + Link.

Definition handleInspectResult
    (response : InspectResponse) (inspectData : InspectData)
  : Store.M Formatted :=
  Store.try_catch
    (let uniqueId := uniqueId_of response in
     do! (if history_guard response
          then let! history := findHistory response in
               saveHistory response (prior_of_asset <$> history)
                           inspectData uniqueId
          else Store.ret tt) in
     let! asset := saveAsset response inspectData uniqueId in
     match asset with
     | None =>
         Store.throw
           (Store.Err ("No asset found for item " +:+ itemid response))
     | Some asset => Store.ret (formatResponse asset)
     end)
    (fun error => Store.throw error).

Definition checkCache (assetId d : string) : Store.M (option Formatted) :=
  Store.try_catch
    (let! asset := Store.asset_findOne_assetId (parseInt10 assetId) in
     match asset with
     | Some asset => Store.ret (Some (formatResponse asset))
     | None => Store.ret None
     end)
    (fun e => Store.ret None).

(** *** The service object and the events that drive it *)

(** The value a caller of [inspectItem] receives: a formatted item,
    or the plain acknowledgment object of the background path. *)
Inductive Reply :=
| Item (iteminfo : Formatted)
| Object (props : list (string * value)).

(** [o[key]] on a plain object. *)
Fixpoint prop (o : list (string * value)) (key : string) : value :=
  match o with
  | [] => VUndefined
  | (k, v) :: rest => if String.eqb k key then v else prop rest key
  end.

Inductive Outcome :=
| Resolved (r : Reply)
| Rejected (e : HttpException).

(** What [inspectItem] has done by the time it hands control back:
    resolved or rejected without waiting for a bot, or left a
    pending promise that a later event settles. *)
Inductive Completed :=
| Returned (r : Reply)
| Threw (e : HttpException)
| Awaiting (promise : nat).

(** The two [setTimeout] callbacks. *)
Inductive Callback :=
| ReplyTimeout (promise : nat)
| BackgroundTimeout (assetId : string).

Record Timer := { callback : Callback; delay : Z }.

(** The [.then]/[.catch] handlers attached to a worker request. *)
Inductive Continuation :=
| ReplyCont (promise timeoutId : nat) (assetId : string)
            (inspectData : InspectData)
| BackgroundCont (assetId : string) (inspectData : InspectData).

(** A call of [workerManagerService.inspectItem]. *)
Record WorkerRequest := {
  w_s : string; w_a : string; w_d : string; w_m : string;
  w_priority : Priority;
}.

(** The value type of the private [inspects] map. *)
Record InspectsEntry := {
  i_ms : string;
  i_d : string;
  i_completion : Completion;
  i_timeoutId : nat;
  i_startTime : option Z;
  i_retryCount : option Z;
  i_inspectUrl : option Link;
  i_priority : string;
}.

Record Counters := {
  currentRequests : nat;
  success : nat;
  cached : nat;
  failed : nat;
  timeouts : nat;
}.

(** The service with its collaborators' state: the queue, the store,
    the requests handed to the worker manager and the number of
    [incrementCached] calls it received, the handlers still waiting
    for a worker, the pending timers and the promises handed out. *)
Record State := {
  QUEUE_TIMEOUT : Z;
  MAX_QUEUE_SIZE : Z;
  inspects : gmap string InspectsEntry;
  counters : Counters;
  queue : QueueService.t;
  store : Store.t;
  requests : list WorkerRequest;
  wm_cached : nat;
  awaiting : gmap nat Continuation;
  timers : gmap nat Timer;
  next_timer : nat;
  settled : gmap nat Outcome;
  next_promise : nat;
}.

Definition with_counters (f : Counters -> Counters) (st : State) : State :=
  {| QUEUE_TIMEOUT := QUEUE_TIMEOUT st; MAX_QUEUE_SIZE := MAX_QUEUE_SIZE st;
     inspects := inspects st; counters := f (counters st);
     queue := queue st; store := store st; requests := requests st;
     wm_cached := wm_cached st; awaiting := awaiting st;
     timers := timers st; next_timer := next_timer st;
     settled := settled st; next_promise := next_promise st |}.

Definition with_queue (f : QueueService.t -> QueueService.t) (st : State)
  : State :=
  {| QUEUE_TIMEOUT := QUEUE_TIMEOUT st; MAX_QUEUE_SIZE := MAX_QUEUE_SIZE st;
     inspects := inspects st; counters := counters st;
     queue := f (queue st); store := store st; requests := requests st;
     wm_cached := wm_cached st; awaiting := awaiting st;
     timers := timers st; next_timer := next_timer st;
     settled := settled st; next_promise := next_promise st |}.

Definition with_store (s : Store.t) (st : State) : State :=
  {| QUEUE_TIMEOUT := QUEUE_TIMEOUT st; MAX_QUEUE_SIZE := MAX_QUEUE_SIZE st;
     inspects := inspects st; counters := counters st;
     queue := queue st; store := s; requests := requests st;
     wm_cached := wm_cached st; awaiting := awaiting st;
     timers := timers st; next_timer := next_timer st;
     settled := settled st; next_promise := next_promise st |}.

Definition with_timers (f : gmap nat Timer -> gmap nat Timer) (st : State)
  : State :=
  {| QUEUE_TIMEOUT := QUEUE_TIMEOUT st; MAX_QUEUE_SIZE := MAX_QUEUE_SIZE st;
     inspects := inspects st; counters := counters st;
     queue := queue st; store := store st; requests := requests st;
     wm_cached := wm_cached st; awaiting := awaiting st;
     timers := f (timers st); next_timer := next_timer st;
     settled := settled st; next_promise := next_promise st |}.

Definition with_awaiting
    (f : gmap nat Continuation -> gmap nat Continuation) (st : State)
  : State :=
  {| QUEUE_TIMEOUT := QUEUE_TIMEOUT st; MAX_QUEUE_SIZE := MAX_QUEUE_SIZE st;
     inspects := inspects st; counters := counters st;
     queue := queue st; store := store st; requests := requests st;
     wm_cached := wm_cached st; awaiting := f (awaiting st);
     timers := timers st; next_timer := next_timer st;
     settled := settled st; next_promise := next_promise st |}.

Definition with_settled
    (f : gmap nat Outcome -> gmap nat Outcome) (st : State) : State :=
  {| QUEUE_TIMEOUT := QUEUE_TIMEOUT st; MAX_QUEUE_SIZE := MAX_QUEUE_SIZE st;
     inspects := inspects st; counters := counters st;
     queue := queue st; store := store st; requests := requests st;
     wm_cached := wm_cached st; awaiting := awaiting st;
     timers := timers st; next_timer := next_timer st;
     settled := f (settled st); next_promise := next_promise st |}.

Definition bump_currentRequests (c : Counters) : Counters :=
  {| currentRequests := S (currentRequests c); success := success c;
     cached := cached c; failed := failed c; timeouts := timeouts c |}.
Definition bump_success (c : Counters) : Counters :=
  {| currentRequests := currentRequests c; success := S (success c);
     cached := cached c; failed := failed c; timeouts := timeouts c |}.
Definition bump_cached (c : Counters) : Counters :=
  {| currentRequests := currentRequests c; success := success c;
     cached := S (cached c); failed := failed c; timeouts := timeouts c |}.
Definition bump_failed (c : Counters) : Counters :=
  {| currentRequests := currentRequests c; success := success c;
     cached := cached c; failed := S (failed c); timeouts := timeouts c |}.
Definition bump_timeouts (c : Counters) : Counters :=
  {| currentRequests := currentRequests c; success := success c;
     cached := cached c; failed := failed c; timeouts := S (timeouts c) |}.

(** [workerManagerService.incrementCached()]. *)
Definition incrementCached (st : State) : State :=
  {| QUEUE_TIMEOUT := QUEUE_TIMEOUT st; MAX_QUEUE_SIZE := MAX_QUEUE_SIZE st;
     inspects := inspects st; counters := counters st;
     queue := queue st; store := store st; requests := requests st;
     wm_cached := S (wm_cached st); awaiting := awaiting st;
     timers := timers st; next_timer := next_timer st;
     settled := settled st; next_promise := next_promise st |}.

(** [setTimeout(cb, ms)]: a fresh timer id. *)
Definition setTimeout (cb : Callback) (ms : Z) (st : State) : nat * State :=
  (next_timer st,
   {| QUEUE_TIMEOUT := QUEUE_TIMEOUT st; MAX_QUEUE_SIZE := MAX_QUEUE_SIZE st;
      inspects := inspects st; counters := counters st;
      queue := queue st; store := store st; requests := requests st;
      wm_cached := wm_cached st; awaiting := awaiting st;
      timers := <[next_timer st := {| callback := cb; delay := ms |}]>
                  (timers st);
      next_timer := S (next_timer st);
      settled := settled st; next_promise := next_promise st |}).

Definition clearTimeout (id : nat) (st : State) : State :=
  with_timers (delete id) st.

(** [new Promise(...)]: a fresh, pending promise. *)
Definition new_promise (st : State) : nat * State :=
  (next_promise st,
   {| QUEUE_TIMEOUT := QUEUE_TIMEOUT st; MAX_QUEUE_SIZE := MAX_QUEUE_SIZE st;
      inspects := inspects st; counters := counters st;
      queue := queue st; store := store st; requests := requests st;
      wm_cached := wm_cached st; awaiting := awaiting st;
      timers := timers st; next_timer := next_timer st;
      settled := settled st; next_promise := S (next_promise st) |}).

(** [resolve(v)] or [reject(e)] on a promise: only the first call
    settles it. *)
Definition settle (promise : nat) (o : Outcome) (st : State) : State :=
  with_settled
    (fun m => match m !! promise with
              | Some _ => m
              | None => <[promise := o]> m
              end) st.

(** [workerManagerService.inspectItem(s, a, d, m, priority)] with the
    handlers [k] attached to the promise it returns. *)
Definition call_worker (r : WorkerRequest) (k : Continuation) (st : State)
  : State :=
  {| QUEUE_TIMEOUT := QUEUE_TIMEOUT st; MAX_QUEUE_SIZE := MAX_QUEUE_SIZE st;
     inspects := inspects st; counters := counters st;
     queue := queue st; store := store st;
     requests := requests st ++ [r];
     wm_cached := wm_cached st;
     awaiting := <[length (requests st) := k]> (awaiting st);
     timers := timers st; next_timer := next_timer st;
     settled := settled st; next_promise := next_promise st |}.

(** Awaiting a store computation from within the service. *)
Definition run {A} (m : Store.M A) (st : State) : Store.result A * State :=
  let '(r, s) := m (store st) in (r, with_store s st).

(** [m !== '0' && m ? m : s]. *)
Definition owner_of (s m : string) : string :=
  if negb (String.eqb m "0") && negb (String.eqb m EmptyString)
  then m else s.

(** [lowPriority ? 'low' : 'normal']. *)
Definition priority_of (lowPriority : bool) : Priority :=
  if lowPriority then low else normal.

Definition processInspectionInBackground
    (s a d m : string) (lowPriority : bool) (st : State) : State :=
  let '(timeoutId, st) :=
    setTimeout (BackgroundTimeout a) (QUEUE_TIMEOUT st) st in
  let st :=
    with_queue (fun q => snd (QueueService.add a
      {| q_ms := owner_of s m;
         q_d := d;
         q_completion := Background a;
         q_timeoutId := timeoutId;
         q_retryCount := 0;
         q_inspectUrl := {| l_s := s; l_a := a; l_d := d; l_m := m |};
         q_priority := priority_of lowPriority |} q)) st in
  call_worker
    {| w_s := s; w_a := a; w_d := d; w_m := m;
       w_priority := priority_of lowPriority |}
    (BackgroundCont a {| ms := VStr (owner_of s m); d := d |}) st.

Definition acknowledgment (a : string) : list (string * value) :=
  [ ("success", VBool true);
    ("message",
     VStr "Inspection request received and being processed in background");
    ("assetId", VStr a) ].

Definition queue_full (st : State) : HttpException :=
  {| message :=
       "Queue is full (" +:+ dec (Z.of_nat (QueueService.size (queue st)))
       +:+ "/" +:+ num_to_string (of_Z (MAX_QUEUE_SIZE st))
       +:+ "), please try again later";
     status := TOO_MANY_REQUESTS |}.

(** [if (!query.refresh) { cachedAsset = await this.checkCache(a, d) }]:
    the cached record, if the cache is consulted and has one. *)
Definition consult_cache (query : InspectDto) (a d : string) (st : State)
  : option Formatted * State :=
  if negb (refresh query)
  then match run (checkCache a d) st with
       | (Store.Ok c, st) => (c, st)
       | (Store.Throw _, st) => (None, st)
       end
  else (None, st).

Definition inspectItem (query : InspectDto) (st : State)
  : Completed * State :=
  let st := with_counters bump_currentRequests st in
  match parse query with
  | inl e => (Threw e, st)
  | inr {| l_s := s; l_a := a; l_d := d; l_m := m |} =>
      let '(cachedAsset, st) := consult_cache query a d st in
      match cachedAsset with
      | Some cachedAsset =>
          (Returned (Item cachedAsset),
           incrementCached (with_counters bump_cached st))
      | None =>
          if QueueService.isFull (queue st)
          then (Threw (queue_full st), st)
          else
            match reply query with
            | Some false =>
                (Returned (Object (acknowledgment a)),
                 processInspectionInBackground s a d m
                   (lowPriority query) st)
            | _ =>
                let '(promise, st) := new_promise st in
                let '(timeoutId, st) :=
                  setTimeout (ReplyTimeout promise) (QUEUE_TIMEOUT st) st in
                let st :=
                  with_queue (fun q => snd (QueueService.add a
                    {| q_ms := owner_of s m;
                       q_d := d;
                       q_completion := Caller promise;
                       q_timeoutId := timeoutId;
                       q_retryCount := 0;
                       q_inspectUrl :=
                         {| l_s := s; l_a := a; l_d := d; l_m := m |};
                       q_priority := priority_of (lowPriority query) |}
                    q)) st in
                (Awaiting promise,
                 call_worker
                   {| w_s := s; w_a := a; w_d := d; w_m := m;
                      w_priority := priority_of (lowPriority query) |}
                   (ReplyCont promise timeoutId a
                      {| ms := VStr (owner_of s m); d := d |}) st)
            end
      end
  end.

(** The timer [id] expires. *)
Definition fire (id : nat) (st : State) : State :=
  match timers st !! id with
  | None => st
  | Some t =>
      let st := with_timers (delete id) st in
      match callback t with
      | ReplyTimeout promise =>
          settle promise
            (Rejected {| message := "Inspection request timed out";
                         status := GATEWAY_TIMEOUT |})
            (with_counters bump_timeouts st)
      | BackgroundTimeout a =>
          with_queue (QueueService.remove a)
            (with_counters bump_timeouts st)
      end
  end.

(** The worker manager resolves request [call] with [response]. *)
Definition on_response (call : nat) (response : InspectResponse)
    (st : State) : State :=
  match awaiting st !! call with
  | None => st
  | Some k =>
      let st := with_awaiting (delete call) st in
      match k with
      | ReplyCont promise timeoutId a inspectData =>
          let st := clearTimeout timeoutId st in
          let st := with_counters bump_success st in
          match run (handleInspectResult response inspectData) st with
          | (Store.Ok formattedResponse, st) =>
              settle promise (Resolved (Item formattedResponse))
                (with_queue (QueueService.remove a) st)
          | (Store.Throw _, st) =>
              settle promise
                (Rejected {| message := "Error processing inspection result";
                             status := INTERNAL_SERVER_ERROR |})
                (with_queue (QueueService.remove a)
                   (with_counters bump_failed st))
          end
      | BackgroundCont a inspectData =>
          let '(_, st) := run (handleInspectResult response inspectData) st in
          with_queue (QueueService.remove a) st
      end
  end.

(** The worker manager rejects request [call] with an error whose
    message is [msg] (empty when it has none). *)
Definition on_error (call : nat) (msg : string) (st : State) : State :=
  match awaiting st !! call with
  | None => st
  | Some k =>
      let st := with_awaiting (delete call) st in
      match k with
      | ReplyCont promise timeoutId a _ =>
          let st := with_counters bump_failed st in
          let st := clearTimeout timeoutId st in
          let st := with_queue (QueueService.remove a) st in
          settle promise
            (Rejected {| message := if String.eqb msg EmptyString
                                    then "Inspection failed" else msg;
                         status := GATEWAY_TIMEOUT |}) st
      | BackgroundCont a _ =>
          with_queue (QueueService.remove a) st
      end
  end.

(** The events that drive the service.  Each handler is taken to run
    to its end before the next event is handled: the store operations
    one handler awaits are not interleaved with those of another. *)
Inductive Event :=
| Request (query : InspectDto)
| TimerFires (id : nat)
| WorkerResolves (call : nat) (response : InspectResponse)
| WorkerRejects (call : nat) (message : string).

Definition step (st : State) (e : Event) : State :=
  match e with
  | Request query => snd (inspectItem query st)
  | TimerFires id => fire id st
  | WorkerResolves call response => on_response call response st
  | WorkerRejects call msg => on_error call msg st
  end.

(** The [service.queue] object of the [stats()] response; the other
    parts are copied from [workerManagerService.getStats()] and the
    clock. *)
Record QueueStats := {
  current : nat;
  max : Z;
  priorities : nat * nat * nat;
}.

Definition count_priority (c : nat * nat * nat) (p : Priority)
  : nat * nat * nat :=
  let '(h, n, l) := c in
  match p with
  | high => (S h, n, l)
  | normal => (h, S n, l)
  | low => (h, n, S l)
  end.

Definition stats (st : State) : QueueStats :=
  {| current := size (inspects st);
     max := MAX_QUEUE_SIZE st;
     priorities :=
       foldl count_priority (0, 0, 0)%nat
             (QueueService.metrics_items (queue st)) |}.

(** The service as constructed: no request seen yet. *)
Definition init (queue_timeout max_queue_size : Z) (db : Store.t) : State :=
  {| QUEUE_TIMEOUT := queue_timeout;
     MAX_QUEUE_SIZE := max_queue_size;
     inspects := ∅;
     counters := {| currentRequests := 0; success := 0; cached := 0;
                    failed := 0; timeouts := 0 |};
     queue := QueueService.empty (Z.to_nat max_queue_size);
     store := db;
     requests := [];
     wm_cached := 0;
     awaiting := ∅;
     timers := ∅;
     next_timer := 0;
     settled := ∅;
     next_promise := 0 |}.

Inductive reachable : State -> Prop :=
| reachable_init t m db : reachable (init t m db)
| reachable_step st e : reachable st -> reachable (step st e).

Definition run_events (st : State) (es : list Event) : State :=
  foldl step st es.

(** Requests handled one after the other, no other event in between. *)
Fixpoint submit (queries : list InspectDto) (st : State)
  : list Completed * State :=
  match queries with
  | [] => ([], st)
  | query :: rest =>
      let '(c, st) := inspectItem query st in
      let '(cs, st) := submit rest st in
      (c :: cs, st)
  end.

End Collaborators.

(** [parseInt(process.env[name] || dflt)]. *)
Definition env_int (env : gmap string string) (name dflt : string)
  : option Z :=
  parseInt (match env !! name with
            | Some v => if String.eqb v EmptyString then dflt else v
            | None => dflt
            end).

Definition env_QUEUE_TIMEOUT (env : gmap string string) : option Z :=
  env_int env "QUEUE_TIMEOUT" "10000".

Definition env_MAX_QUEUE_SIZE (env : gmap string string) : option Z :=
  env_int env "MAX_QUEUE_SIZE" "100".

End InspectService.

(* ===================================================================== *)
(** ** [BotWorker]: initialization of a shard                             *)
(* ===================================================================== *)

Module BotWorker.
Import Js.

(** How one [new Bot(...)] followed by [await bot.initialize()] ends
    ([bot.class.ts] is not among the sources): the bot is logged in,
    and [isReady()] answers [ready], or an error with a message is
    thrown. *)
Inductive Login :=
| LoggedIn (ready : bool)
| Failed (message : string).

(** The world the worker runs in: the result of the [k]-th login and
    the value of the [k]-th reading of [Date.now()]. *)
Record World := { initialize : nat -> Login; date_now : nat -> Z }.

Inductive Status := ready | initializing.

(** A message posted to the parent thread. *)
Inductive Message :=
| botInitialized (username : string) (status : Status)
| stats (bots : nat).

(** One login attempt, as the log lines of the worker tell it: the
    position of the account in the partition being walked, its user
    name, and the result. *)
Record Attempt := { position : nat; username : string; result : Login }.

Record t := {
  accounts : list string;
  bots : gmap string Status;
  throttledAccounts : gmap string Z;
  MAX_RETRIES : Z;
  logins : nat;
  clock : nat;
  successCount : nat;
  failureCount : nat;
  sent : list Message;
  attempts : list Attempt;
}.

Definition THROTTLE_COOLDOWN : Z := 30 * 60 * 1000.

(** [account.substring(0, account.indexOf(':'))]. *)
Definition username_of (account : string) : string :=
  match index 0 ":" account with
  | Some colonIndex => substring 0 colonIndex account
  | None => EmptyString
  end.

(** [account.substring(account.indexOf(':') + 1)]. *)
Definition password_of (account : string) : string :=
  match index 0 ":" account with
  | Some colonIndex =>
      substring (S colonIndex) (String.length account - S colonIndex) account
  | None => account
  end.

Section WithWorld.
Variable world : World.

(** [throttleExpiry && Date.now() < throttleExpiry]; the clock is
    read only when an expiry is recorded. *)
Definition is_throttled (user : string) (w : t) : bool * t :=
  match throttledAccounts w !! user with
  | Some throttleExpiry =>
      if throttleExpiry =? 0 then (false, w)
      else
        (date_now world (clock w) <? throttleExpiry,
         {| accounts := accounts w; bots := bots w;
            throttledAccounts := throttledAccounts w;
            MAX_RETRIES := MAX_RETRIES w; logins := logins w;
            clock := S (clock w);
            successCount := successCount w;
            failureCount := failureCount w;
            sent := sent w; attempts := attempts w |})
  | None => (false, w)
  end.

(** The body of the [try] when the login succeeds. *)
Definition on_initialized (i : nat) (user : string) (isReady : bool)
    (w : t) : t :=
  let status := if isReady then ready else initializing in
  {| accounts := accounts w;
     bots := <[user := status]> (bots w);
     throttledAccounts := delete user (throttledAccounts w);
     MAX_RETRIES := MAX_RETRIES w;
     logins := S (logins w);
     clock := clock w;
     successCount := S (successCount w);
     failureCount := failureCount w;
     sent := sent w ++ [botInitialized user status];
     attempts := attempts w ++
       [{| position := i; username := user; result := LoggedIn isReady |}] |}.

(** The [catch] block up to the [break] or the [retryCount++]. *)
Definition on_failure (i : nat) (user message : string) (w : t) : t :=
  let log :=
    attempts w ++
    [{| position := i; username := user; result := Failed message |}] in
  if String.eqb message "ACCOUNT_DISABLED" then
    {| accounts :=
         filter (fun acc => negb (String.prefix user acc) = true)
                (accounts w);
       bots := bots w; throttledAccounts := throttledAccounts w;
       MAX_RETRIES := MAX_RETRIES w; logins := S (logins w);
       clock := clock w; successCount := successCount w;
       failureCount := S (failureCount w);
       sent := sent w; attempts := log |}
  else if String.eqb message "LOGIN_THROTTLED" then
    {| accounts := accounts w; bots := bots w;
       throttledAccounts :=
         <[user := date_now world (clock w) + THROTTLE_COOLDOWN]>
           (throttledAccounts w);
       MAX_RETRIES := MAX_RETRIES w; logins := S (logins w);
       clock := S (clock w); successCount := successCount w;
       failureCount := S (failureCount w);
       sent := sent w; attempts := log |}
  else
    {| accounts := accounts w; bots := bots w;
       throttledAccounts := throttledAccounts w;
       MAX_RETRIES := MAX_RETRIES w; logins := S (logins w);
       clock := clock w; successCount := successCount w;
       failureCount := S (failureCount w);
       sent := sent w; attempts := log |}.

(** [while (retryCount < this.MAX_RETRIES && !initialized)], by
    recursion on [MAX_RETRIES - retryCount]. *)
Fixpoint retry (remaining : nat) (i : nat) (user : string) (w : t) : t :=
  match remaining with
  | O => w
  | S remaining' =>
      match initialize world (logins w) with
      | LoggedIn isReady => on_initialized i user isReady w
      | Failed message =>
          let w' := on_failure i user message w in
          if String.eqb message "ACCOUNT_DISABLED" then w'
          else if String.eqb message "LOGIN_THROTTLED" then w'
          else retry remaining' i user w'
      end
  end.

(** The body of [for (const account of this.accounts)] for the
    account at position [i]. *)
Definition initializeAccount (w : t) (ia : nat * string) : t :=
  let '(i, account) := ia in
  let user := username_of account in
  let '(throttled, w) := is_throttled user w in
  if throttled then w
  else retry (Z.to_nat (MAX_RETRIES w)) i user w.

(** The loop walks the array that [this.accounts] held when it
    started; reassigning the property does not affect the walk. *)
Definition initializeBots (w : t) : t :=
  let w' :=
    foldl initializeAccount w
          (zip (seq 0 (length (accounts w))) (accounts w)) in
  {| accounts := accounts w'; bots := bots w';
     throttledAccounts := throttledAccounts w';
     MAX_RETRIES := MAX_RETRIES w'; logins := logins w';
     clock := clock w'; successCount := successCount w';
     failureCount := failureCount w';
     sent := sent w' ++ [stats (size (bots w'))];
     attempts := attempts w' |}.

End WithWorld.

(** The worker as constructed from [workerData.accounts]. *)
Definition create (partition : list string) (max_retries : Z) : t :=
  {| accounts := partition; bots := ∅; throttledAccounts := ∅;
     MAX_RETRIES := max_retries; logins := 0; clock := 0;
     successCount := 0; failureCount := 0; sent := []; attempts := [] |}.

(** [parseInt(process.env.MAX_RETRIES || '3')]. *)
Definition env_MAX_RETRIES (env : gmap string string) : option Z :=
  InspectService.env_int env "MAX_RETRIES" "3".

End BotWorker.

(* ===================================================================== *)
(** ** The properties, in the words of the specification                  *)
(* ===================================================================== *)

Module Spec.
Import Js Schema Handle.

(** "with nulls normalized to 0". *)
Definition normalized (f : field) : num :=
  match f with
  | None => of_Z 0
  | Some n => n
  end.

Definition SHA1_prefix8 (s : string) : string :=
  substring 0 8 (Sha1.digest_hex s).

(** "SHA1_prefix8("{paintSeed}-{paintIndex}-{paintWear}-{defIndex}")". *)
Definition uniqueId (r : InspectResponse) : string :=
  SHA1_prefix8
    (num_to_string (normalized (paintseed r)) +:+ "-" +:+
     num_to_string (normalized (paintindex r)) +:+ "-" +:+
     num_to_string (normalized (paintwear r)) +:+ "-" +:+
     num_to_string (normalized (defindex r))).

(** A store that refuses no operation. *)
Definition never_fails (s : Store.t) : Prop :=
  forall n, Store.fails s n = false.

(** A field of the inspect result is present when it is not null. *)
Definition present (f : field) : Prop := f <> None.

(** The key of the unique index of the history collection. *)
Definition history_key (h : History) : string * Z :=
  (h_uniqueId h, h_assetId h).

Definition unique_history (s : Store.t) : Prop :=
  NoDup (history_key <$> Store.histories s).

(** An owner id is a user's when it starts with the steam-id prefix,
    and a market proxy's otherwise. *)
Definition is_user (owner : value) : bool := opt_starts_with "7656" owner.

(** The error of an expired deadline. *)
Definition InspectTimeout : HttpException :=
  {| message := "Inspection request timed out"; status := GATEWAY_TIMEOUT |}.

(** The three ways [inspectItem] answers a request. *)
Definition served_from_cache {Formatted : Type}
    (c : InspectService.Completed (Formatted := Formatted)) : Prop :=
  exists iteminfo, c = InspectService.Returned (InspectService.Item iteminfo).

Definition QueueFull {Formatted : Type}
    (c : InspectService.Completed (Formatted := Formatted)) : Prop :=
  exists e, c = InspectService.Threw e /\ status e = 429.

Definition admitted {Formatted : Type}
    (c : InspectService.Completed (Formatted := Formatted)) : Prop :=
  (exists promise, c = InspectService.Awaiting promise) \/
  (exists o, c = InspectService.Returned (InspectService.Object o)).

(** The login attempt [a] is one of the account at position [i] of the
    partition, whose user name is [user]. *)
Definition by_account (i : nat) (user : string) (a : BotWorker.Attempt)
  : Prop :=
  BotWorker.position a = i /\ BotWorker.username a = user.

(** What the retry loop of one account leaves behind: the BotWorker.attempts it
    logged, and what holds when one of them met a disabled or a
    throttled account. *)
Definition retry_post (world : BotWorker.World) (remaining i : nat)
    (user : string) (w w' : BotWorker.t) (new : list BotWorker.Attempt)
  : Prop :=
  BotWorker.attempts w' = BotWorker.attempts w ++ new /\
  (length new <= remaining)%nat /\
  Forall (by_account i user) new /\
  BotWorker.MAX_RETRIES w' = BotWorker.MAX_RETRIES w /\
  (forall pre a post,
     new = pre ++ a :: post ->
     BotWorker.result a = BotWorker.Failed "ACCOUNT_DISABLED" ->
     post = [] /\
     forall acc, acc ∈ BotWorker.accounts w' -> String.prefix user acc = false) /\
  (forall pre a post,
     new = pre ++ a :: post ->
     BotWorker.result a = BotWorker.Failed "LOGIN_THROTTLED" ->
     post = [] /\
     exists k,
       BotWorker.clock w' = S k /\
       BotWorker.throttledAccounts w' !! user
         = Some (BotWorker.date_now world k + BotWorker.THROTTLE_COOLDOWN)).



(** The query [q] parses to a descriptor of asset [a]. *)
Definition asks_for
    (parse : InspectService.InspectDto -> HttpException + Link)
    (q : InspectService.InspectDto) (a : string) : Prop :=
  exists s d m, parse q = inr {| l_s := s; l_a := a; l_d := d; l_m := m |}.

(** A current sticker is unchanged when the previous array has a
    sticker equal to it on (slot, sticker_id, offset_x, offset_y,
    offset_z, rotation), and the first such has the same wear. *)
Definition unchanged (prev : list Sticker) (c : Sticker) : Prop :=
  exists p, find (InspectService.same_placement c) prev = Some p /\
            field_eq (wear c) (wear p) = true.

(** "a mismatch": some current sticker has no counterpart. *)
Definition mismatch (cur prev : list Sticker) : Prop :=
  exists c, c ∈ cur /\ find (InspectService.same_placement c) prev = None.

(** "a matching slot's wear strictly increased". *)
Definition scraped (cur prev : list Sticker) : Prop :=
  exists c p, c ∈ cur /\
              find (InspectService.same_placement c) prev = Some p /\
              field_gt (wear c) (wear p) = true.

End Spec.

(* ===================================================================== *)
(** ** Concrete inputs: the end-to-end scenarios of the specification     *)
(* ===================================================================== *)

Module Sample.
Import Js Schema Handle InspectService.

(** A store that never refuses an operation. *)
Definition reliable : nat -> bool := fun _ => false.

Definition db0 : Store.t := Store.empty reliable.

(** A formatter that returns the record as it is. *)
Definition fmt (a : Asset) : Asset := a.

(** A parser for queries that carry the four parts of the link. *)
Definition parse0 (q : InspectDto) : HttpException + Link :=
  match dto_s q, dto_a q, dto_d q, dto_m q with
  | Some s, Some a, Some d, Some m =>
      inr {| l_s := s; l_a := a; l_d := d; l_m := m |}
  | _, _, _, _ => inl {| message := "Invalid link"; status := 400 |}
  end.

Definition query (a d : string) (reply : option bool) : InspectDto :=
  {| url := None;
     dto_s := Some "76561198023809011"; dto_a := Some a;
     dto_d := Some d; dto_m := Some "0";
     refresh := false; reply := reply; lowPriority := false |}.

(** Scenario 1, "fresh unbox": origin 2, seed 661, index 44, wear 0.07. *)
Definition unboxed : InspectResponse :=
  {| itemid := "35675800220";
     defindex := Some (of_Z 7);
     paintindex := Some (of_Z 44);
     rarity := Some (of_Z 4);
     quality := Some (of_Z 4);
     paintwear := Some (Num 7 (-2));
     paintseed := Some (of_Z 661);
     killeaterscoretype := None;
     killeatervalue := None;
     customname := None;
     stickers := Some [];
     inventory := Some (of_Z 261);
     origin := Some (of_Z 2);
     questid := None;
     dropreason := None;
     musicindex := None;
     entindex := None;
     petindex := None;
     keychains := Some [] |}.

Definition sticker (slot_ id_ : Z) (wear_ : field) : Sticker :=
  {| slot := Some (of_Z slot_); sticker_id := Some (of_Z id_);
     wear := wear_; scale := None; rotation := None; tint_id := None;
     offset_x := None; offset_y := None; offset_z := None;
     pattern := None |}.

(** The same item after a sticker was applied at slot 0: the item id is
    new, the paint is that of [unboxed]. *)
Definition stickered : InspectResponse :=
  {| itemid := "35675800221";
     defindex := Some (of_Z 7);
     paintindex := Some (of_Z 44);
     rarity := Some (of_Z 4);
     quality := Some (of_Z 4);
     paintwear := Some (Num 7 (-2));
     paintseed := Some (of_Z 661);
     killeaterscoretype := None;
     killeatervalue := None;
     customname := None;
     stickers := Some [sticker 0 202 None];
     inventory := Some (of_Z 261);
     origin := Some (of_Z 2);
     questid := None;
     dropreason := None;
     musicindex := None;
     entindex := None;
     petindex := None;
     keychains := Some [] |}.

Definition owner : InspectData :=
  {| ms := VStr "76561198023809011"; d := "4649654965632117657" |}.

(** The owner id as the collections store it: the schemas declare it
    [Number], and the nearest double prints as 76561198023809010. *)
Definition owner_stored : value := VNum (Num 7656119802380901 1).

(** The asset document written for [unboxed]. *)
Definition stored : Asset :=
  assetData unboxed {| ms := owner_stored; d := d owner |}
            (uniqueId_of unboxed) 35675800220.

(** The service as constructed with the default settings. *)
Definition service : State (Formatted := Asset) := init 10000 100 db0.

(** The service with a queue of capacity 2. *)
Definition small : State (Formatted := Asset) := init 10000 2 db0.

(** The default service after a caller asked for the unboxed item and
    waits for the reply. *)
Definition waiting : State (Formatted := Asset) :=
  step fmt parse0 service (Request (query "35675800220" "99" None)).

(** The same after the worker manager delivered the inspect result. *)
Definition served : State (Formatted := Asset) :=
  step fmt parse0 waiting (WorkerResolves 0 unboxed).

(** A world for the worker: the first login fails for some other
    reason, the second succeeds, the third meets a disabled account and
    the fourth a throttled one. *)
Definition world : BotWorker.World :=
  {| BotWorker.initialize := fun k =>
       match k with
       | 0%nat => BotWorker.Failed "Logon timed out"
       | 1%nat => BotWorker.LoggedIn true
       | 2%nat => BotWorker.Failed "ACCOUNT_DISABLED"
       | 3%nat => BotWorker.Failed "LOGIN_THROTTLED"
       | _ => BotWorker.LoggedIn false
       end;
     BotWorker.date_now := fun k => 1700000000000 + Z.of_nat k |}.

(** A shard of three accounts; the second password holds a colon. *)
Definition shard : BotWorker.t :=
  BotWorker.create ["alice:secret"; "bob:pass:word"; "carol:pw"] 3.

(** Three requests for three different assets. *)
Definition three : list InspectDto :=
  [query "101" "1" None; query "102" "2" (Some false); query "103" "3" None].

(** The default service after a background request for the item. *)
Definition background : State (Formatted := Asset) :=
  step fmt parse0 service (Request (query "35675800220" "99" (Some false))).

End Sample.

(* ===================================================================== *)
(** ** The uptime line of [stats()]                                       *)
(* ===================================================================== *)

Module Uptime.

(** [days], [hours], [minutes] and [seconds] of [stats()], from
    [uptime = Date.now() - this.startTime] in milliseconds.  Both clock
    readings are integers, and so is every value here as long as the
    uptime is below 2^53; [%] is the remainder that takes the sign of
    the dividend and [Math.floor(x / y)] the floored quotient. *)
Definition uptime_parts (uptime : Z) : Z * Z * Z * Z :=
  (uptime / (24 * 60 * 60 * 1000),
   Z.rem uptime (24 * 60 * 60 * 1000) / (60 * 60 * 1000),
   Z.rem uptime (60 * 60 * 1000) / (60 * 1000),
   Z.rem uptime (60 * 1000) / 1000).

End Uptime.

(* ===================================================================== *)
(** ** [BotWorker]: the health check's retry of missing bots              *)
(* ===================================================================== *)

Module HealthCheck.
Import Js BotWorker.

(** A value of the [failedAccounts] map. *)
Record Failure := { error : string; timestamp : Z }.

(** The worker with what the health check adds to it: the
    [failedAccounts] map and, as the log lines tell it, the logins
    that [initializeSingleBot] attempted.  As for the events of the
    service, the loop below is taken to run to its end without another
    handler of the worker running in between. *)
Record t := {
  worker : BotWorker.t;
  failedAccounts : gmap string Failure;
  retried : list (string * Login);
}.

Definition with_worker (w : BotWorker.t) (h : t) : t :=
  {| worker := w; failedAccounts := failedAccounts h; retried := retried h |}.

(** A reading of [Date.now()]. *)
Definition tick (w : BotWorker.t) : BotWorker.t :=
  {| accounts := accounts w; bots := bots w;
     throttledAccounts := throttledAccounts w;
     MAX_RETRIES := MAX_RETRIES w; logins := logins w;
     clock := S (clock w);
     successCount := successCount w; failureCount := failureCount w;
     sent := sent w; attempts := attempts w |}.

Section WithWorld.
Variable world : World.

(** Whether the bot kept for the account walked at position [i]
    answers neither [isError()] nor [isDisconnected()]; [bot.class.ts]
    is not among the sources. *)
Variable functioning : nat -> bool.

(** One login, without a retry loop; [this.accounts] is not touched,
    whatever the error. *)
Definition initializeSingleBot (user : string) (h : t) : bool * t :=
  let w := worker h in
  match initialize world (logins w) with
  | LoggedIn isReady =>
      let status := if isReady then ready else initializing in
      (true,
       {| worker :=
            {| accounts := accounts w;
               bots := <[user := status]> (bots w);
               throttledAccounts := delete user (throttledAccounts w);
               MAX_RETRIES := MAX_RETRIES w;
               logins := S (logins w);
               clock := clock w;
               successCount := successCount w;
               failureCount := failureCount w;
               sent := sent w ++ [botInitialized user status];
               attempts := attempts w |};
          failedAccounts := delete user (failedAccounts h);
          retried := retried h ++ [(user, LoggedIn isReady)] |})
  | Failed message =>
      (false,
       {| worker :=
            if String.eqb message "LOGIN_THROTTLED" then
              {| accounts := accounts w; bots := bots w;
                 throttledAccounts :=
                   <[user := date_now world (clock w) + THROTTLE_COOLDOWN]>
                     (throttledAccounts w);
                 MAX_RETRIES := MAX_RETRIES w;
                 logins := S (logins w);
                 clock := S (clock w);
                 successCount := successCount w;
                 failureCount := failureCount w;
                 sent := sent w; attempts := attempts w |}
            else
              {| accounts := accounts w; bots := bots w;
                 throttledAccounts := throttledAccounts w;
                 MAX_RETRIES := MAX_RETRIES w;
                 logins := S (logins w);
                 clock := clock w;
                 successCount := successCount w;
                 failureCount := failureCount w;
                 sent := sent w; attempts := attempts w |};
          failedAccounts := failedAccounts h;
          retried := retried h ++ [(user, Failed message)] |})
  end.

(** The last step of the loop body:
    [if (!existingBot) await this.initializeSingleBot(...)]. *)
Definition create_missing (user : string) (existingBot : option Status)
    (h : t) : t :=
  match existingBot with
  | None => snd (initializeSingleBot user h)
  | Some _ => h
  end.

(** The body of [for (const account of this.accounts)] in
    [retryFailedAccountInitialization], for the account at position
    [i]. *)
Definition retryAccount (h : t) (ia : nat * string) : t :=
  let '(i, account) := ia in
  let user := username_of account in
  let existingBot := bots (worker h) !! user in
  if match existingBot with Some _ => functioning i | None => false end
  then h
  else
    let '(throttled, w) := is_throttled world user (worker h) in
    let h := with_worker w h in
    if throttled then h
    else
      match failedAccounts h !! user with
      | Some failedInfo =>
          let now := date_now world (clock (worker h)) in
          let h := with_worker (tick (worker h)) h in
          if now - timestamp failedInfo <? 30 * 60 * 1000 then h
          else
            create_missing user existingBot
              {| worker := worker h;
                 failedAccounts := delete user (failedAccounts h);
                 retried := retried h |}
      | None => create_missing user existingBot h
      end.

(** [this.accounts] is not reassigned while the loop runs. *)
Definition retryFailedAccountInitialization (h : t) : t :=
  foldl retryAccount h
        (zip (seq 0 (length (accounts (worker h)))) (accounts (worker h))).

End WithWorld.

(** What a run of health-check code leaves alone, and what it may
    add: [new] are the logins it attempted. *)
Definition extends (h h' : t) (new : list (string * Login)) : Prop :=
  retried h' = retried h ++ new /\
  logins (worker h') = (logins (worker h) + length new)%nat /\
  accounts (worker h') = accounts (worker h) /\
  attempts (worker h') = attempts (worker h) /\
  successCount (worker h') = successCount (worker h) /\
  failureCount (worker h') = failureCount (worker h) /\
  failedAccounts h' ⊆ failedAccounts h /\
  (forall user, is_Some (bots (worker h) !! user) ->
                bots (worker h') !! user = bots (worker h) !! user) /\
  (forall user, bots (worker h) !! user = None ->
                is_Some (bots (worker h') !! user) ->
                exists isReady, (user, LoggedIn isReady) ∈ new).

End HealthCheck.

(* ===================================================================== *)
(** ** Invariants and measures used by the further properties             *)
(* ===================================================================== *)

Module Inv.
Import Js Schema Handle Store InspectService.

(** A lower-case hexadecimal digit. *)
Definition is_hex (c : ascii) : bool :=
  let n := Z.of_nat (nat_of_ascii c) in
  ((48 <=? n) && (n <=? 57)) || ((97 <=? n) && (n <=? 102)).

Definition hex_string (s : string) : Prop :=
  Forall (fun c => is_hex c = true) (list_ascii_of_string s).

(** The filter [{ uniqueId }] of the upsert, for the document [doc]. *)
Definition same_uniqueId (doc a : Asset) : bool :=
  String.eqb (a_uniqueId a) (a_uniqueId doc).

(** The asset collection after an upsert of [doc]. *)
Definition upserted (doc : Asset) (l : list Asset) : list Asset :=
  match replace_first (same_uniqueId doc) doc l with
  | Some l' => l'
  | None => l ++ [doc]
  end.

(** What the unique index on [uniqueId] of the asset collection asks
    for. *)
Definition unique_assets (s : Store.t) : Prop :=
  NoDup (a_uniqueId <$> assets s).

(** The argument that [handleInspectResult] would pass to
    [generateUniqueId] for the item a stored document describes. *)
Definition key_of_asset (a : Asset) : UniqueIdItem :=
  {| paintSeed := a_paintSeed a;
     paintIndex := a_paintIndex a;
     paintWear := a_paintWear a;
     defIndex := a_defIndex a;
     u_origin := a_origin a;
     u_rarity := a_rarity a;
     questId := a_questId a;
     u_quality := a_quality a;
     dropReason := a_dropReason a |}.

(** The document carries the [uniqueId] of its own paint. *)
Definition well_keyed (a : Asset) : Prop :=
  a_uniqueId a = generateUniqueId (key_of_asset a).

(** The object that [saveHistory] hands to [historyModel.create]. *)
Definition history_record
    (response : InspectResponse) (history : option Prior)
    (inspectData : InspectData) (uniqueId : string) (assetId : Z)
  : History :=
  {| h_uniqueId := uniqueId;
     h_assetId := assetId;
     h_prevAssetId := h ← history; p_assetId h;
     h_owner := ms inspectData;
     h_prevOwner := from_option p_ms VUndefined history;
     h_d := d inspectData;
     h_stickers := stickers response;
     h_keychains := keychains response;
     h_prevStickers := h ← history; p_stickers h;
     h_prevKeychains := h ← history; p_keychains h;
     h_type := getHistoryType response history inspectData |}.

(** No two stickers of the array agree on (slot, sticker_id, offset_x,
    offset_y, offset_z, rotation). *)
Definition distinct_placements (l : list Sticker) : Prop :=
  forall i j x y,
    l !! i = Some x -> l !! j = Some y ->
    same_placement x y = true -> i = j.

(** The history types that the classifier can return: the first six
    for an item without a prior record, those from the sixth on for an
    item with one. *)
Definition produced : list HistoryType :=
  [ TRADED_UP; DROPPED; PURCHASED_INGAME; UNBOXED; CRAFTED; UNKNOWN;
    TRADE; MARKET_BUY;
    STICKER_APPLY; STICKER_REMOVE; STICKER_CHANGE; STICKER_SCRAPE;
    KEYCHAIN_ADDED; KEYCHAIN_REMOVED; KEYCHAIN_CHANGED ].

Definition same_priority (p q : Priority) : bool :=
  match p, q with
  | high, high | normal, normal | low, low => true
  | _, _ => false
  end.

(** The number of queue items of priority [p]. *)
Definition count_of (p : Priority) (l : list Priority) : nat :=
  length (List.filter (same_priority p) l).

Definition is_request (e : Event) : bool :=
  match e with Request _ => true | _ => false end.

(** Promises, timers and worker calls are numbered as they are made:
    whatever is settled, pending or awaited carries a number already
    handed out. *)
Definition fresh_ids {Formatted : Type} (st : State (Formatted := Formatted))
  : Prop :=
  (forall p, is_Some (settled st !! p) -> (p < next_promise st)%nat) /\
  (forall id t, timers st !! id = Some t ->
     (id < next_timer st)%nat /\
     forall p, callback t = ReplyTimeout p -> (p < next_promise st)%nat) /\
  (forall call k, awaiting st !! call = Some k ->
     (call < length (requests st))%nat /\
     forall p t a data, k = ReplyCont p t a data ->
       (p < next_promise st)%nat /\ (t < next_timer st)%nat).

End Inv.

Module Books.
Import BotWorker.

(** [bot.isReady() ? 'ready' : 'initializing']. *)
Definition status_of (isReady : bool) : Status :=
  if isReady then ready else initializing.

Definition logged_in (a : Attempt) : bool :=
  match result a with LoggedIn _ => true | Failed _ => false end.

(** The [botInitialized] messages that a list of attempts gives rise
    to: one per successful login, in order. *)
Definition announced (new : list Attempt) : list Message :=
  omap (fun a => match result a with
                 | LoggedIn isReady =>
                     Some (botInitialized (username a) (status_of isReady))
                 | Failed _ => None
                 end) new.

(** The books of the worker after the attempts [new], against the books
    before them. *)
Definition ledger (w w' : t) (new : list Attempt) : Prop :=
  attempts w' = attempts w ++ new /\
  logins w' = (logins w + length new)%nat /\
  (successCount w' + failureCount w'
     = successCount w + failureCount w + length new)%nat /\
  successCount w'
    = (successCount w + length (List.filter logged_in new))%nat /\
  sent w' = sent w ++ announced new /\
  sublist (accounts w') (accounts w) /\
  MAX_RETRIES w' = MAX_RETRIES w /\
  (forall user, is_Some (bots w !! user) -> is_Some (bots w' !! user)) /\
  (forall user s,
     bots w' !! user = Some s ->
     bots w !! user = Some s \/
     exists a isReady,
       a ∈ new /\ username a = user /\ result a = LoggedIn isReady /\
       s = status_of isReady).

End Books.

(* ===================================================================== *)
(** ** Further concrete inputs                                            *)
(* ===================================================================== *)

Module Cases.
Import Js Schema Handle InspectService.

(** The store after the unboxed item has been processed once. *)
Definition after_unbox : Store.t :=
  snd (handleInspectResult Sample.fmt Sample.unboxed Sample.owner Sample.db0).

(** Two stickers at different slots. *)
Definition pair : list Sticker :=
  [Sample.sticker 0 202 None; Sample.sticker 1 305 (Some (Num 5 (-2)))].

(** A request that asks for a fresh inspection. *)
Definition refreshing (a d : string) : InspectDto :=
  {| url := None;
     dto_s := Some "76561198023809011"; dto_a := Some a;
     dto_d := Some d; dto_m := Some "0";
     refresh := true; reply := None; lowPriority := false |}.

(** The unboxed item after a trade: the item id is new, the paint,
    the stickers and the keychains are those of [Sample.unboxed]. *)
Definition traded : InspectResponse :=
  {| itemid := "35675800221";
     defindex := defindex Sample.unboxed;
     paintindex := paintindex Sample.unboxed;
     rarity := rarity Sample.unboxed;
     quality := quality Sample.unboxed;
     paintwear := paintwear Sample.unboxed;
     paintseed := paintseed Sample.unboxed;
     killeaterscoretype := killeaterscoretype Sample.unboxed;
     killeatervalue := killeatervalue Sample.unboxed;
     customname := customname Sample.unboxed;
     stickers := stickers Sample.unboxed;
     inventory := inventory Sample.unboxed;
     origin := origin Sample.unboxed;
     questid := questid Sample.unboxed;
     dropreason := dropreason Sample.unboxed;
     musicindex := musicindex Sample.unboxed;
     entindex := entindex Sample.unboxed;
     petindex := petindex Sample.unboxed;
     keychains := keychains Sample.unboxed |}.

(** The request of the user who received it, for the new item id. *)
Definition from_buyer : InspectDto :=
  {| url := None;
     dto_s := Some "76561198000000002"; dto_a := Some "35675800221";
     dto_d := Some "99"; dto_m := Some "0";
     refresh := false; reply := None; lowPriority := false |}.

(** The service after the unboxed item was served to its first owner,
    the buyer asked for it under its new id, and the worker manager
    delivered the inspect result. *)
Definition after_trade : State (Formatted := Asset) :=
  run_events Sample.fmt Sample.parse0 Sample.served
    [Request from_buyer; WorkerResolves 1 traded].

(** The asset document written when the request of [Sample.waiting]
    is answered. *)
Definition answered : Asset :=
  assetData Sample.unboxed {| ms := Sample.owner_stored; d := "99" |}
            (uniqueId_of Sample.unboxed) 35675800220.

End Cases.

Module Shard.
Import BotWorker HealthCheck.

(** The shard after the first account of the pass: one failed login,
    then a successful one. *)
Definition first_done : BotWorker.t :=
  initializeAccount Sample.world Sample.shard (0%nat, "alice:secret").

(** The shard after the first two accounts: the second is disabled. *)
Definition second_done : BotWorker.t :=
  initializeAccount Sample.world first_done (1%nat, "bob:pass:word").

(** No kept bot is functioning. *)
Definition broken : nat -> bool := fun _ => false.

(** A health check that starts after the first account, with a stale
    failure record for its bot. *)
Definition check1 : HealthCheck.t :=
  {| worker := first_done;
     failedAccounts :=
       {[ "alice" := {| error := "MAX_RECONNECT_ATTEMPTS";
                        timestamp := 1600000000000 |} ]};
     retried := [] |}.

(** A health check that starts after the first two accounts. *)
Definition check2 : HealthCheck.t :=
  {| worker := second_done; failedAccounts := ∅; retried := [] |}.

End Shard.


(* ===================================================================== *)
(** * Theorems                                                            *)
(* ===================================================================== *)

Module JsFacts.
Import Js.

Lemma norm_zero e : norm (Num 0 e) = (0, 0).
Proof. reflexivity. Qed.

Lemma num_to_string_falsy n :
  num_truthy n = false -> num_to_string n = num_to_string (of_Z 0).
Proof.
  destruct n as [c e]. unfold num_truthy. simpl.
  intros H. apply negb_false_iff, Z.eqb_eq in H. subst c. reflexivity.
Qed.

Lemma or_zero_null_to_zero f : or_zero (null_to_zero f) = or_zero f.
Proof. destruct f; reflexivity. Qed.

(** [f || 0] prints as the field with null replaced by 0. *)
Lemma or_zero_to_string f :
  num_to_string (or_zero f) = num_to_string (Spec.normalized f).
Proof.
  destruct f as [n|]; simpl; [|reflexivity].
  destruct (num_truthy n) eqn:E; [reflexivity|].
  symmetry. now apply num_to_string_falsy.
Qed.

Lemma num_eqb_to_string a b :
  num_eqb a b = true -> num_to_string a = num_to_string b.
Proof.
  unfold num_eqb, num_to_string.
  destruct (norm a) as [ca ea], (norm b) as [cb eb].
  intros H. apply andb_true_iff in H as [H1 H2].
  apply Z.eqb_eq in H1, H2. now subst.
Qed.

Lemma strict_eq_to_string v w :
  strict_eq v w = true -> opt_to_string v = opt_to_string w.
Proof.
  destruct v, w; simpl; try discriminate; try reflexivity.
  - intros H. apply Bool.eqb_prop in H. now subst.
  - intros H. now rewrite (num_eqb_to_string _ _ H).
  - intros H. apply String.eqb_eq in H. now subst.
Qed.

Lemma strict_eq_starts_with p v w :
  strict_eq v w = true -> opt_starts_with p v = opt_starts_with p w.
Proof.
  intros H. unfold opt_starts_with. now rewrite (strict_eq_to_string _ _ H).
Qed.

End JsFacts.

Module UniqueIdFacts.
Import Js Schema InspectService.

(** The id computed by the code is the one the specification names. *)
Lemma uniqueId_of_spec r : uniqueId_of r = Spec.uniqueId r.
Proof.
  unfold uniqueId_of, generateUniqueId, Spec.uniqueId, Spec.SHA1_prefix8.
  cbn [paintSeed paintIndex paintWear defIndex join].
  rewrite !JsFacts.or_zero_null_to_zero, !JsFacts.or_zero_to_string.
  reflexivity.
Qed.

End UniqueIdFacts.

Module StoreFacts.
Import Js Schema Store.

Lemma operation_inv {A} (body : t -> result A * t) st r st' :
  operation body st = (r, st') ->
  (exists e, r = Throw e /\ st' = tick st) \/
  (fails st (ops st) = false /\ body (tick st) = (r, st')).
Proof.
  unfold operation. destruct (fails st (ops st)); intros H.
  - left. inversion H. eauto.
  - right. auto.
Qed.

Lemma cast_assetId_inv {A} n (body : Z -> t -> result A * t) st r st' :
  cast_assetId n body st = (r, st') ->
  (exists e, r = Throw e /\ st' = st /\ n = None) \/
  (exists k, n = Some k /\ body k st = (r, st')).
Proof.
  unfold cast_assetId. destruct n as [k|]; intros H.
  - right. eauto.
  - left. inversion H. eauto.
Qed.

(** An operation either is refused, leaving both collections as they
    were, or runs its body on them. *)
Lemma guarded_inv {A} n (body : Z -> t -> result A * t) st r st' :
  operation (cast_assetId n body) st = (r, st') ->
  (exists e, r = Throw e /\ assets st' = assets st /\
             histories st' = histories st) \/
  (exists k, n = Some k /\ body k (tick st) = (r, st')).
Proof.
  intros H. apply operation_inv in H as [(e & -> & ->)|[_ H]].
  - left. eauto.
  - apply cast_assetId_inv in H as [(e & -> & -> & _)|(k & -> & H)].
    + left. eauto.
    + right. eauto.
Qed.

Lemma asset_findOne_assetId_inv n st r st' :
  asset_findOne_assetId n st = (r, st') ->
  assets st' = assets st /\ histories st' = histories st /\
  forall o, r = Ok o ->
    exists k, n = Some k /\ o = find (fun a => a_assetId a =? k) (assets st).
Proof.
  intros H. apply guarded_inv in H as [(e & -> & Ha & Hh)|(k & -> & H)].
  - repeat split; auto. discriminate.
  - inversion H; subst. repeat split; auto.
    intros o [= <-]. eauto.
Qed.

Lemma asset_findLatest_inv f st r st' :
  asset_findLatest f st = (r, st') ->
  assets st' = assets st /\ histories st' = histories st.
Proof.
  intros H. apply operation_inv in H as [(e & -> & ->)|[_ H]]; [auto|].
  inversion H; subst. auto.
Qed.

Lemma asset_findLatest_found f st o st' :
  asset_findLatest f st = (Ok o, st') -> o = find f (rev (assets st)).
Proof.
  intros H. apply operation_inv in H as [(e & He & _)|[_ H]];
    [discriminate|].
  inversion H; subst. reflexivity.
Qed.

Lemma history_findOne_assetId_inv n st r st' :
  history_findOne_assetId n st = (r, st') ->
  assets st' = assets st /\ histories st' = histories st /\
  forall o, r = Ok o ->
    exists k, n = Some k /\
              o = find (fun h => h_assetId h =? k) (histories st).
Proof.
  intros H. apply guarded_inv in H as [(e & -> & Ha & Hh)|(k & -> & H)].
  - repeat split; auto. discriminate.
  - inversion H; subst. repeat split; auto.
    intros o [= <-]. eauto.
Qed.

(** The casts of the schemas leave every path but the owner ids as it
    is. *)
Lemma cast_asset_inv a a' :
  cast_asset a = Some a' ->
  cast_Number (a_ms a) = Some (a_ms a') /\
  a_uniqueId a' = a_uniqueId a /\ a_assetId a' = a_assetId a /\
  a_d a' = a_d a /\
  a_paintSeed a' = a_paintSeed a /\ a_paintIndex a' = a_paintIndex a /\
  a_paintWear a' = a_paintWear a /\ a_defIndex a' = a_defIndex a /\
  a_origin a' = a_origin a /\ a_rarity a' = a_rarity a /\
  a_questId a' = a_questId a /\ a_quality a' = a_quality a /\
  a_dropReason a' = a_dropReason a /\
  a_stickers a' = a_stickers a /\ a_keychains a' = a_keychains a.
Proof.
  unfold cast_asset. destruct (cast_Number (a_ms a)) as [v|]; [|discriminate].
  intros [= <-]. simpl. auto 20.
Qed.

Lemma cast_history_inv h h' :
  cast_history h = Some h' ->
  cast_Number (h_owner h) = Some (h_owner h') /\
  cast_Number (h_prevOwner h) = Some (h_prevOwner h') /\
  h_uniqueId h' = h_uniqueId h /\ h_assetId h' = h_assetId h /\
  h_prevAssetId h' = h_prevAssetId h /\ h_d h' = h_d h /\
  h_stickers h' = h_stickers h /\ h_keychains h' = h_keychains h /\
  h_prevStickers h' = h_prevStickers h /\
  h_prevKeychains h' = h_prevKeychains h /\
  h_type h' = h_type h.
Proof.
  unfold cast_history.
  destruct (cast_Number (h_owner h)) as [v|]; [|discriminate].
  destruct (cast_Number (h_prevOwner h)) as [w|]; [|discriminate].
  intros [= <-]. simpl. auto 20.
Qed.

(** A stored owner id casts to itself. *)
Lemma cast_Number_again v w :
  cast_Number v = Some w -> cast_Number w = Some w.
Proof.
  destruct v as [| |b|n|s]; simpl; try (intros [= <-]; reflexivity).
  destruct (String.eqb s EmptyString); [intros [= <-]; reflexivity|].
  destruct (Number_of_string s); [|discriminate].
  intros [= <-]. reflexivity.
Qed.

Lemma history_create_inv n doc st r st' :
  history_create n doc st = (r, st') ->
  assets st' = assets st /\
  (histories st' = histories st \/
   exists k h, n = Some k /\ cast_history (doc k) = Some h /\
               valid_history h = true /\
               histories st' = histories st ++ [h]).
Proof.
  intros H. apply guarded_inv in H as [(e & -> & Ha & Hh)|(k & -> & H)].
  - auto.
  - destruct (cast_history (doc k)) as [h|] eqn:Ec;
      [destruct (valid_history h) eqn:Ev|];
      inversion H; subst; simpl; split; auto.
    right. eauto 10.
Qed.

Lemma replace_first_elem p new l l' :
  replace_first p new l = Some l' -> new ∈ l'.
Proof.
  revert l'. induction l as [|a l IH]; simpl; [discriminate|].
  intros l'. destruct (p a).
  - intros [= <-]. apply list_elem_of_here.
  - destruct (replace_first p new l) as [l0|] eqn:E; simpl; [|discriminate].
    intros [= <-]. apply list_elem_of_further. now apply IH.
Qed.

Lemma asset_upsert_inv n data st r st' :
  asset_upsert n data st = (r, st') ->
  histories st' = histories st /\
  forall o, r = Ok o ->
    exists k, n = Some k /\ cast_asset (data k) = Some o /\
              o ∈ assets st'.
Proof.
  intros H. apply guarded_inv in H as [(e & -> & Ha & Hh)|(k & -> & H)].
  - split; auto. discriminate.
  - destruct (cast_asset (data k)) as [doc|] eqn:Ec; simpl in H;
      injection H as <- <-; (split; [reflexivity|]); [|discriminate].
    intros o [= <-]. exists k. split; [reflexivity|]. split; [exact Ec|].
    cbn. destruct (replace_first _ doc (assets st)) as [l|] eqn:E.
    + eapply replace_first_elem; eauto.
    + apply elem_of_app. right. apply list_elem_of_here.
Qed.

Lemma find_none_forall {A} (f : A -> bool) l :
  find f l = None -> forall x, x ∈ l -> f x = false.
Proof.
  intros H x Hx. apply list_elem_of_In in Hx.
  eapply find_none in H; eauto.
Qed.

End StoreFacts.

Module ResultFacts.
Import Js Schema Store InspectService StoreFacts.

Lemma saveHistory_inv response history inspectData uniqueId st r st' :
  saveHistory response history inspectData uniqueId st = (r, st') ->
  assets st' = assets st /\
  (histories st' = histories st \/
   exists k h,
     parseInt (itemid response) = Some k /\
     histories st' = histories st ++ [h] /\
     h_assetId h = k /\ h_uniqueId h = uniqueId /\
     forall h0, h0 ∈ histories st -> h_assetId h0 <> k).
Proof.
  unfold saveHistory, bind.
  destruct (history_findOne_assetId _ st) as [[existing|e] st1] eqn:E1.
  - apply history_findOne_assetId_inv in E1 as (Ha & Hh & Hfind).
    destruct (Hfind _ eq_refl) as (k & Hk & Hex).
    destruct existing as [x|].
    + intros [= <- <-]. auto.
    + intros H. apply history_create_inv in H
        as [Ha' [Hh'|(k' & h & Hk' & Hc & _ & Hh')]].
      * split; [congruence|]. left. congruence.
      * split; [congruence|]. right.
        assert (k' = k) by congruence. subst k'.
        apply cast_history_inv in Hc as (_ & _ & Hu & Hi & _).
        exists k, h. split; [exact Hk|].
        split; [rewrite Hh', Hh; reflexivity|].
        split; [exact Hi|]. split; [exact Hu|].
        intros h0 Hin Heq. symmetry in Hex.
        apply (find_none_forall _ _ Hex) in Hin.
        apply Z.eqb_neq in Hin. contradiction.
  - apply history_findOne_assetId_inv in E1 as (Ha & Hh & _).
    intros [= <- <-]. auto.
Qed.

(** The record that [saveHistory] appends is the object it builds, as
    the History schema casts it. *)
Lemma saveHistory_record response history inspectData uniqueId st r st' h :
  saveHistory response history inspectData uniqueId st = (r, st') ->
  histories st' = histories st ++ [h] ->
  exists k,
    parseInt (itemid response) = Some k /\
    cast_history
      (Inv.history_record response history inspectData uniqueId k) = Some h /\
    valid_history h = true.
Proof.
  unfold saveHistory, bind.
  assert (Hno : histories st <> histories st ++ [h]).
  { intros E. apply (f_equal length) in E.
    rewrite length_app in E. simpl in E. lia. }
  destruct (history_findOne_assetId _ st) as [[existing|e] st1] eqn:E1.
  - apply history_findOne_assetId_inv in E1 as (_ & Hh & _).
    destruct existing as [x|].
    + intros [= <- <-] E. rewrite Hh in E. contradiction.
    + intros H E. apply history_create_inv in H
        as [_ [Hh'|(k & h' & Hk & Hc & Hv & Hh')]].
      * rewrite Hh', Hh in E. contradiction.
      * rewrite Hh', Hh in E. apply app_inv_head in E.
        injection E as ->. exists k. auto.
  - apply history_findOne_assetId_inv in E1 as (_ & Hh & _).
    intros [= <- <-] E. rewrite Hh in E. contradiction.
Qed.

Lemma saveAsset_inv response inspectData uniqueId st r st' :
  saveAsset response inspectData uniqueId st = (r, st') ->
  histories st' = histories st /\
  forall o, r = Ok o ->
    exists k doc,
      parseInt (itemid response) = Some k /\
      cast_asset (assetData response inspectData uniqueId k) = Some doc /\
      doc ∈ assets st' /\
      o = find (fun a => a_assetId a =? k) (assets st').
Proof.
  unfold saveAsset, bind.
  destruct (asset_upsert _ _ st) as [[doc|e] st1] eqn:E1.
  - apply asset_upsert_inv in E1 as (Hh & Hdoc).
    destruct (Hdoc _ eq_refl) as (k & Hk & Hc & Hin).
    intros H. apply asset_findOne_assetId_inv in H as (Ha & Hh' & Hfind).
    split; [congruence|]. intros o ->.
    destruct (Hfind _ eq_refl) as (k' & Hk' & ->).
    assert (k' = k) by congruence. subst k'.
    exists k, doc. rewrite Ha. auto.
  - apply asset_upsert_inv in E1 as (Hh & _).
    intros [= <- <-]. split; [exact Hh|]. discriminate.
Qed.

Section WithFormatter.
Context {Formatted : Type} (formatResponse : Asset -> Formatted).

(** What one run of [handleInspectResult] does to the two
    collections and what it returns. *)
Lemma handleInspectResult_inv response inspectData st r st' :
  handleInspectResult formatResponse response inspectData st = (r, st') ->
  (histories st' = histories st \/
   history_guard response = true /\
   exists k h,
     parseInt (itemid response) = Some k /\
     histories st' = histories st ++ [h] /\
     h_assetId h = k /\ h_uniqueId h = uniqueId_of response /\
     forall h0, h0 ∈ histories st -> h_assetId h0 <> k) /\
  forall f, r = Ok f ->
    exists k doc,
      parseInt (itemid response) = Some k /\
      cast_asset (assetData response inspectData (uniqueId_of response) k)
        = Some doc /\
      doc ∈ assets st' /\
      exists asset, asset ∈ assets st' /\ a_assetId asset = k /\
                    f = formatResponse asset.
Proof.
  unfold handleInspectResult, try_catch, bind.
  set (hist := if history_guard response then _ else _).
  destruct (hist st) as [[[]|e] st1] eqn:E1.
  - assert (Hhist : histories st1 = histories st \/
             history_guard response = true /\
             exists k h,
               parseInt (itemid response) = Some k /\
               histories st1 = histories st ++ [h] /\
               h_assetId h = k /\ h_uniqueId h = uniqueId_of response /\
               forall h0, h0 ∈ histories st -> h_assetId h0 <> k).
    { subst hist. destruct (history_guard response); [|inversion E1; auto].
      unfold bind in E1.
      destruct (findHistory response st) as [[h|e] st0] eqn:E0;
        [|inversion E1; subst;
          apply asset_findLatest_inv in E0 as [_ ->]; auto].
      apply asset_findLatest_inv in E0 as [Ha0 Hh0].
      apply saveHistory_inv in E1 as [_ [H|(k & x & Hk & Hx & Hrest)]].
      - left. congruence.
      - right. split; [reflexivity|]. exists k, x.
        rewrite <- Hh0. auto. }
    destruct (saveAsset _ _ _ st1) as [[asset|e] st2] eqn:E2.
    + apply saveAsset_inv in E2 as (Hh2 & Hok).
      destruct (Hok _ eq_refl) as (k & doc & Hk & Hc & Hin & Hfind).
      destruct asset as [asset|]; intros [= <- <-].
      * split; [rewrite Hh2; exact Hhist|].
        intros f [= <-]. exists k, doc. split; [exact Hk|].
        split; [exact Hc|]. split; [exact Hin|].
        exists asset. symmetry in Hfind.
        apply find_some in Hfind as [Hin' Heq].
        apply list_elem_of_In in Hin'. apply Z.eqb_eq in Heq. auto.
      * split; [rewrite Hh2; exact Hhist|]. discriminate.
    + apply saveAsset_inv in E2 as (Hh2 & _).
      intros [= <- <-]. split; [rewrite Hh2; exact Hhist|]. discriminate.
  - intros [= <- <-]. split; [|discriminate].
    subst hist. destruct (history_guard response); [|inversion E1].
    unfold bind in E1.
    destruct (findHistory response st) as [[h|e'] st0] eqn:E0.
    + apply asset_findLatest_inv in E0 as [Ha0 Hh0].
      apply saveHistory_inv in E1 as [_ [H|(k & x & Hk & Hx & Hrest)]].
      * left. congruence.
      * right. split; [reflexivity|]. exists k, x.
        rewrite <- Hh0. auto.
    + inversion E1; subst.
      apply asset_findLatest_inv in E0 as [_ ->]. auto.
Qed.

(** The history record that a run of [handleInspectResult] appends:
    the prior record it is built from is the latest document of the
    asset collection that answers the query of [findHistory]. *)
Lemma handleInspectResult_record response inspectData st r st' h :
  handleInspectResult formatResponse response inspectData st = (r, st') ->
  histories st' = histories st ++ [h] ->
  exists k,
    parseInt (itemid response) = Some k /\
    cast_history
      (Inv.history_record response
         (prior_of_asset <$> find (same_item response) (rev (assets st)))
         inspectData (uniqueId_of response) k) = Some h /\
    valid_history h = true.
Proof.
  unfold handleInspectResult, try_catch, bind.
  set (hist := if history_guard response then _ else _).
  assert (Hno : histories st <> histories st ++ [h]).
  { intros E'. apply (f_equal length) in E'.
    rewrite length_app in E'. simpl in E'. lia. }
  assert (Hhist : forall x st1, hist st = (x, st1) ->
            histories st1 = histories st ++ [h] ->
            exists k,
              parseInt (itemid response) = Some k /\
              cast_history
                (Inv.history_record response
                   (prior_of_asset <$>
                      find (same_item response) (rev (assets st)))
                   inspectData (uniqueId_of response) k) = Some h /\
              valid_history h = true).
  { subst hist. intros x st1 E1 E.
    destruct (history_guard response);
      [|inversion E1; subst; contradiction].
    unfold bind in E1.
    destruct (findHistory response st) as [[prior|e] st0] eqn:E0.
    - pose proof (asset_findLatest_found _ _ _ _ E0) as ->.
      apply asset_findLatest_inv in E0 as [_ Hh0]. rewrite <- Hh0 in E.
      exact (saveHistory_record _ _ _ _ _ _ _ _ E1 E).
    - inversion E1; subst.
      apply asset_findLatest_inv in E0 as [_ Hh0]. rewrite Hh0 in E.
      contradiction. }
  destruct (hist st) as [[[]|e] st1] eqn:E1.
  - destruct (saveAsset _ _ _ st1) as [[asset|e] st2] eqn:E2;
      apply saveAsset_inv in E2 as (Hh2 & _).
    + destruct asset; intros [= <- <-] E; rewrite Hh2 in E; eauto.
    + intros [= <- <-] E. rewrite Hh2 in E. eauto.
  - intros [= <- <-] E. eauto.
Qed.

(** Whatever the store holds, a history record that
    [handleInspectResult] writes for an owner id given as a string is
    of type [UNKNOWN] as soon as it names a predecessor: the prior
    record is a document of the asset collection, on which the
    classifier finds no [owner]. *)
Lemma handleInspectResult_prior_unknown response owner proof st h :
  histories
    (snd (handleInspectResult formatResponse response
            {| ms := VStr owner; d := proof |} st))
    = histories st ++ [h] ->
  is_Some (h_prevAssetId h) ->
  h_type h = UNKNOWN.
Proof.
  intros H Hprev.
  destruct (handleInspectResult formatResponse response
              {| ms := VStr owner; d := proof |} st) as [r st'] eqn:E.
  simpl in H.
  destruct (handleInspectResult_record _ _ _ _ _ _ E H) as (k & _ & Hc & _).
  apply cast_history_inv in Hc
    as (_ & _ & _ & _ & Hp & _ & _ & _ & _ & _ & Ht).
  rewrite Ht. unfold Inv.history_record in *. cbn [h_type h_prevAssetId] in *.
  destruct (find (same_item response) (rev (assets st))) as [a|];
    [reflexivity|].
  simpl in Hp. rewrite Hp in Hprev. destruct Hprev; discriminate.
Qed.

Lemma operation_ok {A} (body : t -> result A * t) st :
  Spec.never_fails st -> operation body st = body (tick st).
Proof. intros H. unfold operation. now rewrite H. Qed.

Lemma find_in_exists {A} (f : A -> bool) l x :
  x ∈ l -> f x = true -> exists y, find f l = Some y.
Proof.
  intros Hin Hf. destruct (find f l) eqn:E; [eauto|].
  apply (find_none_forall _ _ E) in Hin. congruence.
Qed.

(** On a store that refuses nothing and holds documents written
    through the schema, [handleInspectResult] returns for every inspect
    result whose item id is a number, when the owner id spells a number
    and the proof token has at most 64 characters. *)
Lemma handleInspectResult_succeeds response inspectData st k n :
  Spec.never_fails st ->
  Forall (fun a => cast_Number (a_ms a) = Some (a_ms a)) (assets st) ->
  parseInt (itemid response) = Some k ->
  cast_Number (ms inspectData) = Some (VNum n) ->
  (String.length (d inspectData) <= 64)%nat ->
  exists f st',
    handleInspectResult formatResponse response inspectData st = (Ok f, st').
Proof.
  intros Hrel Hcast Hk Hms Hd.
  unfold handleInspectResult, try_catch, bind.
  set (hist := if history_guard response then _ else _).
  assert (Hhist : exists st1, hist st = (Ok tt, st1) /\ Spec.never_fails st1).
  { subst hist. destruct (history_guard response).
    - unfold bind, findHistory, asset_findLatest.
      rewrite operation_ok by exact Hrel. cbv beta iota.
      unfold saveHistory, bind, history_findOne_assetId.
      rewrite operation_ok by exact Hrel. rewrite Hk.
      unfold cast_assetId. cbv beta iota.
      destruct (find _ (histories _)).
      + eexists. split; [reflexivity|exact Hrel].
      + unfold history_create. rewrite operation_ok by exact Hrel.
        unfold cast_assetId, cast_history. cbn [h_owner h_prevOwner].
        rewrite Hms.
        assert (Hprev : exists w,
          cast_Number
            (from_option p_ms VUndefined
               (prior_of_asset <$>
                  find (same_item response) (rev (assets (tick st)))))
            = Some w).
        { destruct (find _ _) as [a|] eqn:Ef; simpl; [|eauto].
          apply find_some in Ef as [Hin _]. apply in_rev in Hin.
          apply list_elem_of_In in Hin.
          rewrite list.Forall_forall in Hcast. eauto. }
        destruct Hprev as [w ->]. unfold valid_history. cbn [h_owner h_d].
        apply Nat.leb_le in Hd. rewrite Hd.
        eexists. split; [reflexivity|exact Hrel].
    - exists st. split; [reflexivity|exact Hrel]. }
  destruct Hhist as (st1 & -> & Hrel1).
  unfold saveAsset, bind, asset_upsert.
  rewrite operation_ok by exact Hrel1. rewrite Hk.
  unfold cast_assetId, cast_asset. cbn [a_ms assetData]. rewrite Hms.
  cbv beta iota.
  unfold asset_findOne_assetId. rewrite operation_ok by exact Hrel1.
  unfold cast_assetId. cbv beta iota. cbn [assets tick].
  match goal with |- context [find ?f (match replace_first _ ?doc _ with
                                       | Some _ => _ | None => _ end)] =>
    match goal with |- context [find f ?l] =>
      destruct (find_in_exists f l doc) as [y ->]
    end
  end.
  - destruct (replace_first _ _ _) eqn:E.
    + eapply replace_first_elem; eauto.
    + apply elem_of_app. right. apply list_elem_of_here.
  - simpl. apply Z.eqb_refl.
  - eauto.
Qed.

End WithFormatter.

End ResultFacts.

Module ServiceFacts.
Import Js Schema Handle Store InspectService StoreFacts.

Section WithCollaborators.
Context {Formatted : Type}.
Variable formatResponse : Asset -> Formatted.
Variable parse : InspectDto -> HttpException + Link.

Local Abbreviation State := (State (Formatted := Formatted)).

Lemma run_inv {A} (m : M A) (st : State) r st' :
  run m st = (r, st') ->
  m (store st) = (r, store st') /\ st' = with_store (store st') st.
Proof.
  unfold run. destruct (m (store st)) as [r0 s0]. intros [= <- <-]. auto.
Qed.

(** Case analysis on an awaited store computation: names its result
    [r], records what it did to the store in [E], and rewrites the
    state after it as the state before with the new store. *)
Ltac awaited r E :=
  match goal with
  | |- context [run ?m ?st] =>
      let st1 := fresh "st" in
      destruct (run m st) as [r st1] eqn:E;
      apply run_inv in E as [E ->]
  end.

Lemma checkCache_inv a d s r s' :
  checkCache formatResponse a d s = (r, s') ->
  assets s' = assets s /\ histories s' = histories s /\
  exists c, r = Ok c.
Proof.
  unfold checkCache, try_catch, bind.
  destruct (asset_findOne_assetId _ s) as [[o|e] s1] eqn:E;
    apply asset_findOne_assetId_inv in E as (Ha & Hh & _).
  - destruct o; intros [= <- <-]; eauto.
  - intros [= <- <-]; eauto.
Qed.

(** Consulting the cache only reads the store. *)
Lemma consult_cache_inv query a d (st : State) c st' :
  consult_cache formatResponse query a d st = (c, st') ->
  st' = with_store (store st') st /\
  assets (store st') = assets (store st) /\
  histories (store st') = histories (store st).
Proof.
  unfold consult_cache. destruct (negb (refresh query)).
  - destruct (run _ st) as [r st1] eqn:E. apply run_inv in E as [E ->].
    apply checkCache_inv in E as (Ha & Hh & _). simpl in *.
    destruct r; intros [= <- <-]; auto.
  - intros [= <- <-]. destruct st; auto.
Qed.

Lemma inspectItem_store query (st : State) :
  assets (store (snd (inspectItem formatResponse parse query st)))
    = assets (store st) /\
  histories (store (snd (inspectItem formatResponse parse query st)))
    = histories (store st).
Proof.
  unfold inspectItem.
  destruct (parse query) as [e|[s a d m]]; [auto|].
  destruct (consult_cache _ _ _ _ _) as [c st1] eqn:E.
  apply consult_cache_inv in E as (-> & Ha & Hh). simpl in Ha, Hh.
  destruct c; [auto|].
  destruct (QueueService.isFull _); [auto|].
  destruct (reply query) as [[]|]; auto.
Qed.

Lemma inspectItem_inspects query (st : State) :
  inspects (snd (inspectItem formatResponse parse query st)) = inspects st.
Proof.
  unfold inspectItem.
  destruct (parse query) as [e|[s a d m]]; [reflexivity|].
  destruct (consult_cache _ _ _ _ _) as [c st1] eqn:E.
  apply consult_cache_inv in E as (-> & _). 
  destruct c; [reflexivity|].
  destruct (QueueService.isFull _); [reflexivity|].
  destruct (reply query) as [[]|]; reflexivity.
Qed.

Lemma fire_frame id (st : State) :
  inspects (fire id st) = inspects st /\ store (fire id st) = store st.
Proof.
  unfold fire. destruct (timers st !! id) as [[[p|a] t]|]; auto.
Qed.

Lemma on_error_frame call msg (st : State) :
  inspects (on_error call msg st) = inspects st /\
  store (on_error call msg st) = store st.
Proof.
  unfold on_error. destruct (awaiting st !! call) as [[]|]; auto.
Qed.

Lemma on_response_inspects call response (st : State) :
  inspects (on_response formatResponse call response st) = inspects st.
Proof.
  unfold on_response. destruct (awaiting st !! call) as [[p t a data|a data]|];
    [| |reflexivity].
  - awaited r E. destruct r; reflexivity.
  - awaited r E. reflexivity.
Qed.

(** The private [inspects] map is left alone by every event. *)
Lemma step_inspects (st : State) e :
  inspects (step formatResponse parse st e) = inspects st.
Proof.
  destruct e; simpl.
  - apply inspectItem_inspects.
  - apply fire_frame.
  - apply on_response_inspects.
  - apply on_error_frame.
Qed.

(** A worker response runs [handleInspectResult] at most once. *)
Lemma on_response_store call response (st : State) :
  store (on_response formatResponse call response st) = store st \/
  exists inspectData r,
    handleInspectResult formatResponse response inspectData (store st)
      = (r, store (on_response formatResponse call response st)).
Proof.
  unfold on_response. destruct (awaiting st !! call) as [[p t a data|a data]|];
    [| |auto].
  - right. exists data. awaited r E. destruct r; simpl in *; eauto.
  - right. exists data. awaited r E. simpl in *; eauto.
Qed.

(** A cache miss leaves everything but the store's operation count as
    it was. *)
Lemma consult_cache_queue query a d (st : State) c st' :
  consult_cache formatResponse query a d st = (c, st') ->
  queue st' = queue st /\ requests st' = requests st /\
  awaiting st' = awaiting st /\ timers st' = timers st /\
  next_timer st' = next_timer st /\ settled st' = settled st /\
  next_promise st' = next_promise st /\
  QUEUE_TIMEOUT st' = QUEUE_TIMEOUT st /\ counters st' = counters st.
Proof.
  intros H. apply consult_cache_inv in H as (-> & _). repeat split.
Qed.

(** What [inspectItem] does once the cache has been consulted. *)
Lemma inspectItem_unfold query (st : State) s a d m c st1 :
  parse query = inr {| l_s := s; l_a := a; l_d := d; l_m := m |} ->
  consult_cache formatResponse query a d
    (with_counters bump_currentRequests st) = (c, st1) ->
  inspectItem formatResponse parse query st =
    match c with
    | Some cachedAsset =>
        (Returned (Item cachedAsset),
         incrementCached (with_counters bump_cached st1))
    | None =>
        if QueueService.isFull (queue st1)
        then (Threw (queue_full st1), st1)
        else
          match reply query with
          | Some false =>
              (Returned (Object (acknowledgment a)),
               processInspectionInBackground s a d m (lowPriority query) st1)
          | _ =>
              let '(promise, st2) := new_promise st1 in
              let '(timeoutId, st3) :=
                setTimeout (ReplyTimeout promise) (QUEUE_TIMEOUT st2) st2 in
              (Awaiting promise,
               call_worker
                 {| w_s := s; w_a := a; w_d := d; w_m := m;
                    w_priority := priority_of (lowPriority query) |}
                 (ReplyCont promise timeoutId a
                    {| ms := VStr (owner_of s m); d := d |})
                 (with_queue (fun q => snd (QueueService.add a
                    {| q_ms := owner_of s m;
                       q_d := d;
                       q_completion := Caller promise;
                       q_timeoutId := timeoutId;
                       q_retryCount := 0;
                       q_inspectUrl :=
                         {| l_s := s; l_a := a; l_d := d; l_m := m |};
                       q_priority := priority_of (lowPriority query) |}
                    q)) st3))
          end
    end.
Proof.
  intros P C. unfold inspectItem. rewrite P, C. reflexivity.
Qed.

Lemma inspectItem_QUEUE_TIMEOUT query (st : State) :
  QUEUE_TIMEOUT (snd (inspectItem formatResponse parse query st))
    = QUEUE_TIMEOUT st.
Proof.
  unfold inspectItem.
  destruct (parse query) as [e|[s a d m]]; [reflexivity|].
  destruct (consult_cache _ _ _ _ _) as [c st1] eqn:E.
  apply consult_cache_inv in E as (-> & _).
  destruct c; [reflexivity|].
  destruct (QueueService.isFull _); [reflexivity|].
  destruct (reply query) as [[]|]; reflexivity.
Qed.

(** The deadline of every request is the configured one. *)
Lemma step_QUEUE_TIMEOUT (st : State) e :
  QUEUE_TIMEOUT (step formatResponse parse st e) = QUEUE_TIMEOUT st.
Proof.
  destruct e as [query|id|call response|call msg]; simpl.
  - apply inspectItem_QUEUE_TIMEOUT.
  - unfold fire. destruct (timers st !! id) as [[[p|a] t]|]; reflexivity.
  - unfold on_response.
    destruct (awaiting st !! call) as [[p t a data|a data]|]; [| |reflexivity].
    + awaited r E. destruct r; reflexivity.
    + awaited r E. reflexivity.
  - unfold on_error. destruct (awaiting st !! call) as [[]|]; reflexivity.
Qed.

(** A pending timer was pending before the event, or the event armed
    it with the configured deadline. *)
Lemma step_timers (st : State) e id t :
  timers (step formatResponse parse st e) !! id = Some t ->
  timers st !! id = Some t \/ delay t = QUEUE_TIMEOUT st.
Proof.
  destruct e as [query|id0|call response|call msg]; simpl.
  - unfold inspectItem.
    destruct (parse query) as [e|[s a d m]]; [auto|].
    destruct (consult_cache _ _ _ _ _) as [c st1] eqn:E.
    apply consult_cache_inv in E as (-> & _).
    destruct c; [auto|].
    destruct (QueueService.isFull _); [auto|].
    destruct (reply query) as [[]|]; simpl;
      (rewrite lookup_insert; case_decide;
       [intros [= <-]; right; reflexivity|auto]).
  - unfold fire. destruct (timers st !! id0) as [[[p|a] t0]|] eqn:E0; simpl;
      try (rewrite lookup_delete; case_decide; [discriminate|auto]); auto.
  - unfold on_response.
    destruct (awaiting st !! call) as [[p t0 a data|a data]|]; [| |auto].
    + awaited r E. destruct r; simpl;
        (rewrite lookup_delete; case_decide; [discriminate|auto]).
    + awaited r E. simpl; auto.
  - unfold on_error.
    destruct (awaiting st !! call) as [[p t0 a data|a data]|]; simpl; auto.
    rewrite lookup_delete; case_decide; [discriminate|auto].
Qed.

Lemma reachable_timers (st : State) :
  reachable formatResponse parse st ->
  forall id t, timers st !! id = Some t -> delay t = QUEUE_TIMEOUT st.
Proof.
  induction 1 as [t0 m db|st e _ IH]; intros id t Ht.
  - simpl in Ht. rewrite lookup_empty in Ht. discriminate.
  - rewrite step_QUEUE_TIMEOUT.
    apply step_timers in Ht as [Ht|Ht]; eauto.
Qed.

End WithCollaborators.

End ServiceFacts.

Module QueueFacts.
Import Handle QueueService.

Lemma add_capacity a i q : capacity (snd (add a i q)) = capacity q.
Proof.
  unfold add. destruct (entries q !! a); [reflexivity|].
  destruct (isFull q); reflexivity.
Qed.

(** After [add] on a queue that is not full the asset has an entry. *)
Lemma add_present a i q :
  isFull q = false -> is_Some (entries (snd (add a i q)) !! a).
Proof.
  intros H. unfold add. destruct (entries q !! a) eqn:E; simpl.
  - rewrite lookup_insert_eq. eauto.
  - rewrite H. simpl. rewrite lookup_insert_eq. eauto.
Qed.

(** A new asset takes one more place. *)
Lemma add_fresh a i q :
  entries q !! a = None -> isFull q = false ->
  size (snd (add a i q)) = S (size q) /\
  forall b, b <> a -> entries (snd (add a i q)) !! b = entries q !! b.
Proof.
  intros E H. unfold add. rewrite E, H. unfold size. simpl. split.
  - now apply map_size_insert_None.
  - intros b Hb. now apply lookup_insert_ne.
Qed.

Lemma remove_absent a q : entries (remove a q) !! a = None.
Proof. apply lookup_delete_eq. Qed.

End QueueFacts.

Module AdmissionFacts.
Import Js Schema Handle Store InspectService.

Section WithCollaborators.
Context {Formatted : Type}.
Variable formatResponse : Asset -> Formatted.
Variable parse : InspectDto -> HttpException + Link.

Local Abbreviation State := (State (Formatted := Formatted)).

(** With room in the queue, a request is served from the cache or
    admitted, and then its asset is added to the queue. *)
Lemma inspectItem_admit query (st : State) a c st' :
  Spec.asks_for parse query a ->
  QueueService.isFull (queue st) = false ->
  inspectItem formatResponse parse query st = (c, st') ->
  Spec.served_from_cache c \/
  (Spec.admitted c /\
   exists i, queue st' = snd (QueueService.add a i (queue st))).
Proof.
  intros (s & d & m & P) F.
  destruct (consult_cache formatResponse query a d
              (with_counters bump_currentRequests st)) as [hit st1] eqn:C.
  rewrite (ServiceFacts.inspectItem_unfold _ _ _ _ _ _ _ _ _ _ P C).
  apply ServiceFacts.consult_cache_queue in C as (Hq & _). simpl in Hq.
  destruct hit as [cachedAsset|].
  - intros [= <- <-]. left. eexists. reflexivity.
  - rewrite Hq, F. right.
    destruct (reply query) as [[]|]; simpl in H; injection H as <- <-;
      (split; [unfold Spec.admitted; eauto|]);
      simpl; rewrite Hq; eauto.
Qed.

(** With a full queue, a request is served from the cache or refused
    with status 429, and then the worker manager is not called. *)
Lemma inspectItem_refuse query (st : State) a c st' :
  Spec.asks_for parse query a ->
  QueueService.isFull (queue st) = true ->
  inspectItem formatResponse parse query st = (c, st') ->
  Spec.served_from_cache c \/
  (Spec.QueueFull c /\ requests st' = requests st /\
   awaiting st' = awaiting st /\ queue st' = queue st).
Proof.
  intros (s & d & m & P) F.
  destruct (consult_cache formatResponse query a d
              (with_counters bump_currentRequests st)) as [hit st1] eqn:C.
  rewrite (ServiceFacts.inspectItem_unfold _ _ _ _ _ _ _ _ _ _ P C).
  apply ServiceFacts.consult_cache_queue in C as (Hq & Hr & Ha & _).
  simpl in Hq, Hr, Ha.
  destruct hit as [cachedAsset|].
  - intros [= <- <-]. left. eexists. reflexivity.
  - rewrite Hq, F. intros [= <- <-]. right.
    split; [eexists; split; reflexivity|auto].
Qed.

(** Filling the queue: of requests for pairwise distinct assets, none
    of them queued or cached, exactly as many are admitted as there are
    free places, and the next one is refused. *)
Lemma submit_fill queries : forall ids (st : State) outs st',
  Forall2 (Spec.asks_for parse) queries ids ->
  NoDup ids ->
  (forall a, a ∈ ids -> QueueService.entries (queue st) !! a = None) ->
  (QueueService.size (queue st) + length queries
   = S (QueueService.capacity (queue st)))%nat ->
  queries <> [] ->
  submit formatResponse parse queries st = (outs, st') ->
  Forall (fun c => ~ Spec.served_from_cache c) outs ->
  exists firsts last,
    outs = firsts ++ [last] /\
    Spec.QueueFull last /\
    Forall Spec.admitted firsts /\
    S (length firsts) = length queries.
Proof.
  induction queries as [|query rest IH]; [congruence|].
  intros ids st outs st' Hasks Hnd Hfree Hsize _ Hsub Hmiss.
  apply Forall2_cons_inv_l in Hasks as (a & ids' & Hask & Hasks & ->).
  apply list.NoDup_cons in Hnd as [Hnotin Hnd].
  simpl in Hsub.
  destruct (inspectItem formatResponse parse query st) as [c st1] eqn:E1.
  destruct (submit formatResponse parse rest st1) as [cs st2] eqn:E2.
  injection Hsub as <- <-.
  apply list.Forall_cons in Hmiss as [Hc Hcs].
  destruct rest as [|query' rest'].
  - simpl in E2. injection E2 as <- <-.
    assert (F : QueueService.isFull (queue st) = true).
    { unfold QueueService.isFull. apply Nat.leb_le. simpl in Hsize. lia. }
    destruct (inspectItem_refuse _ _ _ _ _ Hask F E1) as [Hhit|[Hfull _]];
      [contradiction|].
    exists [], c. repeat split; auto.
  - assert (F : QueueService.isFull (queue st) = false).
    { unfold QueueService.isFull. apply Nat.leb_gt. simpl in Hsize. lia. }
    destruct (inspectItem_admit _ _ _ _ _ Hask F E1) as [Hhit|[Hadm [i Hq]]];
      [contradiction|].
    assert (Ha : QueueService.entries (queue st) !! a = None)
      by (apply Hfree, list_elem_of_here).
    destruct (QueueFacts.add_fresh a i _ Ha F) as [Hs Hother].
    assert (Hfree' : forall b, b ∈ ids' ->
                       QueueService.entries (queue st1) !! b = None).
    { intros b Hb. rewrite Hq, Hother.
      - apply Hfree, list_elem_of_further, Hb.
      - intros ->. contradiction. }
    assert (Hsize' : (QueueService.size (queue st1) + length (query' :: rest')
                      = S (QueueService.capacity (queue st1)))%nat).
    { rewrite Hq, Hs, QueueFacts.add_capacity. simpl in *. lia. }
    assert (Hne : query' :: rest' <> []) by discriminate.
    destruct (IH ids' st1 cs st2 Hasks Hnd Hfree' Hsize' Hne E2 Hcs)
      as (firsts & last & -> & H1 & H2 & H3).
    exists (c :: firsts), last. repeat split; auto.
    simpl in *. lia.
Qed.

End WithCollaborators.

End AdmissionFacts.

Module WorkerFacts.
Import Js BotWorker.



Section WithWorld.
Variable world : World.

Lemma on_failure_attempts i user message w :
  attempts (on_failure world i user message w)
    = attempts w ++
      [{| position := i; username := user; result := Failed message |}] /\
  MAX_RETRIES (on_failure world i user message w) = MAX_RETRIES w.
Proof.
  unfold on_failure.
  destruct (String.eqb message "ACCOUNT_DISABLED");
    [|destruct (String.eqb message "LOGIN_THROTTLED")]; auto.
Qed.

Lemma singleton_split {A} (x a : A) pre post :
  [x] = pre ++ a :: post -> pre = [] /\ a = x /\ post = [].
Proof.
  destruct pre as [|y [|z pre]]; try discriminate.
  intros [= <- <-]. auto.
Qed.

Lemma retry_spec remaining i user : forall w,
  exists new,
    Spec.retry_post world remaining i user w (retry world remaining i user w)
                    new.
Proof.
  unfold Spec.retry_post.
  induction remaining as [|remaining IH]; intros w; simpl.
  - exists []. rewrite app_nil_r.
    split; [reflexivity|]. split; [reflexivity|]. split; [constructor|].
    split; [reflexivity|].
    split; intros pre a post E; destruct pre; discriminate.
  - destruct (initialize world (logins w)) as [isReady|message] eqn:Einit.
    + exists [{| position := i; username := user;
                 result := LoggedIn isReady |}].
      simpl. split; [reflexivity|]. split; [lia|].
      split; [repeat constructor|]. split; [reflexivity|].
      split; intros pre a post E R;
        apply singleton_split in E as (_ & -> & _); discriminate.
    + destruct (on_failure_attempts i user message w) as [Hlog Hmax].
      destruct (String.eqb message "ACCOUNT_DISABLED") eqn:Ed;
        [|destruct (String.eqb message "LOGIN_THROTTLED") eqn:Et].
      * apply String.eqb_eq in Ed. subst message.
        eexists. split; [exact Hlog|]. simpl.
        split; [lia|]. split; [repeat constructor|]. split; [exact Hmax|].
        split; intros pre a post E R;
          apply singleton_split in E as (_ & -> & ->); [|discriminate].
        split; [reflexivity|].
        intros acc Hacc. unfold on_failure in Hacc. simpl in Hacc.
        apply list_elem_of_filter in Hacc as [Hacc _].
        now apply negb_true_iff in Hacc.
      * apply String.eqb_eq in Et. subst message.
        eexists. split; [exact Hlog|]. simpl.
        split; [lia|]. split; [repeat constructor|]. split; [exact Hmax|].
        split; intros pre a post E R;
          apply singleton_split in E as (_ & -> & ->); [discriminate|].
        split; [reflexivity|].
        exists (clock w). unfold on_failure. simpl.
        split; [reflexivity|]. apply lookup_insert_eq.
      * destruct (IH (on_failure world i user message w))
          as (new & Hnew & Hlen & Hall & Hmax' & Hdis & Hthr).
        exists ({| position := i; username := user;
                   result := Failed message |} :: new).
        rewrite Hnew, Hlog, <- app_assoc. simpl.
        split; [reflexivity|]. split; [lia|].
        split; [constructor; [split; reflexivity|exact Hall]|].
        split; [congruence|].
        split; intros pre a post E R.
        -- destruct pre as [|x pre]; injection E as <- E.
           ++ simpl in R. injection R as ->. discriminate.
           ++ eapply Hdis; eauto.
        -- destruct pre as [|x pre]; injection E as <- E.
           ++ simpl in R. injection R as ->. discriminate.
           ++ eapply Hthr; eauto.
Qed.

Lemma is_throttled_frame user w :
  attempts (snd (is_throttled world user w)) = attempts w /\
  MAX_RETRIES (snd (is_throttled world user w)) = MAX_RETRIES w /\
  accounts (snd (is_throttled world user w)) = accounts w /\
  throttledAccounts (snd (is_throttled world user w)) = throttledAccounts w.
Proof.
  unfold is_throttled. destruct (throttledAccounts w !! user) as [expiry|];
    [destruct (expiry =? 0)|]; auto.
Qed.

(** The body of the loop over the partition, for one account. *)
Lemma initializeAccount_spec i account w :
  exists new,
    Spec.retry_post world (Z.to_nat (MAX_RETRIES w)) i (username_of account)
                    w (initializeAccount world w (i, account)) new.
Proof.
  unfold initializeAccount.
  destruct (is_throttled_frame (username_of account) w) as (Ha & Hm & _).
  destruct (is_throttled world (username_of account) w) as [throttled w1].
  simpl in Ha, Hm. destruct throttled.
  - exists []. unfold Spec.retry_post. rewrite app_nil_r, Ha, Hm.
    split; [reflexivity|]. split; [simpl; lia|]. split; [constructor|].
    split; [reflexivity|].
    split; intros pre a post E; destruct pre; discriminate.
  - destruct (retry_spec (Z.to_nat (MAX_RETRIES w1)) i (username_of account) w1)
      as (new & H).
    exists new. unfold Spec.retry_post in *. rewrite Hm in *.
    rewrite Ha in H. exact H.
Qed.











End WithWorld.

End WorkerFacts.

(* ===================================================================== *)
(** ** The claims                                                         *)
(* ===================================================================== *)

Module Claims.
Import Js Schema Handle InspectService.

(** C1.  For every inspect result that [handleInspectResult] processes
    successfully, the asset document written for it, which is
    [assetData] as the schema casts it, carries as its [uniqueId] the
    first 8 hex digits of the SHA-1 of
    "{paintSeed}-{paintIndex}-{paintWear}-{defIndex}", the four values
    joined by '-', a null value counting as 0. *)
Theorem C1_uniqueId_stored
    {Formatted : Type} (formatResponse : Asset -> Formatted)
    (response : InspectResponse) (inspectData : InspectData)
    (st st' : Store.t) (f : Formatted) :
  handleInspectResult formatResponse response inspectData st
    = (Store.Ok f, st') ->
  exists assetId asset,
    parseInt (itemid response) = Some assetId /\
    asset ∈ Store.assets st' /\
    cast_asset (assetData response inspectData (uniqueId_of response) assetId)
      = Some asset /\
    a_uniqueId asset = Spec.uniqueId response.
Proof.
  intros H.
  apply ResultFacts.handleInspectResult_inv in H as [_ H].
  destruct (H f eq_refl) as (k & doc & Hk & Hc & Hin & _).
  exists k, doc. split; [exact Hk|]. split; [exact Hin|]. split; [exact Hc|].
  apply StoreFacts.cast_asset_inv in Hc as (_ & -> & _). simpl.
  apply UniqueIdFacts.uniqueId_of_spec.
Qed.

Lemma C1_witness :
  exists assetId asset,
    parseInt (itemid Sample.unboxed) = Some assetId /\
    asset ∈ Store.assets
      (snd (handleInspectResult Sample.fmt Sample.unboxed Sample.owner
                                Sample.db0)) /\
    cast_asset (assetData Sample.unboxed Sample.owner
                          (uniqueId_of Sample.unboxed) assetId)
      = Some asset /\
    a_uniqueId asset = Spec.uniqueId Sample.unboxed.
Proof.
  eapply (C1_uniqueId_stored Sample.fmt Sample.unboxed Sample.owner
                             Sample.db0).
  vm_compute. reflexivity.
Defined.

Lemma scan_stickers_range n prev rest t :
  scan_stickers n prev rest = Some t ->
  t = STICKER_CHANGE \/ t = STICKER_REMOVE \/ t = STICKER_SCRAPE.
Proof.
  induction rest as [|c rest IH]; simpl; [discriminate|].
  repeat case_match; try (intros [= <-]; auto); exact IH.
Qed.

Lemma detectStickerChanges_range cur prev t :
  detectStickerChanges cur prev = Some t ->
  t = STICKER_APPLY \/ t = STICKER_REMOVE \/
  t = STICKER_CHANGE \/ t = STICKER_SCRAPE.
Proof.
  unfold detectStickerChanges.
  repeat case_match; try discriminate; try (intros [= <-]; auto).
  intros Hscan. apply scan_stickers_range in Hscan. tauto.
Qed.

Lemma detectKeychainChanges_range cur prev t :
  detectKeychainChanges cur prev = Some t ->
  t = KEYCHAIN_REMOVED \/ t = KEYCHAIN_ADDED \/ t = KEYCHAIN_CHANGED.
Proof.
  unfold detectKeychainChanges.
  repeat case_match; try discriminate; intros [= <-]; auto.
Qed.

(** The [MARKET_LISTING] branch of the classifier is never taken: a
    prior owner that is a user while the new owner is not differs from
    the new owner, and is classified by the branch above it. *)
Lemma getHistoryType_never_MARKET_LISTING response history inspectData :
  getHistoryType response history inspectData <> MARKET_LISTING.
Proof.
  unfold getHistoryType. destruct history as [h|].
  - destruct (strict_eq (p_owner h) (ms inspectData)) eqn:E; simpl.
    + rewrite (JsFacts.strict_eq_starts_with "7656" _ _ E).
      assert (Hsame :
        match detectStickerChanges (stickers response) (p_stickers h) with
        | Some stickerChanges => stickerChanges
        | None =>
            match detectKeychainChanges (keychains response) (p_keychains h)
            with
            | Some keychainChanges => keychainChanges
            | None => UNKNOWN
            end
        end <> MARKET_LISTING).
      { destruct (detectStickerChanges _ _) as [t|] eqn:Es.
        - apply detectStickerChanges_range in Es.
          intuition (subst; discriminate).
        - destruct (detectKeychainChanges _ _) as [t|] eqn:Ek;
            [|discriminate].
          apply detectKeychainChanges_range in Ek.
          intuition (subst; discriminate). }
      destruct (truthy (p_owner h)),
               (opt_starts_with "7656" (ms inspectData)); simpl; exact Hsame.
    + destruct (opt_starts_with "7656" (p_owner h)), (truthy (p_owner h));
        simpl; discriminate.
  - repeat case_match; discriminate.
Qed.

(** On a prior record read from the asset collection the classifier
    finds no owner: whatever the two owners are, it answers
    [UNKNOWN]. *)
Lemma getHistoryType_prior_of_asset response asset newOwner proof :
  getHistoryType response (Some (prior_of_asset asset))
                 {| ms := VStr newOwner; d := proof |} = UNKNOWN.
Proof. reflexivity. Qed.

(** C2 fails in the code as it runs.  The prior record that
    [handleInspectResult] hands to the classifier is the document that
    [findHistory] reads from the asset collection; the Asset schema
    keeps the owner id in [ms] and has no [owner], which is what the
    classifier compares and tests.  So, whatever the store holds,
    every history record that names a predecessor is of type
    [UNKNOWN].  On the input below the unboxed item was served to one
    user and is then inspected, under its new item id, for another
    user: both owner ids start with "7656" and they differ, also as
    the collections store them, and the record is of type [UNKNOWN],
    not [TRADE]. *)
Theorem C2_prior_owner_not_read :
  (forall (response : InspectResponse) (owner proof : string)
          (st : Store.t) (h : History),
     Store.histories
       (snd (handleInspectResult Sample.fmt response
               {| ms := VStr owner; d := proof |} st))
       = Store.histories st ++ [h] ->
     is_Some (h_prevAssetId h) ->
     h_type h = UNKNOWN) /\
  (fun h => (h_assetId h, h_prevAssetId h, h_prevOwner h, h_owner h,
             h_type h))
    <$> Store.histories (store Cases.after_trade)
  = [ (35675800220, None, VUndefined, Sample.owner_stored, UNBOXED);
      (35675800221, Some 35675800220, Sample.owner_stored,
       VNum (Num 76561198 9), UNKNOWN) ] /\
  Spec.is_user Sample.owner_stored = true /\
  Spec.is_user (VNum (Num 76561198 9)) = true /\
  strict_eq Sample.owner_stored (VNum (Num 76561198 9)) = false.
Proof.
  split; [|vm_compute; repeat split].
  intros response owner proof st h.
  apply ResultFacts.handleInspectResult_prior_unknown.
Qed.

(** The loop of the sticker differ passes over unchanged stickers. *)
Lemma scan_stickers_skip n prev pre rest :
  Forall (Spec.unchanged prev) pre ->
  scan_stickers n prev (pre ++ rest) = scan_stickers n prev rest.
Proof.
  induction 1 as [|c pre (p & Hfind & Hwear) _ IH]; simpl; [reflexivity|].
  now rewrite Hfind, Hwear.
Qed.

Lemma scan_stickers_unchanged n prev cur :
  Forall (Spec.unchanged prev) cur -> scan_stickers n prev cur = None.
Proof.
  intros H. rewrite <- (app_nil_r cur). now rewrite scan_stickers_skip.
Qed.

(** C7, as the code has it.  More current stickers than previous ones
    give [STICKER_APPLY], fewer give [STICKER_REMOVE].  With equal
    counts the first current sticker, in array order, that is not
    unchanged decides: without a counterpart on (slot, sticker_id,
    offset_x, offset_y, offset_z, rotation) it gives [STICKER_CHANGE];
    with a counterpart of different wear it gives [STICKER_SCRAPE] when
    its wear is strictly greater and [STICKER_CHANGE] otherwise; and
    when every sticker is unchanged the differ reports nothing. *)
Theorem C7_sticker_diff (cur prev : list Sticker) :
  ((length prev < length cur)%nat ->
   detectStickerChanges (Some cur) (Some prev) = Some STICKER_APPLY) /\
  ((length cur < length prev)%nat ->
   detectStickerChanges (Some cur) (Some prev) = Some STICKER_REMOVE) /\
  (length cur = length prev ->
   (forall pre c post,
      cur = pre ++ c :: post ->
      Forall (Spec.unchanged prev) pre ->
      (find (same_placement c) prev = None ->
       detectStickerChanges (Some cur) (Some prev) = Some STICKER_CHANGE) /\
      (forall p,
         find (same_placement c) prev = Some p ->
         field_eq (wear c) (wear p) = false ->
         detectStickerChanges (Some cur) (Some prev) =
           Some (if field_gt (wear c) (wear p)
                 then STICKER_SCRAPE else STICKER_CHANGE))) /\
   (Forall (Spec.unchanged prev) cur ->
    detectStickerChanges (Some cur) (Some prev) = None)).
Proof.
  unfold detectStickerChanges. split; [|split].
  - intros H. apply Nat.ltb_lt in H. now rewrite H.
  - intros H.
    assert ((length prev <? length cur)%nat = false) as ->
      by (apply Nat.ltb_ge; lia).
    apply Nat.ltb_lt in H. now rewrite H.
  - intros Hlen.
    assert ((length prev <? length cur)%nat = false) as ->
      by (apply Nat.ltb_ge; lia).
    assert ((length cur <? length prev)%nat = false) as ->
      by (apply Nat.ltb_ge; lia).
    split.
    + intros pre c post -> Hpre.
      rewrite scan_stickers_skip by exact Hpre. simpl. split.
      * intros ->. rewrite Hlen, Nat.eqb_refl. reflexivity.
      * intros p -> ->. simpl. destruct (field_gt _ _); reflexivity.
    + apply scan_stickers_unchanged.
Qed.

(** Scenario 3, "sticker scraped": wear 0.05 before, 0.30 now. *)
Lemma C7_witness :
  detectStickerChanges
    (Some [Sample.sticker 0 202 (Some (Num 30 (-2)))])
    (Some [Sample.sticker 0 202 (Some (Num 5 (-2)))])
  = Some STICKER_SCRAPE.
Proof.
  destruct (C7_sticker_diff
              [Sample.sticker 0 202 (Some (Num 30 (-2)))]
              [Sample.sticker 0 202 (Some (Num 5 (-2)))]) as (_ & _ & H).
  destruct (H eq_refl) as [Hfirst _].
  destruct (Hfirst [] (Sample.sticker 0 202 (Some (Num 30 (-2)))) []
              eq_refl (Forall_nil _)) as [_ Hwear].
  exact (Hwear (Sample.sticker 0 202 (Some (Num 5 (-2)))) eq_refl eq_refl).
Defined.

(** C7 as stated fails: with equal counts, a first sticker without a
    counterpart and a second one whose wear strictly increased, the
    differ answers [STICKER_CHANGE], not [STICKER_SCRAPE]. *)
Lemma C7_counterexample :
  let cur := [Sample.sticker 0 300 None;
              Sample.sticker 1 202 (Some (Num 30 (-2)))] in
  let prev := [Sample.sticker 0 100 None;
               Sample.sticker 1 202 (Some (Num 5 (-2)))] in
  length cur = length prev /\
  Spec.mismatch cur prev /\
  Spec.scraped cur prev /\
  detectStickerChanges (Some cur) (Some prev) = Some STICKER_CHANGE.
Proof.
  repeat split.
  - exists (Sample.sticker 0 300 None). split; [|reflexivity].
    apply list_elem_of_here.
  - exists (Sample.sticker 1 202 (Some (Num 30 (-2)))),
           (Sample.sticker 1 202 (Some (Num 5 (-2)))).
    repeat split. apply list_elem_of_further, list_elem_of_here.
Qed.

Lemma history_guard_present response :
  history_guard response = true ->
  Spec.present (paintseed response) /\
  Spec.present (paintwear response) /\
  Spec.present (paintindex response).
Proof.
  unfold history_guard, Spec.present. intros H.
  apply andb_true_iff in H as [H H3]. apply andb_true_iff in H as [H1 H2].
  repeat split; intros E; rewrite E in *; discriminate.
Qed.

Lemma unique_history_snoc hs h :
  NoDup (Spec.history_key <$> hs) ->
  (forall h0, h0 ∈ hs -> h_assetId h0 <> h_assetId h) ->
  NoDup (Spec.history_key <$> (hs ++ [h])).
Proof.
  intros Hnd Hnew. rewrite fmap_app. apply list.NoDup_app. split; [exact Hnd|].
  split; [|apply NoDup_singleton].
  intros key Hin Hin'. apply list_elem_of_singleton in Hin'. subst key.
  apply list_elem_of_fmap in Hin as (h0 & Hkey & Hh0).
  apply (Hnew h0 Hh0). unfold Spec.history_key in Hkey. congruence.
Qed.

(** C3.  Whatever event the service handles, the history collection is
    only ever extended at its end, by at most one record.  A record is
    appended only for an inspect result whose [paintseed], [paintwear]
    and [paintindex] are all present, and only when no history record of
    that asset id exists; so the pairs (uniqueId, assetId) stay
    pairwise distinct. *)
Theorem C3_history_append_only
    {Formatted : Type} (formatResponse : Asset -> Formatted)
    (parse : InspectDto -> HttpException + Link)
    (st : State (Formatted := Formatted)) (e : Event) :
  Spec.unique_history (store st) ->
  (Store.histories (store (step formatResponse parse st e))
     = Store.histories (store st) \/
   exists call response h,
     e = WorkerResolves call response /\
     Store.histories (store (step formatResponse parse st e))
       = Store.histories (store st) ++ [h] /\
     Spec.present (paintseed response) /\
     Spec.present (paintwear response) /\
     Spec.present (paintindex response) /\
     parseInt (itemid response) = Some (h_assetId h) /\
     h_uniqueId h = Spec.uniqueId response /\
     forall h0, h0 ∈ Store.histories (store st) ->
                h_assetId h0 <> h_assetId h) /\
  Spec.unique_history (store (step formatResponse parse st e)).
Proof.
  intros Huniq.
  assert (Hsame : forall s', Store.histories s' = Store.histories (store st) ->
                             Spec.unique_history s').
  { intros s' E. unfold Spec.unique_history. now rewrite E. }
  destruct e as [query|id|call response|call msg]; simpl.
  - destruct (ServiceFacts.inspectItem_store formatResponse parse query st)
      as [_ Hh]. auto.
  - destruct (ServiceFacts.fire_frame id st) as [_ ->]. auto.
  - destruct (ServiceFacts.on_response_store formatResponse call response st)
      as [->|(data & r & H)]; [auto|].
    apply ResultFacts.handleInspectResult_inv in H as [[Hh|(Hg & k & h & H)] _];
      [auto|].
    destruct H as (Hk & Happ & Hid & Huid & Hnew). subst k.
    apply history_guard_present in Hg as (H1 & H2 & H3).
    split.
    + right. exists call, response, h.
      rewrite UniqueIdFacts.uniqueId_of_spec in Huid. auto 10.
    + unfold Spec.unique_history. rewrite Happ.
      now apply unique_history_snoc.
  - destruct (ServiceFacts.on_error_frame call msg st) as [_ ->]. auto.
Qed.

Lemma C3_witness :
  Spec.unique_history (store Sample.waiting) /\
  ((Store.histories
      (store (step Sample.fmt Sample.parse0 Sample.waiting
                   (WorkerResolves 0 Sample.unboxed)))
      = Store.histories (store Sample.waiting) \/
    exists call response h,
      WorkerResolves 0 Sample.unboxed = WorkerResolves call response /\
      Store.histories
        (store (step Sample.fmt Sample.parse0 Sample.waiting
                     (WorkerResolves 0 Sample.unboxed)))
        = Store.histories (store Sample.waiting) ++ [h] /\
      Spec.present (paintseed response) /\
      Spec.present (paintwear response) /\
      Spec.present (paintindex response) /\
      parseInt (itemid response) = Some (h_assetId h) /\
      h_uniqueId h = Spec.uniqueId response /\
      forall h0, h0 ∈ Store.histories (store Sample.waiting) ->
                 h_assetId h0 <> h_assetId h) /\
   Spec.unique_history
     (store (step Sample.fmt Sample.parse0 Sample.waiting
                  (WorkerResolves 0 Sample.unboxed)))).
Proof.
  assert (H : Spec.unique_history (store Sample.waiting))
    by (vm_compute; constructor).
  split; [exact H|].
  exact (C3_history_append_only Sample.fmt Sample.parse0 Sample.waiting
           (WorkerResolves 0 Sample.unboxed) H).
Defined.

(** C9.  In every reachable state the private [inspects] map is empty,
    so the field [service.queue.current] of the statistics, its size,
    is 0. *)
Theorem C9_queue_current_zero
    {Formatted : Type} (formatResponse : Asset -> Formatted)
    (parse : InspectDto -> HttpException + Link)
    (st : State (Formatted := Formatted)) :
  reachable formatResponse parse st ->
  inspects st = ∅ /\ current (stats st) = 0%nat.
Proof.
  intros H.
  assert (Hempty : inspects st = ∅).
  { induction H as [t m db|st e _ IH]; [reflexivity|].
    now rewrite ServiceFacts.step_inspects. }
  split; [exact Hempty|].
  unfold stats. simpl. rewrite Hempty. apply map_size_empty.
Qed.

Lemma C9_witness :
  reachable Sample.fmt Sample.parse0 Sample.served /\
  inspects Sample.served = ∅ /\ current (stats Sample.served) = 0%nat.
Proof.
  assert (H : reachable Sample.fmt Sample.parse0 Sample.served)
    by (do 2 apply reachable_step; apply reachable_init).
  split; [exact H|].
  exact (C9_queue_current_zero Sample.fmt Sample.parse0 Sample.served H).
Defined.

(** C10.  The cache lookup does not depend on the proof token: two
    descriptors that differ only in [d] get the same answer from
    [checkCache], and when the asset is cached [inspectItem] answers
    both requests with the cached record. *)
Theorem C10_cache_ignores_proof
    {Formatted : Type} (formatResponse : Asset -> Formatted)
    (parse : InspectDto -> HttpException + Link)
    (st : State (Formatted := Formatted)) (q1 q2 : InspectDto)
    (s a d1 d2 m : string) :
  parse q1 = inr {| l_s := s; l_a := a; l_d := d1; l_m := m |} ->
  parse q2 = inr {| l_s := s; l_a := a; l_d := d2; l_m := m |} ->
  refresh q1 = false -> refresh q2 = false ->
  checkCache formatResponse a d1 (store st)
    = checkCache formatResponse a d2 (store st) /\
  forall cachedAsset s',
    checkCache formatResponse a d1 (store st)
      = (Store.Ok (Some cachedAsset), s') ->
    fst (inspectItem formatResponse parse q1 st)
      = Returned (Item cachedAsset) /\
    inspectItem formatResponse parse q2 st
      = inspectItem formatResponse parse q1 st.
Proof.
  intros P1 P2 R1 R2. split; [reflexivity|].
  intros c s' Hhit.
  unfold inspectItem. rewrite P1, P2.
  unfold consult_cache, run. rewrite R1, R2. simpl.
  change (checkCache formatResponse a d2) with (checkCache formatResponse a d1).
  rewrite Hhit. auto.
Qed.

Lemma C10_witness :
  checkCache Sample.fmt "35675800220" "1" (store Sample.served)
    = checkCache Sample.fmt "35675800220" "2" (store Sample.served) /\
  forall cachedAsset s',
    checkCache Sample.fmt "35675800220" "1" (store Sample.served)
      = (Store.Ok (Some cachedAsset), s') ->
    fst (inspectItem Sample.fmt Sample.parse0
           (Sample.query "35675800220" "1" None) Sample.served)
      = Returned (Item cachedAsset) /\
    inspectItem Sample.fmt Sample.parse0
      (Sample.query "35675800220" "2" None) Sample.served
      = inspectItem Sample.fmt Sample.parse0
          (Sample.query "35675800220" "1" None) Sample.served.
Proof.
  apply (C10_cache_ignores_proof Sample.fmt Sample.parse0 Sample.served
           (Sample.query "35675800220" "1" None)
           (Sample.query "35675800220" "2" None)
           "76561198023809011" "35675800220" "1" "2" "0");
    reflexivity.
Defined.

(** The cache of the sample service does hold the item: the second
    request is answered from it, whatever its proof token. *)
Example cached_without_proof :
  exists cachedAsset,
    fst (inspectItem Sample.fmt Sample.parse0
           (Sample.query "35675800220" "not the proof" None) Sample.served)
      = Returned (Item cachedAsset) /\
    a_d cachedAsset = "99".
Proof. eexists. split; vm_compute; reflexivity. Qed.

(** C4, as the code has it.  A request with [reply=false] that misses
    the cache while the queue is not full is answered at once, with an
    object that holds [success: true], a message and the asset id; the
    inspection goes on in the background: a timer is armed, the asset
    is in the queue, and the request is with the worker manager, whose
    answer only the background handlers await. *)
Theorem C4_background_acknowledged
    {Formatted : Type} (formatResponse : Asset -> Formatted)
    (parse : InspectDto -> HttpException + Link)
    (query : InspectDto) (st st1 : State (Formatted := Formatted))
    (s a d m : string) :
  parse query = inr {| l_s := s; l_a := a; l_d := d; l_m := m |} ->
  reply query = Some false ->
  consult_cache formatResponse query a d
    (with_counters bump_currentRequests st) = (None, st1) ->
  QueueService.isFull (queue st) = false ->
  exists o st',
    inspectItem formatResponse parse query st = (Returned (Object o), st') /\
    prop o "success" = VBool true /\
    prop o "message"
      = VStr "Inspection request received and being processed in background" /\
    prop o "assetId" = VStr a /\
    requests st' =
      requests st ++ [{| w_s := s; w_a := a; w_d := d; w_m := m;
                         w_priority := priority_of (lowPriority query) |}] /\
    awaiting st' !! length (requests st) =
      Some (BackgroundCont a {| ms := VStr (owner_of s m); d := d |}) /\
    is_Some (QueueService.entries (queue st') !! a) /\
    timers st' !! next_timer st =
      Some {| callback := BackgroundTimeout a; delay := QUEUE_TIMEOUT st |} /\
    settled st' = settled st /\ next_promise st' = next_promise st.
Proof.
  intros P R C F.
  rewrite (ServiceFacts.inspectItem_unfold _ _ _ _ _ _ _ _ _ _ P C).
  apply ServiceFacts.consult_cache_queue in C
    as (Hq & Hr & Ha & Ht & Hn & Hs & Hp & Hqt & _).
  simpl in *. rewrite Hq, F, R.
  eexists _, _. split; [reflexivity|].
  unfold processInspectionInBackground, setTimeout, call_worker. simpl.
  rewrite Hq, Hr, Ha, Ht, Hn, Hs, Hp, Hqt.
  repeat split.
  - apply lookup_insert_eq.
  - now apply QueueFacts.add_present.
  - apply lookup_insert_eq.
Qed.

Lemma C4_witness :
  exists o st',
    inspectItem Sample.fmt Sample.parse0
      (Sample.query "35675800220" "99" (Some false)) Sample.service
      = (Returned (Object o), st') /\
    prop o "success" = VBool true /\
    prop o "message"
      = VStr "Inspection request received and being processed in background" /\
    prop o "assetId" = VStr "35675800220" /\
    requests st' =
      requests Sample.service ++
      [{| w_s := "76561198023809011"; w_a := "35675800220"; w_d := "99";
          w_m := "0"; w_priority := priority_of false |}] /\
    awaiting st' !! length (requests Sample.service) =
      Some (BackgroundCont "35675800220"
              {| ms := VStr (owner_of "76561198023809011" "0"); d := "99" |}) /\
    is_Some (QueueService.entries (queue st') !! "35675800220") /\
    timers st' !! next_timer Sample.service =
      Some {| callback := BackgroundTimeout "35675800220";
              delay := QUEUE_TIMEOUT Sample.service |} /\
    settled st' = settled Sample.service /\
    next_promise st' = next_promise Sample.service.
Proof.
  eapply (C4_background_acknowledged Sample.fmt Sample.parse0
            (Sample.query "35675800220" "99" (Some false)) Sample.service _
            "76561198023809011" "35675800220" "99" "0");
    reflexivity.
Defined.

(** C4 as stated fails: the acknowledgment has no property [accepted];
    reading it yields [undefined], not [true]. *)
Lemma C4_counterexample :
  exists o st',
    inspectItem Sample.fmt Sample.parse0
      (Sample.query "35675800220" "99" (Some false)) Sample.service
      = (Returned (Object o), st') /\
    prop o "accepted" = VUndefined /\
    prop o "accepted" <> VBool true.
Proof.
  eexists _, _. split; [vm_compute; reflexivity|].
  split; [reflexivity|discriminate].
Qed.

(** What the two timer callbacks do.  Both count one more timeout.
    The one of a caller who waits for the reply rejects the promise
    with [InspectTimeout] and makes no call on the queue; the one of a
    background request calls [queueService.remove]. *)
Lemma fire_callbacks
    {Formatted : Type} (st : State (Formatted := Formatted))
    (id : nat) (t : Timer) :
  timers st !! id = Some t ->
  timeouts (counters (fire id st)) = S (timeouts (counters st)) /\
  timers (fire id st) !! id = None /\
  match callback t with
  | ReplyTimeout promise =>
      queue (fire id st) = queue st /\
      (settled st !! promise = None ->
       settled (fire id st) !! promise = Some (Rejected Spec.InspectTimeout))
  | BackgroundTimeout a =>
      queue (fire id st) = QueueService.remove a (queue st) /\
      settled (fire id st) = settled st
  end.
Proof.
  intros Ht. unfold fire. rewrite Ht. destruct t as [[promise|a] ms]; simpl.
  - split; [reflexivity|]. split; [apply lookup_delete_eq|].
    unfold settle. simpl.
    destruct (settled st !! promise) eqn:E; simpl; (split; [reflexivity|]).
    + discriminate.
    + intros _. apply lookup_insert_eq.
  - split; [reflexivity|]. split; [apply lookup_delete_eq|].
    split; reflexivity.
Qed.

(** C5 fails for a caller who waits for the reply.  The timer of the
    entry is armed with [QUEUE_TIMEOUT], 10000 ms by default; when it
    expires before the worker manager has settled, the callback counts
    the timeout and rejects the caller with [InspectTimeout], an HTTP
    504, but makes no call on the queue: the queue is the one before
    the expiry, whatever it holds.  On the input below the entry of
    asset 35675800220, with the caller attached, is still queued and
    still counts towards the capacity, where the expiry of the
    specification leaves an empty queue.  The callback of a background
    request does call [queueService.remove]. *)
Theorem C5_reply_timer_keeps_entry :
  (forall (Formatted : Type) (st : State (Formatted := Formatted))
          (id promise : nat) (ms : Z),
     timers st !! id = Some {| callback := ReplyTimeout promise; delay := ms |} ->
     queue (fire id st) = queue st /\
     timeouts (counters (fire id st)) = S (timeouts (counters st))) /\
  reachable Sample.fmt Sample.parse0 Sample.waiting /\
  timers Sample.waiting !! 0%nat
    = Some {| callback := ReplyTimeout 0; delay := 10000 |} /\
  settled Sample.waiting !! 0%nat = None /\
  settled (fire 0 Sample.waiting) !! 0%nat
    = Some (Rejected Spec.InspectTimeout) /\
  status Spec.InspectTimeout = 504 /\
  timeouts (counters (fire 0 Sample.waiting)) = 1%nat /\
  (QueueService.attached
     <$> QueueService.entries (queue (fire 0 Sample.waiting))
           !! "35675800220") = Some [Caller 0] /\
  QueueService.size (queue (fire 0 Sample.waiting)) = 1%nat /\
  QueueService.expire "35675800220" (queue Sample.waiting)
    = ([Caller 0], QueueService.empty 100) /\
  QueueService.entries (queue (fire 0 Sample.background)) !! "35675800220"
    = None.
Proof.
  split.
  { intros Formatted st id promise ms Ht.
    destruct (fire_callbacks st id _ Ht) as (Hcount & _ & Hqueue & _).
    split; [exact Hqueue|exact Hcount]. }
  split; [apply reachable_step, reachable_init|].
  vm_compute. repeat split.
Qed.

(** C6.  A request that arrives when the queue is full and is not
    served from the cache fails with HTTP status 429, and the worker
    manager, hence any bot, is not called.  Starting from an empty
    queue, of [capacity + 1] requests for different assets that are not
    cached the first [capacity] are admitted and only the last one is
    refused; the capacity is [MAX_QUEUE_SIZE], 100 by default. *)
Theorem C6_queue_full
    {Formatted : Type} (formatResponse : Asset -> Formatted)
    (parse : InspectDto -> HttpException + Link) :
  (forall query (st : State (Formatted := Formatted)) a c st',
     Spec.asks_for parse query a ->
     QueueService.isFull (queue st) = true ->
     inspectItem formatResponse parse query st = (c, st') ->
     ~ Spec.served_from_cache c ->
     Spec.QueueFull c /\ requests st' = requests st /\
     awaiting st' = awaiting st) /\
  (forall queries ids (st : State (Formatted := Formatted)) outs st',
     Forall2 (Spec.asks_for parse) queries ids ->
     NoDup ids ->
     QueueService.size (queue st) = 0%nat ->
     length queries = S (QueueService.capacity (queue st)) ->
     submit formatResponse parse queries st = (outs, st') ->
     Forall (fun c => ~ Spec.served_from_cache c) outs ->
     exists firsts last,
       outs = firsts ++ [last] /\
       length firsts = QueueService.capacity (queue st) /\
       Forall Spec.admitted firsts /\
       Spec.QueueFull last) /\
  (forall t m db,
     QueueService.capacity (queue (init (Formatted := Formatted) t m db))
       = Z.to_nat m /\
     QueueService.size (queue (init (Formatted := Formatted) t m db)) = 0%nat) /\
  env_MAX_QUEUE_SIZE ∅ = Some 100.
Proof.
  split; [|split; [|split; [|reflexivity]]].
  - intros query st a c st' Hask F E Hmiss.
    destruct (AdmissionFacts.inspectItem_refuse _ _ _ _ _ _ _ Hask F E)
      as [Hhit|(Hfull & Hr & Ha & _)]; [contradiction|auto].
  - intros queries ids st outs st' Hasks Hnd Hempty Hlen Hsub Hmiss.
    assert (Hfree : forall a, a ∈ ids ->
                      QueueService.entries (queue st) !! a = None).
    { intros a _. unfold QueueService.size in Hempty.
      apply map_size_empty_inv in Hempty. rewrite Hempty.
      apply lookup_empty. }
    destruct (AdmissionFacts.submit_fill formatResponse parse queries ids st
                outs st' Hasks Hnd Hfree)
      as (firsts & last & -> & Hfull & Hadm & Hn); auto.
    + rewrite Hempty, Hlen. reflexivity.
    + intros ->. discriminate.
    + exists firsts, last. repeat split; auto. lia.
  - intros t m db. split; reflexivity.
Qed.

Lemma C6_witness :
  exists firsts last,
    fst (submit Sample.fmt Sample.parse0 Sample.three Sample.small)
      = firsts ++ [last] /\
    length firsts = QueueService.capacity (queue Sample.small) /\
    Forall Spec.admitted firsts /\
    Spec.QueueFull last.
Proof.
  destruct (C6_queue_full Sample.fmt Sample.parse0) as (_ & Hfill & _).
  apply (Hfill Sample.three ["101"; "102"; "103"] Sample.small _
           (snd (submit Sample.fmt Sample.parse0 Sample.three Sample.small))).
  - repeat constructor; eexists _, _, _; reflexivity.
  - apply (bool_decide_unpack _). vm_compute. exact I.
  - reflexivity.
  - reflexivity.
  - vm_compute. reflexivity.
  - vm_compute. repeat constructor; intros [x Hx]; discriminate.
Defined.



(** The pass over the sample shard: two attempts for the first account,
    one each for the disabled and the throttled one; the disabled
    account leaves the partition, the throttled one is marked. *)
Example sample_pass :
  let w := BotWorker.initializeBots Sample.world Sample.shard in
  (fun a => (BotWorker.position a, BotWorker.username a, BotWorker.result a))
    <$> BotWorker.attempts w
  = [ (0%nat, "alice", BotWorker.Failed "Logon timed out");
      (0%nat, "alice", BotWorker.LoggedIn true);
      (1%nat, "bob", BotWorker.Failed "ACCOUNT_DISABLED");
      (2%nat, "carol", BotWorker.Failed "LOGIN_THROTTLED") ] /\
  BotWorker.accounts w = ["alice:secret"; "carol:pw"] /\
  BotWorker.throttledAccounts w !! "carol" = Some (1700000000000 + 1800000) /\
  BotWorker.bots w !! "alice" = Some BotWorker.ready.
Proof. vm_compute. repeat split. Qed.

End Claims.

(* ===================================================================== *)
(** ** The scenarios of the specification, run on the model               *)
(* ===================================================================== *)

Module Scenarios.
Import Js Schema Handle InspectService.

Example sha1_abc :
  Sha1.digest_hex "abc" = "a9993e364706816aba3e25717850c26c9cd0d89d".
Proof. vm_compute. reflexivity. Qed.

Example sha1_two_blocks :
  Sha1.digest_hex "abcdbcdecdefdefgefghfghighijhijkijkljklmklmnlmnomnopnopq"
  = "84983e441c3bd26ebaae4aa1f95129e5e54670f1".
Proof. vm_compute. reflexivity. Qed.

Example number_to_string :
  num_to_string (Num 7 (-2)) = "0.07" /\
  num_to_string (Num 300 (-3)) = "0.3" /\
  num_to_string (Num 1 21) = "1e+21" /\
  num_to_string (Num 15 (-8)) = "1.5e-7" /\
  num_to_string (Num (-12345) (-2)) = "-123.45".
Proof. vm_compute. repeat split. Qed.

(** Scenario 1, "fresh unbox": the asset row carries the id of
    "661-44-0.07-<def>" and the history row is of type UNBOXED. *)
Example fresh_unbox :
  Spec.uniqueId Sample.unboxed = Spec.SHA1_prefix8 "661-44-0.07-7" /\
  a_uniqueId <$> Store.assets (store Sample.served) = ["150a3f6f"] /\
  (fun h => (h_uniqueId h, h_assetId h, h_type h))
    <$> Store.histories (store Sample.served)
  = [("150a3f6f", 35675800220, UNBOXED)].
Proof. vm_compute. repeat split. Qed.

(** An owner id above 2^53 is stored as the nearest double: the
    collections hold 76561198023809010 for the user 76561198023809011,
    and the item id of the cache lookup is rounded alike. *)
Example owner_id_stored :
  cast_Number (ms Sample.owner) = Some Sample.owner_stored /\
  opt_to_string Sample.owner_stored = Some "76561198023809010" /\
  cast_Number (VStr "not a number") = None /\
  parseInt10 "9007199254740993" = Some 9007199254740992.
Proof. vm_compute. repeat split. Qed.

(** Scenario 2, "sticker applied": the differ sees one sticker more. *)
Example sticker_applied :
  detectStickerChanges (Some [Sample.sticker 0 202 None]) (Some [])
    = Some STICKER_APPLY.
Proof. reflexivity. Qed.

(** The same scenario run through the service: the prior record is read
    from the asset collection, the classifier finds no owner on it, and
    the history row is of type UNKNOWN. *)
Example sticker_applied_through_service :
  let st :=
    run_events Sample.fmt Sample.parse0 Sample.served
      [Request (Sample.query "35675800221" "99" None);
       WorkerResolves 1 Sample.stickered] in
  (fun h => (h_assetId h, h_prevAssetId h, h_prevOwner h, h_type h))
    <$> Store.histories (store st)
  = [ (35675800220, None, VUndefined, UNBOXED);
      (35675800221, Some 35675800220, Sample.owner_stored, UNKNOWN) ].
Proof. vm_compute. reflexivity. Qed.

(** Scenario 5, "queue full", with the default capacity: the request
    that finds 100 entries is refused before any worker is called. *)
Example default_settings :
  env_QUEUE_TIMEOUT ∅ = Some 10000 /\
  env_MAX_QUEUE_SIZE ∅ = Some 100 /\
  env_MAX_QUEUE_SIZE {[ "MAX_QUEUE_SIZE" := "250" ]} = Some 250 /\
  BotWorker.env_MAX_RETRIES ∅ = Some 3 /\
  BotWorker.THROTTLE_COOLDOWN = 1800000.
Proof. vm_compute. repeat split. Qed.

(** Only the first colon of an account line separates. *)
Example account_line :
  BotWorker.username_of "bob:pass:word" = "bob" /\
  BotWorker.password_of "bob:pass:word" = "pass:word" /\
  BotWorker.username_of "nocolon" = EmptyString /\
  BotWorker.password_of "nocolon" = "nocolon".
Proof. vm_compute. repeat split. Qed.

End Scenarios.

(* ===================================================================== *)
(** * Further properties of the code                                      *)
(* ===================================================================== *)

Module NumFacts.
Import Js.

Lemma strip10_zero fuel : forall c e, (strip10 fuel c e).1 = 0 <-> c = 0.
Proof.
  induction fuel as [|fuel IH]; intros c e; simpl; [reflexivity|].
  destruct (c =? 0) eqn:E0.
  - apply Z.eqb_eq in E0. simpl. tauto.
  - apply Z.eqb_neq in E0. destruct (c mod 10 =? 0) eqn:E1.
    + apply Z.eqb_eq in E1. rewrite IH.
      pose proof (Z.div_mod c 10 ltac:(lia)). lia.
    + simpl. reflexivity.
Qed.

Lemma num_eqb_truthy a b : num_eqb a b = true -> num_truthy a = num_truthy b.
Proof.
  unfold num_eqb, num_truthy.
  pose proof (strip10_zero (S (Z.to_nat (Z.log2 (Z.abs (coef a)))))
                (coef a) (expo a)) as Ha.
  pose proof (strip10_zero (S (Z.to_nat (Z.log2 (Z.abs (coef b)))))
                (coef b) (expo b)) as Hb.
  unfold norm.
  destruct (strip10 _ (coef a) _) as [ca ea],
           (strip10 _ (coef b) _) as [cb eb].
  simpl in *. intros H. apply andb_true_iff in H as [H _].
  apply Z.eqb_eq in H. subst cb.
  destruct (coef a =? 0) eqn:E1, (coef b =? 0) eqn:E2; try reflexivity;
    [apply Z.eqb_eq in E1; apply Z.eqb_neq in E2
    |apply Z.eqb_neq in E1; apply Z.eqb_eq in E2];
    tauto.
Qed.

Lemma num_eqb_refl a : num_eqb a a = true.
Proof.
  unfold num_eqb. destruct (norm a). now rewrite !Z.eqb_refl.
Qed.

Lemma field_eq_refl f : field_eq f f = true.
Proof. destruct f; [apply num_eqb_refl|reflexivity]. Qed.

Lemma field_eq_or_zero f g :
  field_eq f g = true -> num_to_string (or_zero f) = num_to_string (or_zero g).
Proof.
  destruct f as [a|], g as [b|]; simpl; try discriminate; [|reflexivity].
  intros H. rewrite (num_eqb_truthy _ _ H).
  destruct (num_truthy b); [|reflexivity]. now apply JsFacts.num_eqb_to_string.
Qed.

End NumFacts.

Module IdentityFacts.
Import Js Schema Handle InspectService Inv.

Lemma hex_char_is_hex n : 0 <= n < 16 -> is_hex (Sha1.hex_char n) = true.
Proof.
  intros H. rewrite <- (Z2Nat.id n) by lia.
  assert (Hk : (Z.to_nat n < 16)%nat) by lia.
  revert Hk. generalize (Z.to_nat n). intros k Hk.
  do 16 (destruct k as [|k]; [reflexivity|]). lia.
Qed.

Lemma hex_word_shape w :
  String.length (Sha1.hex_word w) = 8%nat /\ hex_string (Sha1.hex_word w).
Proof.
  unfold Sha1.hex_word, hex_string. cbn [seq map string_of_list_ascii].
  split; [reflexivity|].
  cbn [list_ascii_of_string].
  repeat constructor; apply hex_char_is_hex; apply Z.mod_pos_bound; lia.
Qed.

Lemma substring_append s t :
  substring 0 (String.length s) (s +:+ t) = s.
Proof.
  induction s as [|c s IH]; simpl.
  - destruct t; reflexivity.
  - now rewrite IH.
Qed.

Lemma digest_prefix s :
  exists w, substring 0 8 (Sha1.digest_hex s) = Sha1.hex_word w.
Proof.
  unfold Sha1.digest_hex.
  destruct (foldl Sha1.compress Sha1.h0 _) as [a b c d e].
  exists a.
  destruct (hex_word_shape a) as [Hlen _].
  rewrite <- Hlen at 1. apply substring_append.
Qed.

(** X1.  Whatever the item, [generateUniqueId] returns exactly eight
    characters, each a lower-case hexadecimal digit. *)
Theorem uniqueId_format item :
  String.length (generateUniqueId item) = 8%nat /\
  hex_string (generateUniqueId item).
Proof.
  unfold generateUniqueId.
  destruct (digest_prefix
              (join "-" [or_zero (paintSeed item); or_zero (paintIndex item);
                         or_zero (paintWear item); or_zero (defIndex item)]))
    as [w ->].
  apply hex_word_shape.
Qed.

End IdentityFacts.

Module UpsertFacts.
Import Js Schema Handle Store InspectService StoreFacts Inv NumFacts.

Lemma replace_first_again p new l l' :
  p new = true -> replace_first p new l = Some l' ->
  replace_first p new l' = Some l'.
Proof.
  intros Hp. revert l'. induction l as [|a l IH]; simpl; [discriminate|].
  intros l'. destruct (p a) eqn:E.
  - intros [= <-]. simpl. now rewrite Hp.
  - destruct (replace_first p new l) as [l0|]; simpl; [|discriminate].
    intros [= <-]. simpl. rewrite E. now rewrite (IH l0 eq_refl).
Qed.

Lemma replace_first_snoc p new l :
  p new = true -> replace_first p new l = None ->
  replace_first p new (l ++ [new]) = Some (l ++ [new]).
Proof.
  intros Hp. induction l as [|a l IH]; simpl.
  - now rewrite Hp.
  - destruct (p a); [discriminate|].
    destruct (replace_first p new l); simpl; [discriminate|].
    intros _. now rewrite IH.
Qed.

Lemma upserted_again doc l : upserted doc (upserted doc l) = upserted doc l.
Proof.
  assert (Hp : same_uniqueId doc doc = true) by apply String.eqb_refl.
  unfold upserted. destruct (replace_first _ doc l) as [l'|] eqn:E.
  - now rewrite (replace_first_again _ _ _ _ Hp E).
  - now rewrite (replace_first_snoc _ _ _ Hp E).
Qed.

Lemma replace_first_ids doc l l' :
  replace_first (same_uniqueId doc) doc l = Some l' ->
  a_uniqueId <$> l' = a_uniqueId <$> l.
Proof.
  revert l'. induction l as [|a l IH]; simpl; [discriminate|].
  intros l'. unfold same_uniqueId at 1. destruct (String.eqb _ _) eqn:E.
  - intros [= <-]. apply String.eqb_eq in E. simpl. now f_equal.
  - destruct (replace_first _ doc l) as [l0|]; simpl; [|discriminate].
    intros [= <-]. simpl. f_equal. now apply IH.
Qed.

Lemma replace_first_none doc l :
  replace_first (same_uniqueId doc) doc l = None ->
  a_uniqueId doc ∉ a_uniqueId <$> l.
Proof.
  induction l as [|a l IH]; simpl; [intros _; apply not_elem_of_nil|].
  unfold same_uniqueId at 1. destruct (String.eqb _ _) eqn:E; [discriminate|].
  destruct (replace_first _ doc l); simpl; [discriminate|].
  intros _. apply not_elem_of_cons. split; [|now apply IH].
  apply String.eqb_neq in E. congruence.
Qed.

Lemma upserted_unique doc l :
  NoDup (a_uniqueId <$> l) -> NoDup (a_uniqueId <$> upserted doc l).
Proof.
  intros H. unfold upserted.
  destruct (replace_first _ doc l) as [l'|] eqn:E.
  - now rewrite (replace_first_ids _ _ _ E).
  - rewrite fmap_app. apply list.NoDup_app. split; [exact H|].
    split; [|apply NoDup_singleton].
    intros u Hu Hu'. apply list_elem_of_singleton in Hu'. subst u.
    now apply replace_first_none in E.
Qed.

Lemma upserted_Forall (P : Asset -> Prop) doc l :
  P doc -> Forall P l -> Forall P (upserted doc l).
Proof.
  intros Hd Hl. unfold upserted.
  destruct (replace_first _ doc l) as [l'|] eqn:E.
  - revert l' E. induction Hl as [|a l Ha Hl IH]; simpl; [discriminate|].
    intros l'. destruct (same_uniqueId doc a).
    + intros [= <-]. now constructor.
    + destruct (replace_first _ doc l) as [l0|]; [|discriminate].
      intros [= <-]. constructor; [exact Ha|]. now apply IH.
  - apply Forall_app. split; [exact Hl|]. now constructor.
Qed.

Lemma replace_first_hit doc l h :
  h ∈ l -> same_uniqueId doc h = true ->
  exists l', replace_first (same_uniqueId doc) doc l = Some l'.
Proof.
  intros Hin Hh. induction l as [|a l IH]; [inversion Hin|].
  simpl. destruct (same_uniqueId doc a) eqn:E; [eauto|].
  apply elem_of_cons in Hin as [->|Hin]; [congruence|].
  destruct (IH Hin) as [l' ->]. eauto.
Qed.

Lemma asset_upsert_upserted n data st r st' :
  asset_upsert n data st = (r, st') ->
  histories st' = histories st /\
  (assets st' = assets st /\ (exists e, r = Throw e) \/
   exists k doc, n = Some k /\ cast_asset (data k) = Some doc /\
                 r = Ok doc /\ assets st' = upserted doc (assets st)).
Proof.
  intros H. apply guarded_inv in H as [(e & -> & Ha & Hh)|(k & -> & H)].
  - split; [exact Hh|]. left. eauto.
  - destruct (cast_asset (data k)) as [doc|] eqn:Ec; simpl in H;
      injection H as <- <-; (split; [reflexivity|]).
    + right. exists k, doc. auto.
    + left. eauto.
Qed.

Lemma saveHistory_ok response history inspectData uniqueId st st' :
  saveHistory response history inspectData uniqueId st = (Ok tt, st') ->
  exists k h, parseInt (itemid response) = Some k /\
              h ∈ histories st' /\ h_assetId h = k.
Proof.
  unfold saveHistory, bind.
  destruct (history_findOne_assetId _ st) as [[existing|e] st1] eqn:E1;
    [|discriminate].
  apply history_findOne_assetId_inv in E1 as (Ha & Hh & Hfind).
  destruct (Hfind _ eq_refl) as (k & Hk & Hex).
  destruct existing as [x|].
  - intros [= <-]. exists k, x. split; [exact Hk|].
    symmetry in Hex. apply find_some in Hex as [Hin Heq].
    apply list_elem_of_In in Hin. apply Z.eqb_eq in Heq. rewrite Hh. auto.
  - intros H. apply guarded_inv in H as [(e & He & _)|(k' & Hk' & H)];
      [discriminate|].
    destruct (cast_history _) as [h|] eqn:Ec;
      [destruct (valid_history h)|]; try discriminate.
    injection H as <-. simpl.
    apply cast_history_inv in Ec as (_ & _ & _ & Hi & _).
    exists k', h. split; [exact Hk'|].
    split; [apply elem_of_app; right; apply list_elem_of_here|exact Hi].
Qed.

(** An asset that answers the query of [findHistory] has the paint the
    [uniqueId] of the new result is computed from. *)
Lemma same_item_keys response a :
  same_item response a = true ->
  generateUniqueId (key_of_asset a) = uniqueId_of response.
Proof.
  unfold same_item. intros H.
  repeat (apply andb_true_iff in H as [H ?]).
  unfold uniqueId_of, generateUniqueId.
  cbn [paintSeed paintIndex paintWear defIndex key_of_asset join].
  rewrite !JsFacts.or_zero_null_to_zero.
  rewrite (field_eq_or_zero _ _ H),
    (field_eq_or_zero (a_paintIndex a) (paintindex response)),
    (field_eq_or_zero (a_defIndex a) (defindex response)),
    (field_eq_or_zero (a_paintSeed a) (paintseed response)) by assumption.
  reflexivity.
Qed.

Lemma assetData_well_keyed response inspectData k :
  well_keyed (assetData response inspectData (uniqueId_of response) k).
Proof.
  unfold well_keyed, uniqueId_of, generateUniqueId. simpl.
  now rewrite !JsFacts.or_zero_null_to_zero.
Qed.

(** The cast of the schema keeps the paint and the [uniqueId]. *)
Lemma cast_asset_well_keyed a doc :
  cast_asset a = Some doc -> well_keyed a -> well_keyed doc.
Proof.
  intros Hc. apply cast_asset_inv in Hc
    as (_ & Hu & _ & _ & Hs & Hi & Hw & Hd & Ho & Hr & Hq & Hy & Hp & _).
  unfold well_keyed, key_of_asset.
  rewrite Hu, Hs, Hi, Hw, Hd, Ho, Hr, Hq, Hy, Hp. auto.
Qed.

Section WithFormat.
Context {Formatted : Type} (formatResponse : Asset -> Formatted).

(** What [handleInspectResult] does to the asset collection. *)
Lemma handleInspectResult_assets response inspectData st r st' :
  handleInspectResult formatResponse response inspectData st = (r, st') ->
  assets st' = assets st /\ (exists e, r = Throw e) \/
  exists k doc,
    parseInt (itemid response) = Some k /\
    cast_asset (assetData response inspectData (uniqueId_of response) k)
      = Some doc /\
    assets st' = upserted doc (assets st).
Proof.
  unfold handleInspectResult, try_catch, bind.
  set (hist := if history_guard response then _ else _).
  assert (Hhist : forall x s1, hist st = (x, s1) -> assets s1 = assets st).
  { subst hist. intros x s1.
    destruct (history_guard response); [|now intros [= <- <-]].
    unfold bind. destruct (findHistory response st) as [[h|e] s0] eqn:E0;
      apply asset_findLatest_inv in E0 as [Ha0 _].
    - intros E. apply ResultFacts.saveHistory_inv in E as [Ha _]. congruence.
    - now intros [= <- <-]. }
  destruct (hist st) as [[[]|e] st1] eqn:E1; specialize (Hhist _ _ eq_refl).
  - unfold saveAsset, bind.
    destruct (asset_upsert _ _ st1) as [[doc|e] st2] eqn:E2;
      apply asset_upsert_upserted in E2
        as [_ [[Ha (e' & He)]|(k & doc' & Hk & Hc & Hr & Ha)]];
      try discriminate.
    + destruct (asset_findOne_assetId _ st2) as [[o|e] st3] eqn:E3;
        apply asset_findOne_assetId_inv in E3 as (Ha3 & _).
      * destruct o; intros [= <- <-]; right; exists k, doc';
          (split; [exact Hk|]); (split; [exact Hc|]); congruence.
      * intros [= <- <-]. right. exists k, doc'. split; [exact Hk|].
        split; [exact Hc|]. congruence.
    + intros [= <- <-]. left. split; [congruence|eauto].
  - intros [= <- <-]. left. split; [exact Hhist|eauto].
Qed.

(** The upsert never asks the unique index on [uniqueId] to hold two
    documents of one id. *)
Lemma uniqueIds_stay_unique response inspectData st r st' :
  unique_assets st ->
  handleInspectResult formatResponse response inspectData st = (r, st') ->
  unique_assets st'.
Proof.
  unfold unique_assets. intros Hu H.
  apply handleInspectResult_assets in H as [[-> _]|(k & doc & _ & _ & ->)];
    [exact Hu|].
  now apply upserted_unique.
Qed.

Lemma handleInspectResult_well_keyed response inspectData st r st' :
  Forall well_keyed (assets st) ->
  handleInspectResult formatResponse response inspectData st = (r, st') ->
  Forall well_keyed (assets st').
Proof.
  intros Hk H.
  apply handleInspectResult_assets in H as [[-> _]|(k & doc & _ & Hc & ->)];
    [exact Hk|].
  apply upserted_Forall; [|exact Hk].
  exact (cast_asset_well_keyed _ _ Hc (assetData_well_keyed _ _ _)).
Qed.

Lemma first_run_history response inspectData st f st' :
  handleInspectResult formatResponse response inspectData st = (Ok f, st') ->
  history_guard response = true ->
  exists k h, parseInt (itemid response) = Some k /\
              h ∈ histories st' /\ h_assetId h = k.
Proof.
  unfold handleInspectResult, try_catch, bind. intros H Hg. rewrite Hg in H.
  unfold bind in H.
  destruct (findHistory response st) as [[h0|e] s0] eqn:E0; [|discriminate].
  destruct (saveHistory _ _ _ _ s0) as [[[]|e] s1] eqn:E1; [|discriminate].
  apply saveHistory_ok in E1 as (k & h & Hk & Hin & Hid).
  destruct (saveAsset _ _ _ s1) as [[o|e] s2] eqn:E2; [|discriminate].
  apply ResultFacts.saveAsset_inv in E2 as [Hh _].
  destruct o; [|discriminate]. injection H as _ <-.
  exists k, h. rewrite Hh. auto.
Qed.

(** X2.  Processing an inspect result a second time changes neither
    collection: the upsert rewrites the document it wrote, and the
    history record of the asset id is already there.  This holds
    whatever the second run returns. *)
Theorem handleInspectResult_idempotent response inspectData st f st1 r st2 :
  handleInspectResult formatResponse response inspectData st = (Ok f, st1) ->
  handleInspectResult formatResponse response inspectData st1 = (r, st2) ->
  assets st2 = assets st1 /\ histories st2 = histories st1.
Proof.
  intros H1 H2. split.
  - destruct (handleInspectResult_assets _ _ _ _ _ H1)
      as [[_ (e & He)]|(k & doc & Hk & Hc & Ha1)]; [discriminate|].
    destruct (handleInspectResult_assets _ _ _ _ _ H2)
      as [[Ha2 _]|(k' & doc' & Hk' & Hc' & Ha2)]; [exact Ha2|].
    assert (k' = k) by congruence. subst k'.
    assert (doc' = doc) by congruence. subst doc'.
    rewrite Ha2, Ha1. apply upserted_again.
  - apply ResultFacts.handleInspectResult_inv in H2
      as [[Hh|(Hg & k & h & Hk & _ & _ & _ & Hnew)] _]; [exact Hh|].
    destruct (first_run_history _ _ _ _ _ H1 Hg) as (k' & h' & Hk' & Hin & Hid).
    exfalso. apply (Hnew h' Hin). congruence.
Qed.

(** X3.  [checkCache] never throws: an asset id that is not a number
    and a query that the store refuses both give [null], a miss. *)
Theorem checkCache_total a d s :
  (exists c s', checkCache formatResponse a d s = (Ok c, s')) /\
  (parseInt10 a = None -> fst (checkCache formatResponse a d s) = Ok None) /\
  (fails s (ops s) = true -> fst (checkCache formatResponse a d s) = Ok None).
Proof.
  unfold checkCache, try_catch, bind, asset_findOne_assetId, operation,
    cast_assetId.
  destruct (fails s (ops s)); simpl.
  - split; [eauto|]. split; reflexivity.
  - destruct (parseInt10 a) as [k|]; simpl.
    + split; [|split; discriminate].
      destruct (find _ _); eauto.
    + split; [eauto|]. split; reflexivity.
Qed.

(** X4.  Lookup after insert.  Once [handleInspectResult] has processed
    a result, a cache lookup under its item id, written in any way that
    [parseInt] reads as the same number, finds a document of that
    asset id, unless the store refuses the query. *)
Theorem cached_after_processing response inspectData st f st1 a d k :
  handleInspectResult formatResponse response inspectData st = (Ok f, st1) ->
  parseInt (itemid response) = Some k ->
  parseInt10 a = Some k ->
  fails st1 (ops st1) = false ->
  exists asset,
    checkCache formatResponse a d st1
      = (Ok (Some (formatResponse asset)), tick st1) /\
    asset ∈ assets st1 /\ a_assetId asset = k.
Proof.
  intros H Hk Ha Hok.
  apply ResultFacts.handleInspectResult_inv in H as [_ H].
  destruct (H f eq_refl) as (k' & doc & Hk' & Hc & Hin & _).
  assert (k' = k) by congruence. subst k'.
  apply cast_asset_inv in Hc as (_ & _ & Hdk & _).
  destruct (ResultFacts.find_in_exists (fun x => a_assetId x =? k)
              (assets st1) _ Hin)
    as [y Hy]; [rewrite Hdk; apply Z.eqb_refl|].
  exists y.
  unfold checkCache, try_catch, bind, asset_findOne_assetId, operation,
    cast_assetId.
  rewrite Hok, Ha. simpl. rewrite Hy. split; [reflexivity|].
  apply find_some in Hy as [Hy1 Hy2]. apply list_elem_of_In in Hy1.
  apply Z.eqb_eq in Hy2. auto.
Qed.

(** X5.  An item that is already known gets no new asset document.
    When the collection holds a document [h] that answers the query of
    [findHistory], and [h] carries the [uniqueId] of its own paint,
    then the new result has the same [uniqueId], the upsert overwrites
    a document instead of inserting one, and the [uniqueId]s of the
    collection are the same as before. *)
Theorem known_item_overwritten response inspectData st f st' h :
  handleInspectResult formatResponse response inspectData st = (Ok f, st') ->
  h ∈ assets st -> well_keyed h -> same_item response h = true ->
  a_uniqueId h = uniqueId_of response /\
  a_uniqueId <$> assets st' = a_uniqueId <$> assets st /\
  length (assets st') = length (assets st).
Proof.
  intros H Hin Hk Hs.
  assert (Hid : a_uniqueId h = uniqueId_of response).
  { rewrite Hk. now apply same_item_keys. }
  split; [exact Hid|].
  apply handleInspectResult_assets in H
    as [[_ (e & He)]|(k & doc & _ & Hc & ->)]; [discriminate|].
  apply cast_asset_inv in Hc as (_ & Hdu & _).
  assert (Hids :
    a_uniqueId <$> upserted doc (assets st) = a_uniqueId <$> assets st).
  { unfold upserted.
    destruct (replace_first_hit doc (assets st) h Hin) as [l' E].
    { unfold same_uniqueId. rewrite Hdu. simpl. rewrite Hid.
      apply String.eqb_refl. }
    rewrite E. exact (replace_first_ids _ _ _ E). }
  split; [exact Hids|].
  rewrite <- (length_fmap a_uniqueId), Hids. apply length_fmap.
Qed.

Lemma find_absent (k : Z) (hs : list History) :
  (forall h0, h0 ∈ hs -> h_assetId h0 <> k) ->
  find (fun h => h_assetId h =? k) hs = None.
Proof.
  intros H. induction hs as [|h hs IH]; [reflexivity|]. simpl.
  destruct (h_assetId h =? k) eqn:E.
  - apply Z.eqb_eq in E. destruct (H h); [apply list_elem_of_here|exact E].
  - apply IH. intros h0 Hin. apply H. now apply list_elem_of_further.
Qed.

(** X25.  The history record links to the document that is
    overwritten.  When a result with paint is processed for the first
    time under its item id, in a collection whose documents are keyed
    by their own paint and pairwise distinct in [uniqueId], one history
    record is appended for it; its owner is the owner id of the request
    as the schema casts it to a number.  If [findHistory] finds a prior
    document, that document has the [uniqueId] of the result, the
    record keeps its asset id, stickers and keychains as the previous
    ones and the cast of its stored owner id as the previous owner, and
    afterwards the only document of that [uniqueId] carries the new
    asset id; otherwise the record names no predecessor. *)
Theorem history_links_overwritten response inspectData st f st' k :
  handleInspectResult formatResponse response inspectData st = (Ok f, st') ->
  history_guard response = true ->
  parseInt (itemid response) = Some k ->
  (forall h0, h0 ∈ histories st -> h_assetId h0 <> k) ->
  unique_assets st ->
  Forall well_keyed (assets st) ->
  exists h,
    histories st' = histories st ++ [h] /\
    h_assetId h = k /\
    h_uniqueId h = uniqueId_of response /\
    cast_Number (ms inspectData) = Some (h_owner h) /\
    (forall a, a ∈ assets st' -> a_uniqueId a = uniqueId_of response ->
               a_assetId a = k) /\
    match find (same_item response) (rev (assets st)) with
    | Some prior =>
        prior ∈ assets st /\
        a_uniqueId prior = uniqueId_of response /\
        h_prevAssetId h = Some (a_assetId prior) /\
        cast_Number (a_ms prior) = Some (h_prevOwner h) /\
        h_prevStickers h = a_stickers prior /\
        h_prevKeychains h = a_keychains prior
    | None =>
        h_prevAssetId h = None /\ h_prevOwner h = VUndefined
    end.
Proof.
  intros H Hg Hk Hnew Hu Hwk.
  assert (Hassets := H).
  apply handleInspectResult_assets in Hassets
    as [[_ (e & He)]|(k' & doc & Hk' & Hc & Ha)]; [discriminate|].
  assert (k' = k) by congruence. subst k'.
  assert (Hone : forall a, a ∈ assets st' ->
            a_uniqueId a = uniqueId_of response -> a_assetId a = k).
  { intros a Hin Hid.
    pose proof (upserted_unique doc (assets st) Hu) as Hu'.
    rewrite <- Ha in Hu'.
    assert (Hinv := H).
    apply ResultFacts.handleInspectResult_inv in Hinv as [_ Hinv].
    destruct (Hinv f eq_refl) as (k' & doc' & Hk'' & Hc' & Hdoc & _).
    assert (k' = k) by congruence. subst k'.
    assert (doc' = doc) by congruence. subst doc'.
    apply cast_asset_inv in Hc as (_ & Hdu & Hdk & _).
    simpl in Hdu, Hdk.
    assert (a = doc).
    { apply list_elem_of_lookup in Hin as [i Hi].
      apply list_elem_of_lookup in Hdoc as [j Hj].
      assert (i = j).
      { apply (NoDup_lookup _ i j (uniqueId_of response) Hu');
          rewrite list_lookup_fmap; [rewrite Hi|rewrite Hj]; simpl;
          congruence. }
      congruence. }
    subst a. exact Hdk. }
  assert (Happ : exists h, histories st' = histories st ++ [h]).
  { assert (Hinv := H).
    apply ResultFacts.handleInspectResult_inv in Hinv
      as [[Hh|(_ & k' & h & _ & Hh & _)] _]; [|eauto].
    destruct (first_run_history _ _ _ _ _ H Hg)
      as (k1 & h' & Hk1 & Hin & Hid).
    rewrite Hh in Hin. exfalso. apply (Hnew h' Hin). congruence. }
  destruct Happ as [h Hh]. exists h. split; [exact Hh|].
  destruct (ResultFacts.handleInspectResult_record _ _ _ _ _ _ _ H Hh)
    as (k2 & Hk2 & Hrec & _).
  assert (k2 = k) by congruence. subst k2.
  apply cast_history_inv in Hrec
    as (Hown & Hprev & Hu' & Hi & Hp & _ & _ & _ & Hps & Hpk & _).
  unfold history_record in *.
  cbn [h_owner h_prevOwner h_uniqueId h_assetId h_prevAssetId
       h_prevStickers h_prevKeychains] in *.
  split; [exact Hi|]. split; [exact Hu'|]. split; [exact Hown|].
  split; [exact Hone|].
  destruct (find (same_item response) (rev (assets st))) as [prior|] eqn:Ef.
  - apply find_some in Ef as [Hin Hs]. apply in_rev in Hin.
    apply list_elem_of_In in Hin.
    split; [exact Hin|]. split.
    + rewrite list.Forall_forall in Hwk. rewrite (Hwk prior Hin).
      now apply same_item_keys.
    + simpl in *. auto.
  - simpl in *. injection Hprev as <-. auto.
Qed.

End WithFormat.

Lemma handleInspectResult_idempotent_witness :
  assets (snd (handleInspectResult Sample.fmt Sample.unboxed Sample.owner
                 Cases.after_unbox)) = assets Cases.after_unbox /\
  histories (snd (handleInspectResult Sample.fmt Sample.unboxed Sample.owner
                    Cases.after_unbox)) = histories Cases.after_unbox.
Proof.
  eapply (handleInspectResult_idempotent Sample.fmt Sample.unboxed
            Sample.owner Sample.db0 Sample.stored Cases.after_unbox).
  - vm_compute. reflexivity.
  - apply surjective_pairing.
Defined.

Lemma checkCache_total_witness :
  fst (checkCache Sample.fmt "skin" "any" Cases.after_unbox) = Ok None.
Proof.
  destruct (checkCache_total Sample.fmt "skin" "any" Cases.after_unbox)
    as (_ & Hnan & _).
  apply Hnan. vm_compute. reflexivity.
Defined.

Lemma cached_after_processing_witness :
  exists asset,
    checkCache Sample.fmt "35675800220" "any" Cases.after_unbox
      = (Ok (Some (Sample.fmt asset)), tick Cases.after_unbox) /\
    asset ∈ assets Cases.after_unbox /\ a_assetId asset = 35675800220.
Proof.
  eapply (cached_after_processing Sample.fmt Sample.unboxed Sample.owner
            Sample.db0 Sample.stored Cases.after_unbox).
  - vm_compute. reflexivity.
  - vm_compute. reflexivity.
  - vm_compute. reflexivity.
  - reflexivity.
Defined.

Lemma known_item_overwritten_witness :
  a_uniqueId Sample.stored = uniqueId_of Sample.stickered /\
  a_uniqueId <$>
    assets (snd (handleInspectResult Sample.fmt Sample.stickered
                   Sample.owner Cases.after_unbox))
    = a_uniqueId <$> assets Cases.after_unbox /\
  length (assets (snd (handleInspectResult Sample.fmt Sample.stickered
                         Sample.owner Cases.after_unbox)))
    = length (assets Cases.after_unbox).
Proof.
  eapply (known_item_overwritten Sample.fmt Sample.stickered Sample.owner
            Cases.after_unbox).
  - vm_compute. reflexivity.
  - vm_compute. apply list_elem_of_here.
  - vm_compute. reflexivity.
  - vm_compute. reflexivity.
Defined.

Lemma history_links_overwritten_witness :
  exists h,
    histories (snd (handleInspectResult Sample.fmt Sample.stickered
                      Sample.owner Cases.after_unbox))
      = histories Cases.after_unbox ++ [h] /\
    h_assetId h = 35675800221 /\
    h_prevAssetId h = Some 35675800220 /\
    h_owner h = Sample.owner_stored /\
    h_prevOwner h = Sample.owner_stored.
Proof.
  destruct (history_links_overwritten Sample.fmt Sample.stickered
              Sample.owner Cases.after_unbox
              (assetData Sample.stickered
                         {| ms := Sample.owner_stored; d := d Sample.owner |}
                         (uniqueId_of Sample.stickered) 35675800221)
              (snd (handleInspectResult Sample.fmt Sample.stickered
                      Sample.owner Cases.after_unbox))
              35675800221)
    as (h & Hh & Hid & _ & Hown & _ & Hprior).
  - vm_compute. reflexivity.
  - reflexivity.
  - vm_compute. reflexivity.
  - intros h0 Hin. vm_compute in Hin.
    apply list_elem_of_singleton in Hin. subst h0. discriminate.
  - apply (bool_decide_unpack _). vm_compute. exact I.
  - repeat constructor.
  - exists h. split; [exact Hh|]. split; [exact Hid|].
    change (find (same_item Sample.stickered) (rev (assets Cases.after_unbox)))
      with (Some Sample.stored) in Hprior.
    destruct Hprior as (_ & _ & Hp & Ho & _). split; [exact Hp|].
    assert (E1 : cast_Number (ms Sample.owner) = Some Sample.owner_stored)
      by reflexivity.
    assert (E2 : cast_Number (a_ms Sample.stored) = Some Sample.owner_stored)
      by reflexivity.
    split; congruence.
Defined.

End UpsertFacts.

Module DifferFacts.
Import Js Schema Handle InspectService Inv NumFacts.

Lemma scan_stickers_no_remove prev rest :
  scan_stickers (length prev) prev rest <> Some STICKER_REMOVE.
Proof.
  induction rest as [|c rest IH]; simpl; [discriminate|].
  destruct (find (same_placement c) prev) as [p|].
  - destruct (negb _); [destruct (field_gt _ _); discriminate|exact IH].
  - rewrite Nat.eqb_refl. discriminate.
Qed.

(** X6.  Only the counts decide between [STICKER_APPLY] and
    [STICKER_REMOVE]: the differ answers the first exactly when there
    are more current stickers than previous ones and the second
    exactly when there are fewer.  The [STICKER_REMOVE] inside the
    loop is never returned. *)
Theorem sticker_count_decides cur prev :
  (detectStickerChanges (Some cur) (Some prev) = Some STICKER_APPLY <->
   (length prev < length cur)%nat) /\
  (detectStickerChanges (Some cur) (Some prev) = Some STICKER_REMOVE <->
   (length cur < length prev)%nat).
Proof.
  unfold detectStickerChanges.
  destruct (length prev <? length cur)%nat eqn:E1;
    [apply Nat.ltb_lt in E1|apply Nat.ltb_ge in E1].
  - split; split; auto; try discriminate; lia.
  - destruct (length cur <? length prev)%nat eqn:E2;
      [apply Nat.ltb_lt in E2|apply Nat.ltb_ge in E2].
    + split; split; auto; try discriminate; lia.
    + assert (E : length cur = length prev) by lia. rewrite E.
      split; split; try lia.
      * intros H. apply Claims.scan_stickers_range in H.
        destruct H as [H|[H|H]]; discriminate.
      * intros H. now apply scan_stickers_no_remove in H.
Qed.

Lemma same_placement_refl c : same_placement c c = true.
Proof. unfold same_placement. now rewrite !field_eq_refl. Qed.

Lemma find_self l : forall (c : Sticker) i,
  l !! i = Some c ->
  (forall j y, l !! j = Some y -> same_placement c y = true -> j = i) ->
  find (same_placement c) l = Some c.
Proof.
  induction l as [|x l IH]; intros c i Hi Hd; [discriminate|].
  simpl. destruct (same_placement c x) eqn:E.
  - pose proof (Hd 0%nat x eq_refl E) as <-. simpl in Hi. congruence.
  - destruct i as [|i].
    + simpl in Hi. injection Hi as ->.
      rewrite same_placement_refl in E. discriminate.
    + apply (IH c i Hi). intros j y Hj Hy.
      specialize (Hd (S j) y Hj Hy). lia.
Qed.

(** X7.  An array of stickers compared with itself shows no change,
    provided that no two of its stickers share a placement. *)
Theorem same_stickers_no_change l :
  distinct_placements l ->
  detectStickerChanges (Some l) (Some l) = None.
Proof.
  intros Hd. unfold detectStickerChanges.
  rewrite Nat.ltb_irrefl.
  apply Claims.scan_stickers_unchanged.
  apply Forall_lookup. intros i c Hi. exists c. split; [|apply field_eq_refl].
  apply (find_self l c i Hi). intros j y Hj Hy. symmetry.
  exact (Hd i j c y Hi Hj Hy).
Qed.

Lemma same_stickers_no_change_witness :
  distinct_placements Cases.pair /\
  detectStickerChanges (Some Cases.pair) (Some Cases.pair) = None.
Proof.
  assert (H : distinct_placements Cases.pair).
  { intros i j x y Hi Hj E.
    destruct i as [|[|i]], j as [|[|j]]; simpl in Hi, Hj;
      try discriminate; try reflexivity;
      injection Hi as <-; injection Hj as <-; vm_compute in E; discriminate. }
  split; [exact H|]. exact (same_stickers_no_change Cases.pair H).
Defined.

(** Without that proviso the differ reports a change where there is
    none: of two stickers at one placement the second is compared with
    the first. *)
Example twin_stickers_differ :
  detectStickerChanges
    (Some [Sample.sticker 0 202 (Some (Num 1 (-1)));
           Sample.sticker 0 202 (Some (Num 2 (-1)))])
    (Some [Sample.sticker 0 202 (Some (Num 1 (-1)));
           Sample.sticker 0 202 (Some (Num 2 (-1)))])
  = Some STICKER_SCRAPE.
Proof. reflexivity. Qed.

(** X8.  The keychain differ reports nothing for an array compared
    with itself, and swapping its arguments swaps [KEYCHAIN_ADDED] and
    [KEYCHAIN_REMOVED] and keeps [KEYCHAIN_CHANGED] and "no change". *)
Theorem keychain_diff_symmetry cur prev :
  detectKeychainChanges (Some cur) (Some cur) = None /\
  (detectKeychainChanges (Some cur) (Some prev) = Some KEYCHAIN_ADDED <->
   detectKeychainChanges (Some prev) (Some cur) = Some KEYCHAIN_REMOVED) /\
  (detectKeychainChanges (Some cur) (Some prev) = Some KEYCHAIN_CHANGED <->
   detectKeychainChanges (Some prev) (Some cur) = Some KEYCHAIN_CHANGED) /\
  (detectKeychainChanges (Some cur) (Some prev) = None <->
   detectKeychainChanges (Some prev) (Some cur) = None).
Proof.
  unfold detectKeychainChanges.
  rewrite (String.eqb_sym (json_stringify prev) (json_stringify cur)).
  rewrite String.eqb_refl.
  destruct (String.eqb (json_stringify cur) (json_stringify prev)) eqn:E;
    destruct cur, prev; simpl; try (repeat split; congruence).
Qed.

Ltac listed :=
  repeat first [apply list_elem_of_here | apply list_elem_of_further].

(** X9.  The classifier returns one of fifteen history types, never
    one of the other fourteen of the enumeration: one of six for an
    item without a prior record, and one of ten for an item with
    one. *)
Theorem getHistoryType_range response history inspectData :
  getHistoryType response history inspectData ∈ produced /\
  (history = None ->
   getHistoryType response history inspectData ∈ take 6 produced) /\
  (history <> None ->
   getHistoryType response history inspectData ∈ drop 5 produced).
Proof.
  assert (Hwide : forall h,
    getHistoryType response (Some h) inspectData
      ∈ MARKET_LISTING :: drop 5 produced).
  { intros h. unfold getHistoryType, produced. cbn [drop].
    destruct (detectStickerChanges (stickers response) (p_stickers h))
      as [t|] eqn:Es.
    - apply Claims.detectStickerChanges_range in Es.
      destruct Es as [->|[->|[->| ->]]]; repeat case_match; listed.
    - destruct (detectKeychainChanges (keychains response) (p_keychains h))
        as [t|] eqn:Ek.
      + apply Claims.detectKeychainChanges_range in Ek.
        destruct Ek as [->|[->| ->]]; repeat case_match; listed.
      + repeat case_match; listed. }
  assert (Hprior : forall h,
    getHistoryType response (Some h) inspectData ∈ drop 5 produced).
  { intros h. specialize (Hwide h). apply elem_of_cons in Hwide as [E|Hin].
    - now apply Claims.getHistoryType_never_MARKET_LISTING in E.
    - exact Hin. }
  assert (Hnone :
    getHistoryType response None inspectData ∈ take 6 produced).
  { unfold getHistoryType, produced. cbn [take].
    repeat case_match; listed. }
  split; [|split].
  - destruct history as [h|].
    + change produced with (take 5 produced ++ drop 5 produced).
      apply elem_of_app. right. apply Hprior.
    + change produced with (take 6 produced ++ drop 6 produced).
      apply elem_of_app. left. exact Hnone.
  - intros ->. exact Hnone.
  - destruct history as [h|]; [intros _; apply Hprior|congruence].
Qed.

Lemma getHistoryType_range_witness :
  getHistoryType Sample.unboxed None Sample.owner ∈ take 6 produced.
Proof.
  destruct (getHistoryType_range Sample.unboxed None Sample.owner)
    as (_ & Hfirst & _).
  apply Hfirst. reflexivity.
Defined.

End DifferFacts.

Module StatsFacts.
Import Js Schema Handle InspectService Inv Uptime.

(** X10.  The uptime line is a proper clock reading: for an uptime
    that is not negative and below 2^53, where the integers computed
    here are the numbers the code computes, hours are below 24, minutes
    and seconds below 60, and days, hours, minutes and seconds add up
    to the uptime less the milliseconds of the last, unfinished
    second. *)
Theorem uptime_parts_spec uptime :
  0 <= uptime < 2 ^ 53 ->
  let '(days, hours, minutes, seconds) := uptime_parts uptime in
  0 <= days /\ 0 <= hours < 24 /\ 0 <= minutes < 60 /\ 0 <= seconds < 60 /\
  days * 86400000 + hours * 3600000 + minutes * 60000 + seconds * 1000
    <= uptime
    < days * 86400000 + hours * 3600000 + minutes * 60000 + seconds * 1000
      + 1000.
Proof.
  intros H. unfold uptime_parts.
  rewrite !Z.rem_mod_nonneg by lia.
  change (24 * 60 * 60 * 1000) with 86400000.
  change (60 * 60 * 1000) with 3600000.
  change (60 * 1000) with 60000.
  pose proof (Z.div_mod uptime 86400000 ltac:(lia)).
  pose proof (Z.mod_pos_bound uptime 86400000 ltac:(lia)).
  pose proof (Z.div_mod (uptime mod 86400000) 3600000 ltac:(lia)).
  pose proof (Z.mod_pos_bound (uptime mod 86400000) 3600000 ltac:(lia)).
  pose proof (Z.div_mod (uptime mod 3600000) 60000 ltac:(lia)).
  pose proof (Z.mod_pos_bound (uptime mod 3600000) 60000 ltac:(lia)).
  pose proof (Z.div_mod (uptime mod 60000) 1000 ltac:(lia)).
  pose proof (Z.mod_pos_bound (uptime mod 60000) 1000 ltac:(lia)).
  pose proof (Z.div_pos uptime 86400000 ltac:(lia) ltac:(lia)).
  assert (uptime mod 3600000 = (uptime mod 86400000) mod 3600000).
  { symmetry. apply Z.mod_mod_divide. exists 24. lia. }
  assert (uptime mod 60000 = (uptime mod 3600000) mod 60000).
  { symmetry. apply Z.mod_mod_divide. exists 60. lia. }
  lia.
Qed.

Lemma uptime_parts_spec_witness :
  uptime_parts 93784500 = (1, 2, 3, 4) /\
  let '(days, hours, minutes, seconds) := uptime_parts 93784500 in
  0 <= days /\ 0 <= hours < 24 /\ 0 <= minutes < 60 /\ 0 <= seconds < 60 /\
  days * 86400000 + hours * 3600000 + minutes * 60000 + seconds * 1000
    <= 93784500
    < days * 86400000 + hours * 3600000 + minutes * 60000 + seconds * 1000
      + 1000.
Proof.
  split; [reflexivity|]. apply (uptime_parts_spec 93784500). lia.
Defined.

Section WithFormat.
Context {Formatted : Type}.

Local Abbreviation State := (State (Formatted := Formatted)).

(** X11.  The three counts of [service.queue.priorities] are the
    numbers of queue items of each priority, and add up to the number
    of items that the queue reports. *)
Theorem priorities_partition (st : State) :
  let '(h, n, l) := priorities (stats st) in
  h = count_of high (QueueService.metrics_items (queue st)) /\
  n = count_of normal (QueueService.metrics_items (queue st)) /\
  l = count_of low (QueueService.metrics_items (queue st)) /\
  (h + n + l)%nat = length (QueueService.metrics_items (queue st)).
Proof.
  unfold stats. simpl.
  generalize (QueueService.metrics_items (queue st)). intros items.
  assert (G : forall items h0 n0 l0,
    let '(h, n, l) := foldl count_priority (h0, n0, l0) items in
    h = (h0 + count_of high items)%nat /\
    n = (n0 + count_of normal items)%nat /\
    l = (l0 + count_of low items)%nat /\
    (h + n + l = h0 + n0 + l0 + length items)%nat).
  { clear. induction items as [|p items IH]; intros h0 n0 l0; simpl.
    - unfold count_of. simpl. lia.
    - destruct p; simpl.
      + specialize (IH (S h0) n0 l0).
        destruct (foldl count_priority (S h0, n0, l0) items) as [[h n] l].
        unfold count_of in *. simpl. lia.
      + specialize (IH h0 (S n0) l0).
        destruct (foldl count_priority (h0, S n0, l0) items) as [[h n] l].
        unfold count_of in *. simpl. lia.
      + specialize (IH h0 n0 (S l0)).
        destruct (foldl count_priority (h0, n0, S l0) items) as [[h n] l].
        unfold count_of in *. simpl. lia. }
  specialize (G items 0%nat 0%nat 0%nat).
  destruct (foldl count_priority (0%nat, 0%nat, 0%nat) items) as [[h n] l].
  simpl in G. exact G.
Qed.

End WithFormat.

End StatsFacts.

Module FlowFacts.
Import Js Schema Handle Store InspectService StoreFacts Inv UpsertFacts.

Section WithCollaborators.
Context {Formatted : Type}.
Variable formatResponse : Asset -> Formatted.
Variable parse : InspectDto -> HttpException + Link.

Local Abbreviation State := (State (Formatted := Formatted)).

Ltac awaited r E :=
  match goal with
  | |- context [run ?m ?st] =>
      let st1 := fresh "st" in
      destruct (run m st) as [r st1] eqn:E;
      apply ServiceFacts.run_inv in E as [E ->]
  end.

Ltac request_cases query :=
  unfold inspectItem;
  destruct (parse query) as [?e|[?s ?a ?d ?m]];
  [|let E := fresh "E" in
    destruct (consult_cache _ _ _ _ _) as [[?c|] ?st1] eqn:E;
    apply ServiceFacts.consult_cache_inv in E as (-> & _);
    [|destruct (QueueService.isFull _);
      [|destruct (reply query) as [[]|]]]].

Lemma step_counters (st : State) e :
  let st' := step formatResponse parse st e in
  currentRequests (counters st') =
    (currentRequests (counters st) + (if is_request e then 1 else 0))%nat /\
  (success (counters st) <= success (counters st'))%nat /\
  (failed (counters st) <= failed (counters st'))%nat /\
  (timeouts (counters st) <= timeouts (counters st'))%nat /\
  (cached (counters st) <= cached (counters st'))%nat /\
  (wm_cached st' + cached (counters st) =
     wm_cached st + cached (counters st'))%nat.
Proof.
  destruct e as [query|id|call response|call msg]; simpl.
  - request_cases query; simpl; repeat split; lia.
  - unfold fire. destruct (timers st !! id) as [[[q|a] t]|]; simpl;
      repeat split; lia.
  - unfold on_response.
    destruct (awaiting st !! call) as [[q t a data|a data]|]; simpl;
      [| |repeat split; lia].
    + awaited r E. destruct r; simpl; repeat split; lia.
    + awaited r E. simpl; repeat split; lia.
  - unfold on_error. destruct (awaiting st !! call) as [[q t a data|a data]|];
      simpl; repeat split; lia.
Qed.

(** X12.  [currentRequests] is the number of requests ever received:
    every call of [inspectItem] adds one, and no event takes one away.
    The other counters never decrease, and [cached] moves in step with
    the [incrementCached] calls made on the worker manager. *)
Theorem counters_run_events es : forall (st : State),
  let st' := run_events formatResponse parse st es in
  currentRequests (counters st') =
    (currentRequests (counters st) + length (filter is_request es))%nat /\
  (success (counters st) <= success (counters st'))%nat /\
  (failed (counters st) <= failed (counters st'))%nat /\
  (timeouts (counters st) <= timeouts (counters st'))%nat /\
  (cached (counters st) <= cached (counters st'))%nat /\
  (wm_cached st' + cached (counters st) =
     wm_cached st + cached (counters st'))%nat.
Proof.
  induction es as [|e es IH]; intros st; simpl.
  - repeat split; lia.
  - specialize (IH (step formatResponse parse st e)). simpl in IH.
    pose proof (step_counters st e) as H. simpl in H.
    unfold filter. simpl. fold (filter is_request es).
    destruct (is_request e); simpl; lia.
Qed.

Lemma settle_keeps p o q o' (st : State) :
  settled st !! p = Some o -> settled (settle q o' st) !! p = Some o.
Proof.
  intros H. unfold settle. simpl.
  destruct (settled st !! q) eqn:E; [exact H|].
  rewrite lookup_insert_ne; [exact H|congruence].
Qed.

Lemma inspectItem_settled query (st : State) :
  settled (snd (inspectItem formatResponse parse query st)) = settled st.
Proof. request_cases query; reflexivity. Qed.

Lemma step_settled (st : State) e p o :
  settled st !! p = Some o ->
  settled (step formatResponse parse st e) !! p = Some o.
Proof.
  intros H. destruct e as [query|id|call response|call msg]; simpl.
  - now rewrite inspectItem_settled.
  - unfold fire. destruct (timers st !! id) as [[[q|a] t]|]; auto.
    now apply settle_keeps.
  - unfold on_response.
    destruct (awaiting st !! call) as [[q t a data|a data]|]; [| |auto].
    + awaited r E. destruct r; now apply settle_keeps.
    + awaited r E. exact H.
  - unfold on_error. destruct (awaiting st !! call) as [[q t a data|a data]|];
      auto. now apply settle_keeps.
Qed.

(** A promise is settled once: whatever events follow, a caller
    who has been answered, with a result or an error, keeps that
    answer. *)
Theorem settled_for_good es : forall (st : State) p o,
  settled st !! p = Some o ->
  settled (run_events formatResponse parse st es) !! p = Some o.
Proof.
  induction es as [|e es IH]; intros st p o H; [exact H|].
  simpl. apply IH. now apply step_settled.
Qed.

(** [fresh_ids] only reads the promises, the timers and the handlers. *)
Lemma fresh_ids_frame (st st' : State) :
  settled st' = settled st -> next_promise st' = next_promise st ->
  timers st' = timers st -> next_timer st' = next_timer st ->
  awaiting st' = awaiting st -> requests st' = requests st ->
  fresh_ids st -> fresh_ids st'.
Proof.
  unfold fresh_ids. intros -> -> -> -> -> ->. auto.
Qed.

Lemma fresh_ids_settle p o (st : State) :
  (p < next_promise st)%nat -> fresh_ids st -> fresh_ids (settle p o st).
Proof.
  intros Hp (Hs & Ht & Ha). split; [|split]; [|exact Ht|exact Ha].
  intros q. unfold settle. simpl.
  destruct (settled st !! p) eqn:E; [apply Hs|].
  destruct (decide (q = p)) as [->|Hne]; [auto|].
  rewrite lookup_insert_ne by congruence. apply Hs.
Qed.

Lemma fresh_ids_clear id (st : State) :
  fresh_ids st -> fresh_ids (with_timers (delete id) st).
Proof.
  intros (Hs & Ht & Ha). split; [|split]; [exact Hs| |exact Ha].
  intros id0 t. simpl. intros H. apply lookup_delete_Some in H as [_ H].
  now apply Ht.
Qed.

Lemma fresh_ids_handled call (st : State) :
  fresh_ids st -> fresh_ids (with_awaiting (delete call) st).
Proof.
  intros (Hs & Ht & Ha). split; [|split]; [exact Hs|exact Ht|].
  intros c k. simpl. intros H. apply lookup_delete_Some in H as [_ H].
  now apply Ha.
Qed.

Lemma fresh_ids_background a ms data r (st : State) :
  fresh_ids st ->
  fresh_ids (call_worker r (BackgroundCont a data)
               (snd (setTimeout (BackgroundTimeout a) ms st))).
Proof.
  intros (Hs & Ht & Ha). split; [|split]; simpl.
  - exact Hs.
  - intros id t H. apply lookup_insert_Some in H as [[<- <-]|[_ H]]; simpl.
    + split; [lia|discriminate].
    + destruct (Ht _ _ H). split; [lia|assumption].
  - intros c k H. rewrite length_app. simpl.
    apply lookup_insert_Some in H as [[<- <-]|[_ H]].
    + split; [lia|discriminate].
    + destruct (Ha _ _ H) as [Hc Hk]. split; [lia|].
      intros p t a0 d0 E. destruct (Hk _ _ _ _ E). split; lia.
Qed.

Lemma fresh_ids_reply a ms data r (st : State) :
  fresh_ids st ->
  fresh_ids (call_worker r
               (ReplyCont (next_promise st) (next_timer st) a data)
               (snd (setTimeout (ReplyTimeout (next_promise st)) ms
                       (snd (new_promise st))))).
Proof.
  intros (Hs & Ht & Ha). split; [|split]; simpl.
  - intros p H. specialize (Hs p H). lia.
  - intros id t H. apply lookup_insert_Some in H as [[<- <-]|[_ H]]; simpl.
    + split; [lia|]. intros p [= <-]. lia.
    + destruct (Ht _ _ H) as [? Hp]. split; [lia|].
      intros p E. specialize (Hp p E). lia.
  - intros c k H. rewrite length_app. simpl.
    apply lookup_insert_Some in H as [[<- <-]|[_ H]].
    + split; [lia|]. intros p t a0 d0 [= <- <- _ _]. split; lia.
    + destruct (Ha _ _ H) as [Hc Hk]. split; [lia|].
      intros p t a0 d0 E. destruct (Hk _ _ _ _ E). split; lia.
Qed.

Lemma step_fresh_ids (st : State) e :
  fresh_ids st -> fresh_ids (step formatResponse parse st e).
Proof.
  intros H. destruct e as [query|id|call response|call msg]; simpl.
  - unfold inspectItem. destruct (parse query) as [err|[s a dd m]];
      [revert H; apply fresh_ids_frame; reflexivity|].
    destruct (consult_cache _ _ _ _ _) as [[c|] st1] eqn:E;
      apply ServiceFacts.consult_cache_inv in E as (-> & _);
      [revert H; apply fresh_ids_frame; reflexivity|].
    destruct (QueueService.isFull _);
      [revert H; apply fresh_ids_frame; reflexivity|].
    destruct (reply query) as [[]|]; simpl.
    + apply (fresh_ids_frame
        (call_worker
           {| w_s := s; w_a := a; w_d := dd; w_m := m;
              w_priority := priority_of (lowPriority query) |}
           (ReplyCont (next_promise st) (next_timer st) a
              {| ms := VStr (owner_of s m); d := dd |})
           (snd (setTimeout (ReplyTimeout (next_promise st)) (QUEUE_TIMEOUT st)
                   (snd (new_promise st))))));
        try reflexivity.
      now apply fresh_ids_reply.
    + apply (fresh_ids_frame
        (call_worker
           {| w_s := s; w_a := a; w_d := dd; w_m := m;
              w_priority := priority_of (lowPriority query) |}
           (BackgroundCont a {| ms := VStr (owner_of s m); d := dd |})
           (snd (setTimeout (BackgroundTimeout a) (QUEUE_TIMEOUT st) st))));
        try reflexivity.
      now apply fresh_ids_background.
    + apply (fresh_ids_frame
        (call_worker
           {| w_s := s; w_a := a; w_d := dd; w_m := m;
              w_priority := priority_of (lowPriority query) |}
           (ReplyCont (next_promise st) (next_timer st) a
              {| ms := VStr (owner_of s m); d := dd |})
           (snd (setTimeout (ReplyTimeout (next_promise st)) (QUEUE_TIMEOUT st)
                   (snd (new_promise st))))));
        try reflexivity.
      now apply fresh_ids_reply.
  - unfold fire. destruct (timers st !! id) as [[[q|a] t]|] eqn:Et; auto.
    + destruct H as (Hs & Ht & Ha). destruct (Ht _ _ Et) as [_ Hq].
      specialize (Hq q eq_refl).
      apply fresh_ids_settle; [exact Hq|].
      apply (fresh_ids_frame (with_timers (delete id) st)); try reflexivity.
      apply fresh_ids_clear. exact (conj Hs (conj Ht Ha)).
    + apply (fresh_ids_frame (with_timers (delete id) st)); try reflexivity.
      now apply fresh_ids_clear.
  - unfold on_response.
    destruct (awaiting st !! call) as [[q t a data|a data]|] eqn:Ea; [| |auto].
    + assert (Hq : (q < next_promise st)%nat).
      { destruct H as (_ & _ & Ha). destruct (Ha _ _ Ea) as [_ Hk].
        now destruct (Hk _ _ _ _ eq_refl). }
      assert (Hf : fresh_ids
                (with_timers (delete t) (with_awaiting (delete call) st)))
        by now apply fresh_ids_clear, fresh_ids_handled.
      awaited r E. destruct r; (apply fresh_ids_settle; [exact Hq|]);
        revert Hf; apply fresh_ids_frame; reflexivity.
    + assert (Hf : fresh_ids (with_awaiting (delete call) st))
        by now apply fresh_ids_handled.
      awaited r E. revert Hf; apply fresh_ids_frame; reflexivity.
  - unfold on_error.
    destruct (awaiting st !! call) as [[q t a data|a data]|] eqn:Ea; [| |auto].
    + assert (Hq : (q < next_promise st)%nat).
      { destruct H as (_ & _ & Ha). destruct (Ha _ _ Ea) as [_ Hk].
        now destruct (Hk _ _ _ _ eq_refl). }
      assert (Hf : fresh_ids
                (with_timers (delete t) (with_awaiting (delete call) st)))
        by now apply fresh_ids_clear, fresh_ids_handled.
      apply fresh_ids_settle; [exact Hq|].
      revert Hf; apply fresh_ids_frame; reflexivity.
    + assert (Hf : fresh_ids (with_awaiting (delete call) st))
        by now apply fresh_ids_handled.
      revert Hf; apply fresh_ids_frame; reflexivity.
Qed.

Lemma reachable_fresh_ids (st : State) :
  reachable formatResponse parse st -> fresh_ids st.
Proof.
  induction 1 as [t m db|st e _ IH].
  - split; [|split]; simpl.
    + intros p [o H]. rewrite lookup_empty in H. discriminate.
    + intros id t0 H. rewrite lookup_empty in H. discriminate.
    + intros c k H. rewrite lookup_empty in H. discriminate.
  - now apply step_fresh_ids.
Qed.

(** A caller who is made to wait holds a promise that is still
    pending, guarded by a timer of its own and awaited by a handler of
    its own: in a reachable state the new promise is not settled, and
    the timer and the handler are added under numbers not in use, so
    that nothing in flight is overwritten. *)
Theorem reply_request_in_flight query (st : State) p st' s a d m :
  reachable formatResponse parse st ->
  parse query = inr {| l_s := s; l_a := a; l_d := d; l_m := m |} ->
  inspectItem formatResponse parse query st = (Awaiting p, st') ->
  p = next_promise st /\
  settled st' !! p = None /\
  settled st' = settled st /\
  timers st !! next_timer st = None /\
  timers st' =
    <[next_timer st := {| callback := ReplyTimeout p;
                          delay := QUEUE_TIMEOUT st |}]> (timers st) /\
  awaiting st !! length (requests st) = None /\
  awaiting st' =
    <[length (requests st) :=
        ReplyCont p (next_timer st) a
                  {| ms := VStr (owner_of s m); d := d |}]> (awaiting st).
Proof.
  intros Hreach P. apply reachable_fresh_ids in Hreach as (Hs & Ht & Ha).
  assert (Hpend : settled st !! next_promise st = None).
  { destruct (settled st !! next_promise st) eqn:E; [|reflexivity].
    specialize (Hs _ (mk_is_Some _ _ E)). lia. }
  assert (Htim : timers st !! next_timer st = None).
  { destruct (timers st !! next_timer st) eqn:E; [|reflexivity].
    destruct (Ht _ _ E). lia. }
  assert (Haw : awaiting st !! length (requests st) = None).
  { destruct (awaiting st !! length (requests st)) eqn:E; [|reflexivity].
    destruct (Ha _ _ E). lia. }
  unfold inspectItem. rewrite P.
  destruct (consult_cache _ _ _ _ _) as [[c|] st1] eqn:E;
    apply ServiceFacts.consult_cache_inv in E as (-> & _); [discriminate|].
  destruct (QueueService.isFull _); [discriminate|].
  destruct (reply query) as [[]|]; try discriminate;
    intros [= <- <-]; simpl; auto 10.
Qed.

(** X13.  When the worker manager answers a request whose caller
    waits, be it with a result or with an error, and whether or not
    the result can be stored, the handler is done with, the timer of
    the request is cleared, so that its expiry changes nothing and
    counts no timeout, [queueService.remove] is called for the asset,
    and the promise of the caller is settled. *)
Theorem reply_answer_clears_timer (st : State) call p t a data e :
  awaiting st !! call = Some (ReplyCont p t a data) ->
  (exists response, e = WorkerResolves call response) \/
  (exists msg, e = WorkerRejects call msg) ->
  let st' := step formatResponse parse st e in
  awaiting st' !! call = None /\
  timers st' !! t = None /\
  fire t st' = st' /\
  timeouts (counters st') = timeouts (counters st) /\
  queue st' = QueueService.remove a (queue st) /\
  is_Some (settled st' !! p).
Proof.
  intros Ha He.
  assert (Hsettle : forall o (s0 : State),
            is_Some (settled (settle p o s0) !! p)).
  { intros o s0. unfold settle. simpl.
    destruct (settled s0 !! p) eqn:E; [rewrite E; eauto|].
    rewrite lookup_insert_eq. eauto. }
  assert (Hfire : forall s0 : State, timers s0 !! t = None -> fire t s0 = s0).
  { intros s0 E. unfold fire. now rewrite E. }
  destruct He as [[response ->]|[msg ->]]; simpl.
  - unfold on_response. rewrite Ha. awaited r E.
    destruct r; simpl;
      (split; [apply lookup_delete_eq|]);
      (split; [apply lookup_delete_eq|]);
      (split; [apply Hfire, lookup_delete_eq|]);
      (split; [reflexivity|]); (split; [reflexivity|]); apply Hsettle.
  - unfold on_error. rewrite Ha. simpl.
    (split; [apply lookup_delete_eq|]);
      (split; [apply lookup_delete_eq|]);
      (split; [apply Hfire, lookup_delete_eq|]);
      (split; [reflexivity|]); (split; [reflexivity|]); apply Hsettle.
Qed.

(** X14.  An expired deadline does not cancel the inspection.  When
    the result arrives after the caller received the timeout, it is
    still processed and stored and counts as a success, the entry
    leaves the queue, and the caller keeps the timeout: the request
    counts both as a timeout and as a success. *)
Theorem answer_after_timeout (st : State) call p t tm a data response :
  timers st !! t = Some tm -> callback tm = ReplyTimeout p ->
  awaiting st !! call = Some (ReplyCont p t a data) ->
  settled st !! p = None ->
  let st' := on_response formatResponse call response (fire t st) in
  settled st' !! p = Some (Rejected Spec.InspectTimeout) /\
  timeouts (counters st') = S (timeouts (counters st)) /\
  success (counters st') = S (success (counters st)) /\
  store st' =
    snd (handleInspectResult formatResponse response data (store st)) /\
  queue st' = QueueService.remove a (queue st).
Proof.
  intros Ht Hc Ha Hp. simpl.
  assert (Hfire :
    settled (fire t st) !! p = Some (Rejected Spec.InspectTimeout) /\
    awaiting (fire t st) = awaiting st /\
    counters (fire t st) = bump_timeouts (counters st) /\
    store (fire t st) = store st /\ queue (fire t st) = queue st).
  { unfold fire. rewrite Ht, Hc. unfold settle. simpl. rewrite Hp. simpl.
    rewrite lookup_insert_eq. auto. }
  destruct Hfire as (Hs & Haw & Hcn & Hst & Hq).
  unfold on_response. rewrite Haw, Ha. awaited r E. simpl in E.
  rewrite Hst in E. rewrite E. simpl.
  destruct r; simpl; rewrite Hcn, Hq;
    (split; [apply settle_keeps; exact Hs|auto]).
Qed.

(** X15.  A cache hit bypasses the queue, also when the queue is full:
    the cached record is returned, the queue, the worker manager's
    requests, the handlers, the timers and the promises are as before,
    and only [cached] and the worker manager's own count of cached
    answers grow, by one each. *)
Theorem cache_hit_bypasses_queue query (st : State) s a d m cachedAsset s' :
  parse query = inr {| l_s := s; l_a := a; l_d := d; l_m := m |} ->
  refresh query = false ->
  checkCache formatResponse a d (store st) = (Ok (Some cachedAsset), s') ->
  exists st',
    inspectItem formatResponse parse query st
      = (Returned (Item cachedAsset), st') /\
    queue st' = queue st /\ requests st' = requests st /\
    awaiting st' = awaiting st /\ timers st' = timers st /\
    settled st' = settled st /\
    cached (counters st') = S (cached (counters st)) /\
    wm_cached st' = S (wm_cached st) /\
    success (counters st') = success (counters st) /\
    failed (counters st') = failed (counters st) /\
    timeouts (counters st') = timeouts (counters st).
Proof.
  intros P R Hhit. unfold inspectItem. rewrite P.
  unfold consult_cache, run. rewrite R. simpl. rewrite Hhit.
  eexists. split; [reflexivity|]. simpl. auto 12.
Qed.

(** X16.  A request with [refresh] makes no store operation and is
    never answered from the cache; unless the queue is full it goes to
    the worker manager. *)
Theorem refresh_skips_cache query (st : State) s a d m :
  parse query = inr {| l_s := s; l_a := a; l_d := d; l_m := m |} ->
  refresh query = true ->
  store (snd (inspectItem formatResponse parse query st)) = store st /\
  (forall c, fst (inspectItem formatResponse parse query st)
               <> Returned (Item c)) /\
  (QueueService.isFull (queue st) = false ->
   requests (snd (inspectItem formatResponse parse query st)) =
     requests st ++ [{| w_s := s; w_a := a; w_d := d; w_m := m;
                        w_priority := priority_of (lowPriority query) |}]).
Proof.
  intros P R. unfold inspectItem. rewrite P.
  unfold consult_cache. rewrite R. simpl.
  destruct (QueueService.isFull (queue st)).
  - split; [reflexivity|]. split; [discriminate|discriminate].
  - destruct (reply query) as [[]|]; simpl;
      (split; [reflexivity|]); (split; [discriminate|reflexivity]).
Qed.

Lemma step_assets (st : State) e :
  assets (store (step formatResponse parse st e)) = assets (store st) \/
  exists response inspectData r,
    handleInspectResult formatResponse response inspectData (store st)
      = (r, store (step formatResponse parse st e)).
Proof.
  destruct e as [query|id|call response|call msg]; simpl.
  - left. apply ServiceFacts.inspectItem_store.
  - left. now destruct (ServiceFacts.fire_frame id st) as [_ ->].
  - destruct (ServiceFacts.on_response_store formatResponse call response st)
      as [->|(data & r & H)]; [now left|right; eauto].
  - left. now destruct (ServiceFacts.on_error_frame call msg st) as [_ ->].
Qed.

(** X17.  Whatever events the service handles, it never asks the
    unique index on [uniqueId] to hold two documents of one id, and
    every document keeps the [uniqueId] of its own paint. *)
Theorem assets_stay_keyed es : forall (st : State),
  unique_assets (store st) ->
  Forall well_keyed (assets (store st)) ->
  unique_assets (store (run_events formatResponse parse st es)) /\
  Forall well_keyed (assets (store (run_events formatResponse parse st es))).
Proof.
  induction es as [|e es IH]; intros st Hu Hk; [auto|].
  simpl. apply IH.
  - destruct (step_assets st e) as [E|(response & data & r & H)].
    + unfold unique_assets. now rewrite E.
    + exact (uniqueIds_stay_unique formatResponse _ _ _ _ _ Hu H).
  - destruct (step_assets st e) as [E|(response & data & r & H)].
    + now rewrite E.
    + exact (handleInspectResult_well_keyed formatResponse _ _ _ _ _ Hk H).
Qed.

End WithCollaborators.

Lemma settled_for_good_witness :
  settled (run_events Sample.fmt Sample.parse0 (fire 0 Sample.waiting)
             [WorkerResolves 0 Sample.unboxed]) !! 0%nat
    = Some (Rejected Spec.InspectTimeout).
Proof.
  apply (settled_for_good Sample.fmt Sample.parse0
           [WorkerResolves 0 Sample.unboxed] (fire 0 Sample.waiting)).
  vm_compute. reflexivity.
Defined.

Lemma reply_request_in_flight_witness :
  settled Sample.waiting !! 0%nat = None /\
  timers Sample.waiting !! 0%nat
    = Some {| callback := ReplyTimeout 0; delay := 10000 |}.
Proof.
  destruct (reply_request_in_flight Sample.fmt Sample.parse0
              (Sample.query "35675800220" "99" None) Sample.service
              0%nat Sample.waiting
              "76561198023809011" "35675800220" "99" "0")
    as (_ & Hp & _ & _ & Ht & _).
  - apply reachable_init.
  - reflexivity.
  - vm_compute. reflexivity.
  - split; [exact Hp|]. rewrite Ht. apply lookup_insert_eq.
Defined.

Lemma reply_answer_clears_timer_witness :
  timers Sample.served !! 0%nat = None /\
  fire 0 Sample.served = Sample.served /\
  is_Some (settled Sample.served !! 0%nat).
Proof.
  destruct (reply_answer_clears_timer Sample.fmt Sample.parse0
              Sample.waiting 0%nat 0%nat 0%nat "35675800220"
              {| ms := VStr "76561198023809011"; d := "99" |}
              (WorkerResolves 0 Sample.unboxed))
    as (_ & Ht & Hf & _ & _ & Hs).
  - vm_compute. reflexivity.
  - left. eexists. reflexivity.
  - exact (conj Ht (conj Hf Hs)).
Defined.

Lemma answer_after_timeout_witness :
  let st' := on_response Sample.fmt 0 Sample.unboxed (fire 0 Sample.waiting) in
  settled st' !! 0%nat = Some (Rejected Spec.InspectTimeout) /\
  timeouts (counters st') = 1%nat /\
  success (counters st') = 1%nat /\
  Cases.answered ∈ assets (store st').
Proof.
  destruct (answer_after_timeout Sample.fmt Sample.waiting 0%nat 0%nat 0%nat
              {| callback := ReplyTimeout 0; delay := 10000 |}
              "35675800220"
              {| ms := VStr "76561198023809011"; d := "99" |}
              Sample.unboxed)
    as (Hs & Ht & Hc & Hst & _).
  - vm_compute. reflexivity.
  - reflexivity.
  - vm_compute. reflexivity.
  - vm_compute. reflexivity.
  - simpl. split; [exact Hs|]. split; [exact Ht|]. split; [exact Hc|].
    rewrite Hst. vm_compute. apply list_elem_of_here.
Defined.

Lemma cache_hit_bypasses_queue_witness :
  exists st',
    inspectItem Sample.fmt Sample.parse0
      (Sample.query "35675800220" "7" None) Sample.served
      = (Returned (Item Cases.answered), st') /\
    queue st' = queue Sample.served /\
    requests st' = requests Sample.served /\
    cached (counters st') = 1%nat.
Proof.
  destruct (cache_hit_bypasses_queue Sample.fmt Sample.parse0
              (Sample.query "35675800220" "7" None) Sample.served
              "76561198023809011" "35675800220" "7" "0" Cases.answered
              (tick (store Sample.served)))
    as (st' & Hi & Hq & Hr & _ & _ & _ & Hc & _).
  - reflexivity.
  - reflexivity.
  - vm_compute. reflexivity.
  - exists st'. split; [exact Hi|]. split; [exact Hq|]. split; [exact Hr|].
    rewrite Hc. reflexivity.
Defined.

Lemma refresh_skips_cache_witness :
  store (snd (inspectItem Sample.fmt Sample.parse0
                (Cases.refreshing "35675800220" "7") Sample.served))
    = store Sample.served /\
  length (requests (snd (inspectItem Sample.fmt Sample.parse0
                (Cases.refreshing "35675800220" "7") Sample.served)))
    = 2%nat.
Proof.
  destruct (refresh_skips_cache Sample.fmt Sample.parse0
              (Cases.refreshing "35675800220" "7") Sample.served
              "76561198023809011" "35675800220" "7" "0")
    as (Hs & _ & Hr).
  - reflexivity.
  - reflexivity.
  - split; [exact Hs|]. rewrite Hr by (vm_compute; reflexivity).
    vm_compute. reflexivity.
Defined.

Lemma assets_stay_keyed_witness :
  unique_assets (store Sample.served) /\
  Forall well_keyed (assets (store Sample.served)).
Proof.
  apply (assets_stay_keyed Sample.fmt Sample.parse0
           [Request (Sample.query "35675800220" "99" None);
            WorkerResolves 0 Sample.unboxed] Sample.service).
  - constructor.
  - constructor.
Defined.

End FlowFacts.

Module BooksFacts.
Import Js BotWorker Books.

Lemma prefix_empty s : String.prefix EmptyString s = true.
Proof. destruct s; reflexivity. Qed.

Section WithWorld.
Variable world : World.

Lemma ledger_refl w w' :
  attempts w' = attempts w -> logins w' = logins w ->
  successCount w' = successCount w -> failureCount w' = failureCount w ->
  sent w' = sent w -> accounts w' = accounts w ->
  MAX_RETRIES w' = MAX_RETRIES w -> bots w' = bots w ->
  ledger w w' [].
Proof.
  intros Ha Hl Hs Hf Hm Hacc Hmax Hb. unfold ledger.
  rewrite Ha, Hl, Hs, Hf, Hm, Hacc, Hmax, Hb, !app_nil_r. simpl.
  repeat (split; [try reflexivity; try lia|]); auto.
Qed.

Lemma ledger_trans w w1 w2 n1 n2 :
  ledger w w1 n1 -> ledger w1 w2 n2 -> ledger w w2 (n1 ++ n2).
Proof.
  intros (Ha1 & Hl1 & Hc1 & Hs1 & Hm1 & Hacc1 & Hmax1 & Hk1 & Hb1)
         (Ha2 & Hl2 & Hc2 & Hs2 & Hm2 & Hacc2 & Hmax2 & Hk2 & Hb2).
  unfold ledger.
  rewrite Ha2, Ha1, Hl2, Hl1, Hc2, Hc1, Hs2, Hs1, Hm2, Hm1, Hmax2, Hmax1.
  unfold announced. rewrite omap_app, List.filter_app, !length_app, !app_assoc.
  split; [reflexivity|]. split; [lia|]. split; [lia|]. split; [lia|].
  split; [reflexivity|]. split; [now transitivity (accounts w1)|].
  split; [reflexivity|]. split; [auto|].
  intros user s H.
  destruct (Hb2 user s H) as [H1|(a & r & Hin & Hu & Hr & Hst)].
  - destruct (Hb1 user s H1) as [H0|(a & r & Hin & Hu & Hr & Hst)]; [auto|].
    right. exists a, r. rewrite elem_of_app. auto.
  - right. exists a, r. rewrite elem_of_app. auto.
Qed.

Lemma ledger_on_initialized i user isReady w :
  ledger w (on_initialized i user isReady w)
    [{| position := i; username := user; result := LoggedIn isReady |}].
Proof.
  unfold ledger, on_initialized. simpl.
  split; [reflexivity|]. split; [lia|]. split; [lia|]. split; [lia|].
  split; [reflexivity|]. split; [reflexivity|]. split; [reflexivity|].
  split.
  - intros u [s H]. destruct (decide (u = user)) as [->|Hne].
    + rewrite lookup_insert_eq. eauto.
    + rewrite lookup_insert_ne by congruence. eauto.
  - intros u s H. destruct (decide (u = user)) as [->|Hne].
    + rewrite lookup_insert_eq in H. injection H as <-.
      right. eexists _, isReady. split; [apply list_elem_of_here|]. auto.
    + rewrite lookup_insert_ne in H by congruence. auto.
Qed.

Lemma ledger_on_failure i user message w :
  ledger w (on_failure world i user message w)
    [{| position := i; username := user; result := Failed message |}].
Proof.
  unfold ledger, on_failure.
  destruct (String.eqb message "ACCOUNT_DISABLED");
    [|destruct (String.eqb message "LOGIN_THROTTLED")]; simpl;
    rewrite ?app_nil_r;
    (split; [reflexivity|]); (split; [lia|]); (split; [lia|]);
    (split; [lia|]); (split; [reflexivity|]);
    (split; [try reflexivity; apply sublist_filter|]);
    (split; [reflexivity|]); (split; [auto|]); auto.
Qed.

Lemma ledger_retry remaining i user : forall w,
  exists new, ledger w (retry world remaining i user w) new.
Proof.
  induction remaining as [|remaining IH]; intros w; simpl.
  - exists []. now apply ledger_refl.
  - destruct (initialize world (logins w)) as [isReady|message].
    + eexists. apply ledger_on_initialized.
    + pose proof (ledger_on_failure i user message w) as H.
      destruct (String.eqb message "ACCOUNT_DISABLED"); [eauto|].
      destruct (String.eqb message "LOGIN_THROTTLED"); [eauto|].
      destruct (IH (on_failure world i user message w)) as [new Hnew].
      eexists. exact (ledger_trans _ _ _ _ _ H Hnew).
Qed.

Lemma ledger_is_throttled user w :
  ledger w (snd (is_throttled world user w)) [].
Proof.
  unfold is_throttled. destruct (throttledAccounts w !! user) as [expiry|];
    [destruct (expiry =? 0)|]; now apply ledger_refl.
Qed.

Lemma ledger_initializeAccount w ia :
  exists new, ledger w (initializeAccount world w ia) new.
Proof.
  destruct ia as [i account]. unfold initializeAccount.
  pose proof (ledger_is_throttled (username_of account) w) as H.
  destruct (is_throttled world (username_of account) w) as [[] w1];
    simpl in H; [eauto|].
  destruct (ledger_retry (Z.to_nat (MAX_RETRIES w1)) i (username_of account) w1)
    as [new Hnew].
  exists new. exact (ledger_trans _ _ _ _ _ H Hnew).
Qed.

Lemma ledger_pass ias : forall w,
  exists new, ledger w (foldl (initializeAccount world) w ias) new.
Proof.
  induction ias as [|ia ias IH]; intros w; cbn [foldl].
  - exists []. now apply ledger_refl.
  - destruct (ledger_initializeAccount w ia) as [n1 H1].
    destruct (IH (initializeAccount world w ia)) as [n2 H2].
    exists (n1 ++ n2). exact (ledger_trans _ _ _ _ _ H1 H2).
Qed.

(** X18.  The books of a pass balance.  Every login attempt of the
    pass is counted as a success or as a failure; each successful one,
    and no other, is announced to the parent with a [botInitialized]
    message, in order, and the statistics follow as the last message
    of the pass; the partition is only ever narrowed; no bot is
    dropped from the map, and a bot that the pass put there was logged
    in by one of its attempts, with the status announced. *)
Theorem initializeBots_ledger w :
  let w' := initializeBots world w in
  exists new,
    attempts w' = attempts w ++ new /\
    logins w' = (logins w + length new)%nat /\
    (successCount w' + failureCount w'
       = successCount w + failureCount w + length new)%nat /\
    successCount w'
      = (successCount w + length (List.filter logged_in new))%nat /\
    sent w' = sent w ++ announced new ++ [stats (size (bots w'))] /\
    sublist (accounts w') (accounts w) /\
    (forall user, is_Some (bots w !! user) -> is_Some (bots w' !! user)) /\
    (forall user s,
       bots w' !! user = Some s ->
       bots w !! user = Some s \/
       exists a isReady,
         a ∈ new /\ username a = user /\ result a = LoggedIn isReady /\
         s = status_of isReady).
Proof.
  simpl. unfold initializeBots.
  destruct (ledger_pass (zip (seq 0 (length (accounts w))) (accounts w)) w)
    as (new & Ha & Hl & Hc & Hs & Hm & Hacc & _ & Hk & Hb).
  exists new. simpl. rewrite Hm, <- app_assoc. auto 10.
Qed.

Lemma retry_success remaining i user : forall w pre a post r,
  attempts (retry world remaining i user w) = attempts w ++ pre ++ a :: post ->
  result a = LoggedIn r ->
  post = [] /\
  bots (retry world remaining i user w) !! user = Some (status_of r) /\
  throttledAccounts (retry world remaining i user w) !! user = None.
Proof.
  induction remaining as [|remaining IH]; intros w pre a post r; simpl.
  - intros E _. apply (f_equal length) in E.
    rewrite !length_app in E. simpl in E. lia.
  - destruct (initialize world (logins w)) as [isReady|message].
    + simpl. intros E R. apply app_inv_head in E.
      apply WorkerFacts.singleton_split in E as (_ & -> & ->).
      simpl in R. injection R as <-.
      split; [reflexivity|]. split; [apply lookup_insert_eq|].
      apply lookup_delete_eq.
    + destruct (WorkerFacts.on_failure_attempts world i user message w)
        as [Hlog _].
      assert (Hlast :
        attempts (on_failure world i user message w)
          = attempts w ++ pre ++ a :: post ->
        result a = LoggedIn r -> False).
      { rewrite Hlog. intros E R. apply app_inv_head in E.
        apply WorkerFacts.singleton_split in E as (_ & -> & _).
        discriminate. }
      destruct (String.eqb message "ACCOUNT_DISABLED");
        [intros E R; destruct (Hlast E R)|].
      destruct (String.eqb message "LOGIN_THROTTLED");
        [intros E R; destruct (Hlast E R)|].
      intros E R.
      destruct (ledger_retry remaining i user
                  (on_failure world i user message w))
        as (new & Hnew & _).
      rewrite Hnew, Hlog, <- app_assoc in E. apply app_inv_head in E.
      destruct pre as [|x pre]; simpl in E; injection E as <- E.
      * discriminate.
      * apply (IH (on_failure world i user message w) pre a post r);
          [|exact R].
        rewrite Hnew, E, Hlog, <- app_assoc. reflexivity.
Qed.

(** X19.  A successful login ends the attempts for its account: it is
    the last one logged, the bot is in the map under the user name of
    the account with the status its [isReady()] gave, and the account
    is no longer marked as throttled. *)
Theorem login_success_is_final w i account pre a post r :
  attempts (initializeAccount world w (i, account))
    = attempts w ++ pre ++ a :: post ->
  result a = LoggedIn r ->
  post = [] /\
  username a = username_of account /\
  bots (initializeAccount world w (i, account)) !! username_of account
    = Some (status_of r) /\
  throttledAccounts (initializeAccount world w (i, account))
    !! username_of account = None.
Proof.
  intros E R.
  assert (Hu : username a = username_of account).
  { destruct (WorkerFacts.initializeAccount_spec world i account w)
      as (new & Hlog & _ & Hall & _).
    rewrite Hlog in E. apply app_inv_head in E. subst new.
    apply Forall_app in Hall as [_ Hall].
    apply list.Forall_cons in Hall as [[_ Hu] _]. exact Hu. }
  revert E. unfold initializeAccount.
  destruct (WorkerFacts.is_throttled_frame world (username_of account) w)
    as (Ha & _).
  destruct (is_throttled world (username_of account) w) as [[] w1];
    simpl in Ha.
  - rewrite Ha. intros E. apply (f_equal length) in E.
    rewrite !length_app in E. simpl in E. lia.
  - rewrite <- Ha. intros E.
    destruct (retry_success _ _ _ _ _ _ _ _ E R) as (Hp & Hb & Ht). auto.
Qed.

(** X20.  When the first login of an account that is not throttled
    meets ACCOUNT_DISABLED, every account line that starts with its
    user name leaves the partition, not only that of the account; for
    an account line without a colon the user name is empty, and the
    partition is left empty. *)
Theorem disabled_account_blacklist w i account :
  fst (is_throttled world (username_of account) w) = false ->
  0 < MAX_RETRIES w ->
  initialize world (logins w) = Failed "ACCOUNT_DISABLED" ->
  accounts (initializeAccount world w (i, account)) =
    filter (fun acc => negb (String.prefix (username_of account) acc) = true)
           (accounts w) /\
  (index 0 ":" account = None ->
   accounts (initializeAccount world w (i, account)) = []).
Proof.
  intros Hthr Hmax Hinit.
  assert (E : accounts (initializeAccount world w (i, account)) =
    filter (fun acc => negb (String.prefix (username_of account) acc) = true)
           (accounts w)).
  { unfold initializeAccount.
    destruct (WorkerFacts.is_throttled_frame world (username_of account) w)
      as (_ & Hm & Hacc & _).
    assert (Hl : logins (snd (is_throttled world (username_of account) w))
                 = logins w).
    { unfold is_throttled.
      destruct (throttledAccounts w !! username_of account) as [expiry|];
        [destruct (expiry =? 0)|]; reflexivity. }
    destruct (is_throttled world (username_of account) w) as [b w1].
    simpl in *. subst b. rewrite Hm.
    destruct (Z.to_nat (MAX_RETRIES w)) as [|n] eqn:En; [lia|].
    simpl. rewrite Hl, Hinit. simpl. now rewrite Hacc. }
  split; [exact E|].
  intros Hcolon. rewrite E. unfold username_of. rewrite Hcolon.
  clear E. induction (accounts w) as [|acc l IH]; [reflexivity|].
  rewrite filter_cons_False; [exact IH|].
  rewrite prefix_empty. simpl. discriminate.
Qed.

End WithWorld.

Lemma initializeBots_ledger_witness :
  bots (initializeBots Sample.world Sample.shard) !! "alice" = Some ready /\
  exists a isReady,
    username a = "alice" /\ result a = LoggedIn isReady /\
    ready = status_of isReady.
Proof.
  assert (Hb : bots (initializeBots Sample.world Sample.shard) !! "alice"
               = Some ready) by (vm_compute; reflexivity).
  split; [exact Hb|].
  destruct (initializeBots_ledger Sample.world Sample.shard)
    as (new & _ & _ & _ & _ & _ & _ & _ & Hnew).
  destruct (Hnew "alice" ready Hb) as [H|(a & r & _ & Hu & Hr & Hs)].
  - vm_compute in H. discriminate.
  - exists a, r. auto.
Defined.

Lemma login_success_is_final_witness :
  bots Shard.first_done !! "alice" = Some ready /\
  throttledAccounts Shard.first_done !! "alice" = None.
Proof.
  destruct (login_success_is_final Sample.world Sample.shard 0%nat
              "alice:secret"
              [{| position := 0; username := "alice";
                  result := Failed "Logon timed out" |}]
              {| position := 0; username := "alice";
                 result := LoggedIn true |} [] true)
    as (_ & _ & Hb & Ht).
  - vm_compute. reflexivity.
  - reflexivity.
  - exact (conj Hb Ht).
Defined.

Lemma disabled_account_blacklist_witness :
  accounts Shard.second_done = ["alice:secret"; "carol:pw"].
Proof.
  destruct (disabled_account_blacklist Sample.world Shard.first_done 1%nat
              "bob:pass:word") as [H _].
  - vm_compute. reflexivity.
  - vm_compute. reflexivity.
  - vm_compute. reflexivity.
  - unfold Shard.second_done. rewrite H. vm_compute. reflexivity.
Defined.

End BooksFacts.

Module HealthFacts.
Import Js BotWorker HealthCheck Books BooksFacts.

Section WithWorld.
Variable world : World.
Variable functioning : nat -> bool.

Lemma extends_refl h h' :
  retried h' = retried h -> logins (worker h') = logins (worker h) ->
  accounts (worker h') = accounts (worker h) ->
  attempts (worker h') = attempts (worker h) ->
  successCount (worker h') = successCount (worker h) ->
  failureCount (worker h') = failureCount (worker h) ->
  failedAccounts h' ⊆ failedAccounts h ->
  bots (worker h') = bots (worker h) ->
  extends h h' [].
Proof.
  intros Hr Hl Ha Hat Hs Hf Hfa Hb. unfold extends.
  rewrite Hr, Hl, Ha, Hat, Hs, Hf, Hb, app_nil_r. simpl.
  repeat (split; [try reflexivity; try lia; try assumption|]).
  intros user Hn [s Hs']. congruence.
Qed.

Lemma extends_trans h h1 h2 n1 n2 :
  extends h h1 n1 -> extends h1 h2 n2 -> extends h h2 (n1 ++ n2).
Proof.
  intros (Hr1 & Hl1 & Ha1 & Hat1 & Hs1 & Hf1 & Hfa1 & Hk1 & Hb1)
         (Hr2 & Hl2 & Ha2 & Hat2 & Hs2 & Hf2 & Hfa2 & Hk2 & Hb2).
  unfold extends.
  rewrite Hr2, Hr1, Hl2, Hl1, Ha2, Ha1, Hat2, Hat1, Hs2, Hs1, Hf2, Hf1.
  rewrite length_app, app_assoc.
  split; [reflexivity|]. split; [lia|].
  do 4 (split; [reflexivity|]).
  split; [now transitivity (failedAccounts h1)|]. split.
  - intros user Hu. rewrite Hk2; [now apply Hk1|]. rewrite Hk1; assumption.
  - intros user Hn Hs.
    destruct (bots (worker h1) !! user) as [s|] eqn:E.
    + destruct (Hb1 user Hn (mk_is_Some _ _ E)) as [r Hin].
      exists r. apply elem_of_app. auto.
    + destruct (Hb2 user E Hs) as [r Hin].
      exists r. apply elem_of_app. auto.
Qed.

Lemma initializeSingleBot_extends user h :
  bots (worker h) !! user = None ->
  exists r,
    extends h (snd (initializeSingleBot world user h)) [(user, r)] /\
    r = initialize world (logins (worker h)).
Proof.
  intros Hnone. unfold initializeSingleBot, extends.
  destruct (initialize world (logins (worker h))) as [isReady|message];
    eexists; (split; [|reflexivity]); simpl.
  - split; [reflexivity|]. split; [lia|]. do 4 (split; [reflexivity|]).
    split; [apply delete_subseteq|]. split.
    + intros u [s Hu]. rewrite lookup_insert_ne; [reflexivity|congruence].
    + intros u Hu Hs. destruct (decide (u = user)) as [->|Hne].
      * exists isReady. apply list_elem_of_here.
      * rewrite lookup_insert_ne in Hs by congruence.
        rewrite Hu in Hs. destruct Hs; discriminate.
  - destruct (String.eqb message "LOGIN_THROTTLED"); simpl;
      (split; [reflexivity|]); (split; [lia|]);
      do 4 (split; [reflexivity|]); (split; [reflexivity|]);
      (split; [reflexivity|]); intros u Hu [s Hs]; congruence.
Qed.

(** The body of the loop makes no login or one, for the account it is
    at, and the login is the next one of the world. *)
Lemma retryAccount_chunk h ia :
  exists new,
    extends h (retryAccount world functioning h ia) new /\
    (new = [] \/
     new = [(username_of ia.2, initialize world (logins (worker h)))]).
Proof.
  destruct ia as [i account]. unfold retryAccount. simpl.
  set (user := username_of account).
  assert (Hstop : forall h', extends h h' [] ->
    exists new, extends h h' new /\
      (new = [] \/ new = [(user, initialize world (logins (worker h)))])).
  { intros h' H. exists []. auto. }
  pose proof (ledger_is_throttled world user (worker h))
    as (Hat & Hl & _ & Hs & _ & _ & _ & _).
  pose proof (WorkerFacts.is_throttled_frame world user (worker h))
    as (_ & _ & Hacc & _).
  assert (Hmore :
    bots (snd (is_throttled world user (worker h))) = bots (worker h) /\
    successCount (snd (is_throttled world user (worker h)))
      = successCount (worker h) /\
    failureCount (snd (is_throttled world user (worker h)))
      = failureCount (worker h)).
  { unfold is_throttled.
    destruct (throttledAccounts (worker h) !! user) as [expiry|];
      [destruct (expiry =? 0)|]; auto. }
  destruct Hmore as (Hb & Hsc & Hfc).
  assert (Hgo : forall h1, extends h h1 [] ->
    bots (worker h1) !! user = None ->
    exists new,
      extends h (snd (initializeSingleBot world user h1)) new /\
      (new = [] \/ new = [(user, initialize world (logins (worker h)))])).
  { intros h1 H1 Hn.
    destruct (initializeSingleBot_extends user h1 Hn) as (r & Hr & ->).
    assert (Hl1 : logins (worker h1) = logins (worker h)).
    { destruct H1 as (_ & Hl1 & _). simpl in Hl1. lia. }
    rewrite Hl1 in Hr.
    eexists. split; [exact (extends_trans _ _ _ _ _ H1 Hr)|].
    right. reflexivity. }
  destruct (bots (worker h) !! user) as [s|] eqn:Eb.
  - destruct (functioning i); [apply Hstop; now apply extends_refl|].
    destruct (is_throttled world user (worker h)) as [throttled w1].
    simpl in *. rewrite app_nil_r in Hat. rewrite Nat.add_0_r in Hl.
    destruct throttled; [apply Hstop; now apply extends_refl|].
    destruct (failedAccounts h !! user) as [info|];
      [|apply Hstop; now apply extends_refl].
    destruct (_ <? _); apply Hstop; apply extends_refl; simpl; auto.
    apply delete_subseteq.
  - destruct (is_throttled world user (worker h)) as [throttled w1].
    simpl in *. rewrite app_nil_r in Hat. rewrite Nat.add_0_r in Hl.
    destruct throttled; [apply Hstop; now apply extends_refl|].
    destruct (failedAccounts h !! user) as [info|].
    + destruct (_ <? _); [apply Hstop; now apply extends_refl|].
      simpl. apply Hgo; [|simpl; congruence].
      apply extends_refl; simpl; auto. apply delete_subseteq.
    + simpl. apply Hgo; [|simpl; congruence].
      now apply extends_refl.
Qed.

Lemma retry_pass_chunks ias : forall h,
  exists chunks,
    extends h (foldl (retryAccount world functioning) h ias) (concat chunks) /\
    Forall2 (fun (ia : nat * string) chunk =>
               chunk = [] \/ exists r, chunk = [(username_of ia.2, r)])
            ias chunks /\
    (forall k user r,
       concat chunks !! k = Some (user, r) ->
       r = initialize world (logins (worker h) + k)).
Proof.
  induction ias as [|ia ias IH]; intros h; cbn [foldl].
  - exists []. split; [now apply extends_refl|]. split; [constructor|].
    intros k user r Hk. destruct k; discriminate.
  - destruct (retryAccount_chunk h ia) as (n1 & H1 & Hn1).
    destruct (IH (retryAccount world functioning h ia))
      as (chunks & H2 & Hall & Hnext).
    exists (n1 :: chunks). cbn [concat].
    split; [exact (extends_trans _ _ _ _ _ H1 H2)|]. split.
    + constructor; [|exact Hall].
      destruct Hn1 as [->| ->]; [left; reflexivity|right; eauto].
    + intros k user r Hk.
      destruct H1 as (_ & Hl1 & _).
      destruct Hn1 as [->| ->]; simpl in Hk, Hl1.
      * rewrite Nat.add_0_r in Hl1. rewrite <- Hl1. eauto.
      * destruct k as [|k]; simpl in Hk.
        -- injection Hk as _ <-. now rewrite Nat.add_0_r.
        -- apply Hnext in Hk. rewrite Hk, Hl1. f_equal. lia.
Qed.

Lemma Forall2_zip_seq {B} (P : string -> B -> Prop) accs : forall n chunks,
  Forall2 (fun (ia : nat * string) chunk => P ia.2 chunk)
          (zip (seq n (length accs)) accs) chunks ->
  Forall2 P accs chunks.
Proof.
  induction accs as [|a accs IH]; intros n chunks H; simpl in H.
  - inversion H. constructor.
  - inversion H; subst. constructor; [assumption|]. eapply IH; eauto.
Qed.

Lemma concat_at_most_one {A B} (P : A -> list B -> Prop) l chunks :
  (forall a c, P a c -> (length c <= 1)%nat) ->
  Forall2 P l chunks -> (length (concat chunks) <= length l)%nat.
Proof.
  intros HP H. induction H as [|a c l chunks Hac _ IH]; simpl; [lia|].
  rewrite length_app. specialize (HP _ _ Hac). lia.
Qed.

(** X21.  A run of [retryFailedAccountInitialization] attempts at most
    one login per account line, for the user of that line, and its
    [k]-th login is the [k]-th next one of the world.  It leaves the
    partition, the log of the start-up pass and its counts as they
    are; it only ever removes entries of [failedAccounts]; a bot that
    was in the map stays as it is, and a bot that the run put there was
    logged in by one of its attempts. *)
Theorem retryFailedAccountInitialization_extends h :
  exists chunks,
    extends h (retryFailedAccountInitialization world functioning h)
            (concat chunks) /\
    Forall2 (fun account chunk =>
               chunk = [] \/ exists r, chunk = [(username_of account, r)])
            (accounts (worker h)) chunks /\
    (forall k user r,
       concat chunks !! k = Some (user, r) ->
       r = initialize world (logins (worker h) + k)) /\
    (length (concat chunks) <= length (accounts (worker h)))%nat.
Proof.
  unfold retryFailedAccountInitialization.
  destruct (retry_pass_chunks
              (zip (seq 0 (length (accounts (worker h))))
                   (accounts (worker h))) h)
    as (chunks & H & Hall & Hnext).
  apply (Forall2_zip_seq
           (fun account chunk =>
              chunk = [] \/ exists r, chunk = [(username_of account, r)]))
    in Hall.
  exists chunks. split; [exact H|]. split; [exact Hall|].
  split; [exact Hnext|].
  eapply concat_at_most_one; [|exact Hall].
  intros a c [->|[r ->]]; simpl; lia.
Qed.

(** X22.  An account whose bot is in the map is never logged in again
    by the retry, not even when the bot is in error or disconnected.
    For such a bot that is not throttled, a failure record that is 30
    minutes old is nevertheless forgotten. *)
Theorem kept_bot_never_recreated h i account s :
  bots (worker h) !! username_of account = Some s ->
  let h' := retryAccount world functioning h (i, account) in
  logins (worker h') = logins (worker h) /\
  retried h' = retried h /\
  bots (worker h') = bots (worker h) /\
  sent (worker h') = sent (worker h) /\
  (functioning i = false ->
   throttledAccounts (worker h) !! username_of account = None ->
   forall info,
     failedAccounts h !! username_of account = Some info ->
     30 * 60 * 1000 <= date_now world (clock (worker h)) - timestamp info ->
     failedAccounts h' = delete (username_of account) (failedAccounts h)).
Proof.
  intros Hb. simpl. unfold retryAccount. rewrite Hb.
  destruct (functioning i) eqn:Ef.
  - repeat (split; [reflexivity|]). discriminate.
  - unfold is_throttled.
    destruct (throttledAccounts (worker h) !! username_of account)
      as [expiry|] eqn:Et.
    + destruct (expiry =? 0).
      * simpl. destruct (failedAccounts h !! username_of account) as [info|];
          [destruct (_ <? _)|]; simpl;
          repeat (split; [reflexivity|]); discriminate.
      * destruct (_ <? expiry); simpl.
        -- repeat (split; [reflexivity|]). discriminate.
        -- destruct (failedAccounts h !! username_of account) as [info|];
             [destruct (_ <? _)|]; simpl;
             repeat (split; [reflexivity|]); discriminate.
    + simpl. destruct (failedAccounts h !! username_of account) as [info|].
      * destruct (_ <? _) eqn:El; simpl; repeat (split; [reflexivity|]).
        -- intros _ _ info' [= <-] Hold. apply Z.ltb_lt in El. lia.
        -- reflexivity.
      * simpl. repeat (split; [reflexivity|]). discriminate.
Qed.

(** X23.  A login that meets LOGIN_THROTTLED during the retry marks
    the account as throttled until 30 minutes after the clock reading
    taken then; a retry that comes before that time skips the account
    without a login. *)
Theorem throttled_then_skipped h i j account :
  let user := username_of account in
  bots (worker h) !! user = None ->
  throttledAccounts (worker h) !! user = None ->
  failedAccounts h !! user = None ->
  initialize world (logins (worker h)) = Failed "LOGIN_THROTTLED" ->
  let h1 := retryAccount world functioning h (i, account) in
  let expiry := date_now world (clock (worker h)) + THROTTLE_COOLDOWN in
  throttledAccounts (worker h1) !! user = Some expiry /\
  retried h1 = retried h ++ [(user, Failed "LOGIN_THROTTLED")] /\
  clock (worker h1) = S (clock (worker h)) /\
  (expiry <> 0 ->
   date_now world (S (clock (worker h))) < expiry ->
   let h2 := retryAccount world functioning h1 (j, account) in
   retried h2 = retried h1 /\ logins (worker h2) = logins (worker h1)).
Proof.
  intros user Hb Ht Hf Hinit h1 expiry.
  assert (E1 : h1 = snd (initializeSingleBot world user h)).
  { subst h1. unfold retryAccount. fold user. rewrite Hb.
    unfold is_throttled. rewrite Ht. simpl. rewrite Hf.
    destruct h; reflexivity. }
  assert (E2 : worker h1 =
    {| accounts := accounts (worker h); bots := bots (worker h);
       throttledAccounts := <[user := expiry]> (throttledAccounts (worker h));
       MAX_RETRIES := MAX_RETRIES (worker h);
       logins := S (logins (worker h));
       clock := S (clock (worker h));
       successCount := successCount (worker h);
       failureCount := failureCount (worker h);
       sent := sent (worker h); attempts := attempts (worker h) |} /\
    retried h1 = retried h ++ [(user, Failed "LOGIN_THROTTLED")]).
  { rewrite E1. unfold initializeSingleBot. rewrite Hinit. simpl. auto. }
  destruct E2 as [Ew Er].
  split; [rewrite Ew; simpl; apply lookup_insert_eq|].
  split; [exact Er|]. split; [rewrite Ew; reflexivity|].
  intros Hne Hlt. simpl. unfold retryAccount. fold user.
  rewrite Ew. simpl. rewrite Hb. unfold is_throttled. simpl.
  rewrite lookup_insert_eq.
  apply Z.eqb_neq in Hne. rewrite Hne.
  apply Z.ltb_lt in Hlt. rewrite Hlt. simpl. auto.
Qed.

(** X24.  Unlike the start-up pass, the retry keeps an account that
    meets ACCOUNT_DISABLED in the partition and records nothing about
    it, so the next retry logs it in again. *)
Theorem disabled_account_retried h i j account :
  let user := username_of account in
  bots (worker h) !! user = None ->
  throttledAccounts (worker h) !! user = None ->
  failedAccounts h !! user = None ->
  initialize world (logins (worker h)) = Failed "ACCOUNT_DISABLED" ->
  let h1 := retryAccount world functioning h (i, account) in
  accounts (worker h1) = accounts (worker h) /\
  retried h1 = retried h ++ [(user, Failed "ACCOUNT_DISABLED")] /\
  retried (retryAccount world functioning h1 (j, account))
    = retried h1 ++ [(user, initialize world (S (logins (worker h))))].
Proof.
  intros user Hb Ht Hf Hinit h1.
  assert (E1 : h1 =
    {| worker :=
         {| accounts := accounts (worker h); bots := bots (worker h);
            throttledAccounts := throttledAccounts (worker h);
            MAX_RETRIES := MAX_RETRIES (worker h);
            logins := S (logins (worker h));
            clock := clock (worker h);
            successCount := successCount (worker h);
            failureCount := failureCount (worker h);
            sent := sent (worker h); attempts := attempts (worker h) |};
       failedAccounts := failedAccounts h;
       retried := retried h ++ [(user, Failed "ACCOUNT_DISABLED")] |}).
  { subst h1. unfold retryAccount. fold user. rewrite Hb.
    unfold is_throttled. rewrite Ht. simpl. rewrite Hf. simpl.
    unfold initializeSingleBot. simpl. rewrite Hinit. reflexivity. }
  rewrite E1. simpl. split; [reflexivity|]. split; [reflexivity|].
  unfold retryAccount. fold user. simpl. rewrite Hb.
  unfold is_throttled. simpl. rewrite Ht. simpl. rewrite Hf. simpl.
  unfold initializeSingleBot. simpl.
  destruct (initialize world (S (logins (worker h)))); reflexivity.
Qed.

End WithWorld.

Lemma kept_bot_never_recreated_witness :
  let h' := retryAccount Sample.world Shard.broken Shard.check1
              (0%nat, "alice:secret") in
  logins (worker h') = logins (worker Shard.check1) /\
  failedAccounts h' = delete "alice" (failedAccounts Shard.check1).
Proof.
  destruct (kept_bot_never_recreated Sample.world Shard.broken Shard.check1
              0%nat "alice:secret" ready)
    as (Hl & _ & _ & _ & Hf).
  - vm_compute. reflexivity.
  - split; [exact Hl|].
    apply (Hf eq_refl)
      with (info := {| error := "MAX_RECONNECT_ATTEMPTS";
                       timestamp := 1600000000000 |}).
    + vm_compute. reflexivity.
    + vm_compute. reflexivity.
    + vm_compute. discriminate.
Defined.

Lemma throttled_then_skipped_witness :
  let h1 := retryAccount Sample.world Shard.broken Shard.check2
              (1%nat, "carol:pw") in
  throttledAccounts (worker h1) !! "carol" = Some 1700001800000 /\
  logins (worker (retryAccount Sample.world Shard.broken h1
                    (1%nat, "carol:pw"))) = logins (worker h1).
Proof.
  destruct (throttled_then_skipped Sample.world Shard.broken Shard.check2
              1%nat 1%nat "carol:pw")
    as (Ht & _ & _ & Hskip).
  - vm_compute. reflexivity.
  - vm_compute. reflexivity.
  - vm_compute. reflexivity.
  - vm_compute. reflexivity.
  - cbv zeta. split; [exact Ht|].
    apply Hskip; vm_compute; [discriminate|reflexivity].
Defined.

Lemma disabled_account_retried_witness :
  let h1 := retryAccount Sample.world Shard.broken
              {| worker := Shard.first_done; failedAccounts := ∅;
                 retried := [] |} (1%nat, "bob:pass:word") in
  accounts (worker h1) = ["alice:secret"; "bob:pass:word"; "carol:pw"] /\
  retried (retryAccount Sample.world Shard.broken h1
             (1%nat, "bob:pass:word"))
    = [("bob", Failed "ACCOUNT_DISABLED"); ("bob", Failed "LOGIN_THROTTLED")].
Proof.
  destruct (disabled_account_retried Sample.world Shard.broken
              {| worker := Shard.first_done; failedAccounts := ∅;
                 retried := [] |} 1%nat 1%nat "bob:pass:word")
    as (Ha & Hr & Hn).
  - vm_compute. reflexivity.
  - vm_compute. reflexivity.
  - vm_compute. reflexivity.
  - vm_compute. reflexivity.
  - cbv zeta. split; [rewrite Ha; vm_compute; reflexivity|].
    rewrite Hn, Hr. vm_compute. reflexivity.
Defined.

End HealthFacts.
